(** * Receipt processor: points, receipt identifiers and validation

    A shallow embedding of [backend/utils/utils.go] (package [utils]) and the
    properties of its operations: [ValidateReceipt], [ValidateID],
    [CalculatePoints] and [GenerateReceiptID].

    Go values are modelled as follows.
    - [string] is a sequence of bytes: Rocq's [string] (a list of [ascii]),
      [len] is [String.length] and [<] is the byte-wise lexicographic order.
    - [int] is a 64-bit two's complement integer: a [Z] with the wrap-around
      written out ([wrap64]).
    - [float64] is IEEE 754 binary64: [spec_float] at precision 53 and
      maximal exponent 1024.
    - an [error] is a value of the inductive type [error]; [nil] is [None].
    - a slice is a reference to its backing array, the arrays live in a
      store, so that a callee that writes through a slice is seen by the
      caller.

    Functions of the Go standard library and of [go-cache] that the file calls
    are modelled after their documented behaviour, each in a module named
    after its package. *)

From Stdlib Require Import ZArith QArith Qround String Ascii List Bool Lia SpecFloat.
From Stdlib Require Import Sorting.Permutation Sorting.Sorted.
From stdpp Require Import base option list sorting gmap strings pretty.

Local Open Scope Z_scope.

(** ** Bytes and strings *)

Definition code (c : ascii) : Z := Z.of_N (N_of_ascii c).

Definition bytes (s : string) : list ascii := list_ascii_of_string s.

Definition len (s : string) : Z := Z.of_nat (String.length s).

(** ** Go's [int] on a 64-bit platform *)

Definition wrap64 (z : Z) : Z := (z + 2 ^ 63) mod 2 ^ 64 - 2 ^ 63.

Definition add64 (a b : Z) : Z := wrap64 (a + b).
Definition mul64 (a b : Z) : Z := wrap64 (a * b).

Definition in_int64 (z : Z) : Prop := - 2 ^ 63 <= z < 2 ^ 63.

(** ** Errors *)

Inductive error : Type :=
  | errorString (msg : string)              (* errors.New, fmt.Errorf without %w *)
  | wrapError (msg : string) (cause : error) (* fmt.Errorf("msg: %w", cause) *)
  | ErrSyntax                               (* strconv.ErrSyntax *)
  | ErrRange                                (* strconv.ErrRange *)
  | NumError (func num : string) (err : error) (* &strconv.NumError{Func, Num, Err} *)
  | ParseError (layout value : string).     (* time.ParseError *)

#[global] Instance error_eq_dec : EqDecision error.
Proof. solve_decision. Defined.

(** ** [float64] *)

Abbreviation float64 := spec_float.

Definition prec64 : Z := 53.
Definition emax64 : Z := 1024.

Definition fmul (x y : float64) : float64 := SFmul prec64 emax64 x y.
Definition fdiv (x y : float64) : float64 := SFdiv prec64 emax64 x y.

(** Go's [==] on [float64]: a NaN equals nothing, the two zeros are equal. *)
Definition feq (x y : float64) : bool := SFeqb x y.

Definition pos_zero : float64 := S754_zero false.

(** The float that is exactly [m * 2^e], for a positive [m] whose product is
    representable: the mantissa is moved to the canonical exponent. *)
Definition float_of_exact (s : bool) (m : positive) (e : Z) : float64 :=
  let e' := fexp prec64 emax64 (Zpos (digits2_pos m) + e) in
  if e' <=? e
  then S754_finite s (Z.to_pos (Zpos m * 2 ^ (e - e'))) e'
  else S754_finite s (Z.to_pos (Zpos m / 2 ^ (e' - e))) e'.

(** The constants [0.25] and [0.2] of the source, converted to [float64] as
    the Go compiler converts an untyped constant: to the nearest value. *)
Definition quarter : float64 := S754_finite false 4503599627370496 (-54).
Definition point_two : float64 := S754_finite false 7205759403792794 (-55).

(** The integer part of a float, toward zero, when it fits in an [int]. *)
Definition trunc_finite (s : bool) (m : positive) (e : Z) : Z :=
  let a := if 0 <=? e then Zpos m * 2 ^ e else Zpos m / 2 ^ (- e) in
  if s then - a else a.

Definition float64_int (f : float64) : option Z :=
  match f with
  | S754_zero _ => Some 0
  | S754_finite s m e =>
      let z := trunc_finite s m e in
      if (- 2 ^ 63 <=? z) && (z <? 2 ^ 63) then Some z else None
  | _ => None
  end.

(** [int(f)] for a float64 [f]: the integer part when it fits; otherwise the
    result is implementation-dependent (Go specification, Conversions) and is
    left to [unrepresentable]. *)
Definition int_of_float64 (unrepresentable : float64 -> Z) (f : float64) : Z :=
  match float64_int f with
  | Some z => z
  | None => unrepresentable f
  end.

(** What amd64 returns for a value that does not fit (CVTTSD2SQ). *)
Definition amd64_unrepresentable (_ : float64) : Z := - 2 ^ 63.

(** The rational number that a float stands for; none for an infinity or a
    NaN. *)
Definition float_value (f : float64) : option Q :=
  match f with
  | S754_zero _ => Some (inject_Z 0)
  | S754_finite s m e =>
      let n := if s then Zneg m else Zpos m in
      Some (if 0 <=? e then inject_Z (n * 2 ^ e) else Qmake n (Z.to_pos (2 ^ (- e))))
  | _ => None
  end.

(** A float whose value is [k/4] for an integer [k]. *)
Definition multiple_of_quarter (f : float64) : Prop :=
  exists q k, float_value f = Some q /\ Qeq q (Qmake k 4).

Module math.

(** [math.Mod(x, y)]: the floating-point remainder of [x/y], exact, of
    magnitude below [|y|] and with the sign of [x]. Special cases as
    documented: [Mod(±Inf, y) = NaN], [Mod(NaN, y) = NaN], [Mod(x, 0) = NaN],
    [Mod(x, ±Inf) = x], [Mod(x, NaN) = NaN]. *)
Definition Mod (x y : float64) : float64 :=
  match x, y with
  | S754_nan, _ | _, S754_nan => S754_nan
  | S754_infinity _, _ => S754_nan
  | _, S754_zero _ => S754_nan
  | _, S754_infinity _ => x
  | S754_zero s, S754_finite _ _ _ => S754_zero s
  | S754_finite sx mx ex, S754_finite _ my ey =>
      let e := Z.min ex ey in
      let r := (Zpos mx * 2 ^ (ex - e)) mod (Zpos my * 2 ^ (ey - e)) in
      match r with
      | Zpos p => float_of_exact sx p e
      | _ => S754_zero sx
      end
  end.

(** [math.Ceil(x)]: the least integer value greater than or equal to [x];
    [Ceil(±0) = ±0], [Ceil(±Inf) = ±Inf], [Ceil(NaN) = NaN]. *)
Definition Ceil (x : float64) : float64 :=
  match x with
  | S754_finite s m e =>
      if 0 <=? e then x
      else
        let q := Zpos m / 2 ^ (- e) in
        let exact := Zpos m mod 2 ^ (- e) =? 0 in
        let n := if s then q else if exact then q else q + 1 in
        match n with
        | Zpos p => float_of_exact s p 0
        | _ => S754_zero s
        end
  | _ => x
  end.

End math.

Module strconv.

Definition isDigit (c : ascii) : bool := (48 <=? code c) && (code c <=? 57).

(** [lower(c)] is [c | ('x' - 'X')]. *)
Definition lower (c : ascii) : Z := Z.lor (code c) 32.

Definition isHexLetter (c : ascii) : bool := (97 <=? lower c) && (lower c <=? 102).

Definition digitVal (c : ascii) : Z :=
  if isDigit c then code c - 48 else lower c - 97 + 10.

(** ASCII lower-casing of the letters [A-Z] only, as [special] does. *)
Definition foldCase (c : ascii) : Z :=
  if (65 <=? code c) && (code c <=? 90) then code c + 32 else code c.

Definition equalFold (s : list ascii) (lit : string) : bool :=
  bool_decide (map foldCase s = map code (bytes lit)).

(** [special]: the (possibly signed) infinities and the unsigned NaN, in any
    letter case. The caller accepts them only when they are the whole
    string. *)
Definition special (s : list ascii) : option float64 :=
  let inf body := equalFold body "inf" || equalFold body "infinity" in
  match s with
  | c :: body =>
      if code c =? 43 then (if inf body then Some (S754_infinity false) else None)
      else if code c =? 45 then (if inf body then Some (S754_infinity true) else None)
      else if inf s then Some (S754_infinity false)
      else if equalFold s "nan" then Some S754_nan
      else None
  | [] => None
  end.

(** [underscoreOK]: underscores only between digits, or between a base
    prefix and a digit. [saw] is the last character seen: [0] a digit or
    base prefix, [1] an underscore, [2] anything else or the start. *)
Fixpoint underscoreScan (hex : bool) (saw : Z) (s : list ascii) : bool :=
  match s with
  | [] => negb (saw =? 1)
  | c :: s' =>
      if isDigit c || (hex && isHexLetter c) then underscoreScan hex 0 s'
      else if code c =? 95 then
        if saw =? 0 then underscoreScan hex 1 s' else false
      else if saw =? 1 then false
      else underscoreScan hex 2 s'
  end.

Definition stripSign (s : list ascii) : bool * list ascii :=
  match s with
  | c :: s' =>
      if code c =? 43 then (false, s')
      else if code c =? 45 then (true, s')
      else (false, s)
  | [] => (false, s)
  end.

Definition underscoreOK (s : list ascii) : bool :=
  let s := snd (stripSign s) in
  match s with
  | c0 :: c1 :: s' =>
      if (code c0 =? 48) && ((lower c1 =? 98) || (lower c1 =? 111) || (lower c1 =? 120))
      then underscoreScan (lower c1 =? 120) 0 s'
      else underscoreScan false 2 s
  | _ => underscoreScan false 2 s
  end.

(** The mantissa loop of [readFloat]: the digits read as one integer in
    [base], the number of digits after the point, and what is left. *)
Record mantissa := Mantissa {
  sawdot : bool; sawdigits : bool; underscores : bool;
  digits : Z; fraction : Z }.

Fixpoint readMantissa (hex : bool) (s : list ascii) (m : mantissa)
  : mantissa * list ascii :=
  match s with
  | [] => (m, [])
  | c :: s' =>
      if code c =? 95 then
        readMantissa hex s' (Mantissa (sawdot m) (sawdigits m) true (digits m) (fraction m))
      else if code c =? 46 then
        if sawdot m then (m, s)
        else readMantissa hex s' (Mantissa true (sawdigits m) (underscores m) (digits m) (fraction m))
      else if isDigit c || (hex && isHexLetter c) then
        readMantissa hex s'
          (Mantissa (sawdot m) true (underscores m)
             (digits m * (if hex then 16 else 10) + digitVal c)
             (if sawdot m then fraction m + 1 else fraction m))
      else (m, s)
  end.

(** The digits of an exponent; the value stops growing at 10000. *)
Fixpoint readExpDigits (s : list ascii) (e : Z) (us : bool) : Z * bool * list ascii :=
  match s with
  | c :: s' =>
      if code c =? 95 then readExpDigits s' e true
      else if isDigit c then
        readExpDigits s' (if e <? 10000 then e * 10 + (code c - 48) else e) us
      else (e, us, s)
  | [] => (e, us, [])
  end.

(** The exponent part after the exponent character: sign, then at least
    one digit. *)
Definition readExponent (s : list ascii) : option (Z * bool * list ascii) :=
  let '(neg, s1) := stripSign s in
  match s1 with
  | c :: _ =>
      if isDigit c then
        let '(e, us, rest) := readExpDigits s1 0 false in
        Some (if neg then - e else e, us, rest)
      else None
  | [] => None
  end.

(** [readFloat] on a whole string: sign, optional [0x] prefix, mantissa,
    exponent. The result is the sign, the base, the mantissa digits read as
    an integer and the exponent of the base ([10], or [2] for a hexadecimal
    mantissa) that scales it. *)
Record number := Number { neg : bool; hex : bool; mant : Z; exp : Z }.

Definition hasHexPrefix (s : list ascii) : bool :=
  match s with
  | c0 :: c1 :: _ :: _ => (code c0 =? 48) && (lower c1 =? 120)
  | _ => false
  end.

Definition readFloat (s : list ascii) : option number :=
  let '(sign, s1) := stripSign s in
  let hex := hasHexPrefix s1 in
  let '(m, s2) := readMantissa hex (if hex then drop 2 s1 else s1)
                    (Mantissa false false false 0 0) in
  if negb (sawdigits m) then None
  else
    let scale := if hex then 4 * fraction m else fraction m in
    match s2 with
    | [] =>
        if hex then None
        else if underscores m && negb (underscoreOK s) then None
        else Some (Number sign hex (digits m) (- scale))
    | c :: s3 =>
        if lower c =? (if hex then 112 else 101) then
          match readExponent s3 with
          | Some (e, us, []) =>
              if (underscores m || us) && negb (underscoreOK s) then None
              else Some (Number sign hex (digits m) (e - scale))
          | _ => None
          end
        else None
    end.

(** The nearest [float64] (ties to even) of the number read; a value beyond
    the largest finite float rounds to an infinity. *)
Definition nearest (n : number) : float64 :=
  if mant n =? 0 then S754_zero (neg n)
  else if hex n then
    binary_normalize prec64 emax64 (if neg n then - mant n else mant n) (exp n) (neg n)
  else if 0 <=? exp n then
    binary_normalize prec64 emax64
      (if neg n then - (mant n * 10 ^ exp n) else mant n * 10 ^ exp n) 0 (neg n)
  else
    fdiv (S754_finite (neg n) (Z.to_pos (mant n)) 0)
         (S754_finite false (Z.to_pos (10 ^ (- exp n))) 0).

(** The errors of the package name the function and quote its input. *)
Definition fnParseFloat : string := "ParseFloat".

Definition syntaxError (fn str : string) : error := NumError fn str ErrSyntax.

Definition rangeError (fn str : string) : error := NumError fn str ErrRange.

(** [strconv.ParseFloat(s, 64)]. On a syntax error the value is [0]; on a
    range error it is the infinity of the right sign. *)
Definition ParseFloat (s : string) : float64 * option error :=
  match special (bytes s) with
  | Some v => (v, None)
  | None =>
      match readFloat (bytes s) with
      | None => (pos_zero, Some (syntaxError fnParseFloat s))
      | Some n =>
          match nearest n with
          | S754_infinity sg => (S754_infinity sg, Some (rangeError fnParseFloat s))
          | v => (v, None)
          end
      end
  end.

End strconv.

Module strings.

(** [strings.ReplaceAll(s, old, new)] for an [old] of one byte. *)
Definition ReplaceAll (s : string) (old : ascii) (new : string) : string :=
  string_of_list_ascii
    (flat_map (fun c => if bool_decide (c = old) then bytes new else [c]) (bytes s)).

(** [strings.HasSuffix(s, suffix)]. *)
Definition HasSuffix (s suffix : string) : bool :=
  let n := length (bytes s) in
  let k := length (bytes suffix) in
  (k <=? n)%nat && bool_decide (drop (n - k) (bytes s) = bytes suffix).

(** White space as [unicode.IsSpace] defines it, by UTF-8 encoding:
    the six ASCII characters, U+0085, U+00A0, U+1680, U+2000 to U+200A,
    U+2028, U+2029, U+202F, U+205F and U+3000. *)
Definition space1 (b0 : Z) : bool :=
  ((9 <=? b0) && (b0 <=? 13)) || (b0 =? 32).

Definition space2 (b0 b1 : Z) : bool :=
  (b0 =? 194) && ((b1 =? 133) || (b1 =? 160)).

Definition space3 (b0 b1 b2 : Z) : bool :=
  ((b0 =? 225) && (b1 =? 154) && (b2 =? 128))
  || ((b0 =? 226) && (b1 =? 128)
      && (((128 <=? b2) && (b2 <=? 138)) || (b2 =? 168) || (b2 =? 169) || (b2 =? 175)))
  || ((b0 =? 226) && (b1 =? 129) && (b2 =? 159))
  || ((b0 =? 227) && (b1 =? 128) && (b2 =? 128)).

(** Dropping the white space at the front of [s]. With [back] the list is
    a reversed string, so that an encoding is met last byte first. *)
Fixpoint trim (back : bool) (s : list ascii) : list ascii :=
  match s with
  | [] => []
  | c0 :: s1 =>
      if space1 (code c0) then trim back s1
      else
        match s1 with
        | [] => s
        | c1 :: s2 =>
            if (if back then space2 (code c1) (code c0) else space2 (code c0) (code c1))
            then trim back s2
            else
              match s2 with
              | [] => s
              | c2 :: s3 =>
                  if (if back then space3 (code c2) (code c1) (code c0)
                      else space3 (code c0) (code c1) (code c2))
                  then trim back s3
                  else s
              end
        end
  end.

(** [strings.TrimSpace(s)]: leading and trailing white space removed. *)
Definition TrimSpace (s : string) : string :=
  string_of_list_ascii (rev (trim true (rev (trim false (bytes s))))).

End strings.

Module time.

Record Time := mkTime { Year : Z; Month : Z; Day : Z; Hour : Z; Minute : Z }.

(** [time.Date(year, month, day, hour, min, 0, 0, time.UTC)] for values in
    range. *)
Definition Date (year month day hour min : Z) : Time := mkTime year month day hour min.

Definition key (t : Time) : list Z := [Year t; Month t; Day t; Hour t; Minute t].

Fixpoint lexLt (a b : list Z) : bool :=
  match a, b with
  | x :: a', y :: b' => (x <? y) || ((x =? y) && lexLt a' b')
  | _, _ => false
  end.

(** [t.Before(u)] and [t.After(u)]: comparison of the two instants. *)
Definition Before (t u : Time) : bool := lexLt (key t) (key u).
Definition After (t u : Time) : bool := lexLt (key u) (key t).

Definition isDigit (s : list ascii) (i : nat) : bool :=
  match s !! i with
  | Some c => (48 <=? code c) && (code c <=? 57)
  | None => false
  end.

Definition digit (c : ascii) : Z := code c - 48.

(** [getnum]: one or two digits ([fixed] forces two). *)
Definition getnum (s : list ascii) (fixed : bool) : option (Z * list ascii) :=
  if negb (isDigit s 0) then None
  else if negb (isDigit s 1) then
    if fixed then None
    else match s with c :: s' => Some (digit c, s') | [] => None end
  else match s with
       | c0 :: c1 :: s' => Some (digit c0 * 10 + digit c1, s')
       | _ => None
       end.

(** [skip] of a one-byte literal prefix that is not a space. *)
Definition skip (s : list ascii) (lit : Z) : option (list ascii) :=
  match s with
  | c :: s' => if code c =? lit then Some s' else None
  | [] => None
  end.

Definition isLeap (year : Z) : bool :=
  (year mod 4 =? 0) && (negb (year mod 100 =? 0) || (year mod 400 =? 0)).

Definition daysIn (month year : Z) : Z :=
  if (month =? 2) && isLeap year then 29
  else if month =? 2 then 28
  else if (month =? 4) || (month =? 6) || (month =? 9) || (month =? 11) then 30
  else 31.

(** The four digits of [stdLongYear]. *)
Definition getyear (s : list ascii) : option (Z * list ascii) :=
  match s with
  | c0 :: c1 :: c2 :: c3 :: s' =>
      if isDigit s 0 && isDigit s 1 && isDigit s 2 && isDigit s 3
      then Some (((digit c0 * 10 + digit c1) * 10 + digit c2) * 10 + digit c3, s')
      else None
  | _ => None
  end.

(** [time.Parse("2006-01-02", value)]. *)
Definition ParseDate (value : string) : Time * option error :=
  let bad := (mkTime 1 1 1 0 0, Some (ParseError "2006-01-02" value)) in
  match getyear (bytes value) with
  | None => bad
  | Some (year, v1) =>
  match skip v1 45 with
  | None => bad
  | Some v2 =>
  match getnum v2 true with
  | None => bad
  | Some (month, v3) =>
  if (month <=? 0) || (12 <? month) then bad else
  match skip v3 45 with
  | None => bad
  | Some v4 =>
  match getnum v4 true with
  | None => bad
  | Some (day, v5) =>
  match v5 with
  | _ :: _ => bad
  | [] =>
      if (day <? 1) || (daysIn month year <? day) then bad
      else (Date year month day 0 0, None)
  end end end end end end.

(** [time.Parse("15:04", value)]: the clock time on January 1 of year 0. *)
Definition ParseClock (value : string) : Time * option error :=
  let bad := (mkTime 1 1 1 0 0, Some (ParseError "15:04" value)) in
  match getnum (bytes value) false with
  | None => bad
  | Some (hour, v1) =>
  if (hour <? 0) || (24 <=? hour) then bad else
  match skip v1 58 with
  | None => bad
  | Some v2 =>
  match getnum v2 true with
  | None => bad
  | Some (min, v3) =>
  if (min <? 0) || (60 <=? min) then bad else
  match v3 with
  | _ :: _ => bad
  | [] => (Date 0 1 1 hour min, None)
  end end end end.

End time.

Module regexp.

(** The fragment of RE2 syntax that the three patterns of the source use,
    all of them anchored at both ends: classes of bytes, concatenation and
    [+]. A class that holds ASCII characters only never matches a byte of a
    multi-byte rune, a negated ASCII class matches every such byte, so that
    matching byte by byte agrees with matching rune by rune. *)
Inductive re : Type :=
  | Fail
  | Eps
  | Class (p : Z -> bool)
  | Seq (r1 r2 : re)
  | Alt (r1 r2 : re)
  | Plus (r : re).

Fixpoint nullable (r : re) : bool :=
  match r with
  | Fail => false
  | Eps => true
  | Class _ => false
  | Seq r1 r2 => nullable r1 && nullable r2
  | Alt r1 r2 => nullable r1 || nullable r2
  | Plus r => nullable r
  end.

(** The derivative of [r] by the byte [b]; [Plus r] is [r] followed by
    zero or more [r]. *)
Fixpoint deriv (b : Z) (r : re) : re :=
  match r with
  | Fail => Fail
  | Eps => Fail
  | Class p => if p b then Eps else Fail
  | Seq r1 r2 =>
      if nullable r1 then Alt (Seq (deriv b r1) r2) (deriv b r2)
      else Seq (deriv b r1) r2
  | Alt r1 r2 => Alt (deriv b r1) (deriv b r2)
  | Plus r => Seq (deriv b r) (Alt Eps (Plus r))
  end.

(** [regexp.MatchString("^r$", s)]. *)
Definition MatchString (r : re) (s : string) : bool :=
  nullable (fold_left (fun r c => deriv (code c) r) (bytes s) r).

(** [\d], [\w], [\s], [\S], [\-] and [\.]. *)
Definition digit (b : Z) : bool := (48 <=? b) && (b <=? 57).
Definition word (b : Z) : bool :=
  digit b || ((65 <=? b) && (b <=? 90)) || ((97 <=? b) && (b <=? 122)) || (b =? 95).
Definition space (b : Z) : bool :=
  (b =? 9) || (b =? 10) || (b =? 12) || (b =? 13) || (b =? 32).
Definition notSpace (b : Z) : bool := negb (space b).
Definition hyphen (b : Z) : bool := b =? 45.
Definition dot (b : Z) : bool := b =? 46.

(** ["^[\\w\\s\\-]+$"] *)
Definition namePattern : re := Plus (Class (fun b => word b || space b || hyphen b)).
(** ["^\\d+\\.\\d{2}$"] *)
Definition moneyPattern : re :=
  Seq (Plus (Class digit)) (Seq (Class dot) (Seq (Class digit) (Class digit))).
(** ["^\\S+$"] *)
Definition idPattern : re := Plus (Class notSpace).

End regexp.

Module hex.

Definition hextable : list ascii := bytes "0123456789abcdef".

Definition digit (n : Z) : ascii := nth (Z.to_nat n) hextable "0"%char.

(** [hex.EncodeToString(src)]: two lower-case digits per byte. *)
Definition EncodeToString (src : list Z) : string :=
  string_of_list_ascii (flat_map (fun b => [digit (b / 16); digit (b mod 16)]) src).

End hex.

Module cache.

(** [go-cache]: a map from keys to objects with an expiration time in
    nanoseconds, [0] for none. The clock is an input of each operation. *)
Definition NoExpiration : Z := -1.
Definition DefaultExpiration : Z := 0.

Record Item (V : Type) := mkItem { Object : V; Expiration : Z }.
Arguments mkItem {V}.
Arguments Object {V}.
Arguments Expiration {V}.

Record Cache (V : Type) := mkCache {
  defaultExpiration : Z;
  items : gmap string (Item V) }.
Arguments mkCache {V}.
Arguments defaultExpiration {V}.
Arguments items {V}.

(** [cache.New(de, _)]. *)
Definition New {V} (de : Z) : Cache V :=
  mkCache (if de =? 0 then -1 else de) ∅.

(** [c.Get(k)] at clock reading [now]. *)
Definition Get {V} (c : Cache V) (k : string) (now : Z) : option V :=
  match items c !! k with
  | None => None
  | Some item =>
      if (0 <? Expiration item) && (Expiration item <? now) then None
      else Some (Object item)
  end.

(** [c.Set(k, x, d)] at clock reading [now] ([Set] is a keyword of Rocq). *)
Definition Set_ {V} (c : Cache V) (k : string) (x : V) (d : Z) (now : Z) : Cache V :=
  let d := if d =? DefaultExpiration then defaultExpiration c else d in
  let e := if 0 <? d then now + d else 0 in
  mkCache (defaultExpiration c) (<[k := mkItem x e]> (items c)).

End cache.

Module sha256.

(** SHA-256 (FIPS 180-4) over 32-bit words kept as [Z] in [0, 2^32). *)
Definition w32 (z : Z) : Z := z mod 2 ^ 32.

Definition rotr (n x : Z) : Z := Z.lor (Z.shiftr x n) (w32 (Z.shiftl x (32 - n))).

Definition Ch (x y z : Z) : Z :=
  Z.lxor (Z.land x y) (Z.land (Z.lxor x (2 ^ 32 - 1)) z).
Definition Maj (x y z : Z) : Z :=
  Z.lxor (Z.lxor (Z.land x y) (Z.land x z)) (Z.land y z).
Definition bsig0 (x : Z) : Z := Z.lxor (Z.lxor (rotr 2 x) (rotr 13 x)) (rotr 22 x).
Definition bsig1 (x : Z) : Z := Z.lxor (Z.lxor (rotr 6 x) (rotr 11 x)) (rotr 25 x).
Definition ssig0 (x : Z) : Z := Z.lxor (Z.lxor (rotr 7 x) (rotr 18 x)) (Z.shiftr x 3).
Definition ssig1 (x : Z) : Z := Z.lxor (Z.lxor (rotr 17 x) (rotr 19 x)) (Z.shiftr x 10).

(** The constants are defined as FIPS 180-4 defines them: the first 32 bits
    of the fractional parts of the cube roots of the first 64 primes, and,
    for the initial state, of the square roots of the first 8 primes. *)
Definition isPrime (n : nat) : bool :=
  (2 <=? n)%nat && forallb (fun d => negb (n mod d =? 0)%nat) (seq 2 (n - 2)).

Definition primes : list Z := map Z.of_nat (filter isPrime (seq 2 310)).

(** The integer cube root of [n], one bit at a time from bit [bits - 1]. *)
Fixpoint cbrtBits (bits : nat) (n r : Z) : Z :=
  match bits with
  | O => r
  | S bits' =>
      let r' := r + 2 ^ Z.of_nat bits' in
      cbrtBits bits' n (if r' * r' * r' <=? n then r' else r)
  end.

Definition K : list Z :=
  Eval vm_compute in map (fun p => w32 (cbrtBits 36 (p * 2 ^ 96) 0)) primes.

Definition state : Type := Z * Z * Z * Z * Z * Z * Z * Z.

Definition fracSqrt (p : Z) : Z := w32 (Z.sqrt (p * 2 ^ 64)).

Definition init : state :=
  Eval vm_compute in
    (fracSqrt 2, fracSqrt 3, fracSqrt 5, fracSqrt 7,
     fracSqrt 11, fracSqrt 13, fracSqrt 17, fracSqrt 19).

(** The message padded to a multiple of 64 bytes: a [0x80] byte, zeros,
    and the length in bits as 8 bytes, most significant first. *)
Definition be (n : nat) (z : Z) : list Z :=
  map (fun i => (z / 2 ^ (8 * Z.of_nat i)) mod 256) (rev (seq 0 n)).

Definition pad (msg : list Z) : list Z :=
  let n := Z.of_nat (length msg) in
  msg ++ [128] ++ repeat 0 (Z.to_nat ((55 - n) mod 64)) ++ be 8 (8 * n).

Fixpoint words (bs : list Z) : list Z :=
  match bs with
  | b0 :: b1 :: b2 :: b3 :: bs' =>
      (((b0 * 256 + b1) * 256 + b2) * 256 + b3) :: words bs'
  | _ => []
  end.

(** The message schedule, most recent word first: sixteen words of the
    block, then 48 more. *)
Fixpoint extend (n : nat) (rw : list Z) : list Z :=
  match n with
  | O => rw
  | S n' =>
      let w := w32 (ssig1 (nth 1 rw 0) + nth 6 rw 0 + ssig0 (nth 14 rw 0) + nth 15 rw 0) in
      extend n' (w :: rw)
  end.

Definition schedule (block : list Z) : list Z := rev (extend 48 (rev block)).

Definition round (st : state) (kw : Z * Z) : state :=
  let '(a, b, c, d, e, f, g, h) := st in
  let t1 := h + bsig1 e + Ch e f g + fst kw + snd kw in
  let t2 := bsig0 a + Maj a b c in
  (w32 (t1 + t2), a, b, c, w32 (d + t1), e, f, g).

Definition addState (s t : state) : state :=
  let '(a, b, c, d, e, f, g, h) := s in
  let '(a', b', c', d', e', f', g', h') := t in
  (w32 (a + a'), w32 (b + b'), w32 (c + c'), w32 (d + d'),
   w32 (e + e'), w32 (f + f'), w32 (g + g'), w32 (h + h')).

Definition block (st : state) (ws : list Z) : state :=
  addState st (fold_left round (combine K (schedule ws)) st).

Fixpoint blocks (n : nat) (st : state) (ws : list Z) : state :=
  match n with
  | O => st
  | S n' => blocks n' (block st (take 16 ws)) (drop 16 ws)
  end.

Definition digest (st : state) : list Z :=
  let '(a, b, c, d, e, f, g, h) := st in
  flat_map (be 4) [a; b; c; d; e; f; g; h].

(** The digest of everything written to a fresh [sha256.New()]:
    [hasher.Sum(nil)]. *)
Definition Sum256 (msg : list Z) : list Z :=
  let ws := words (pad msg) in
  digest (blocks (length ws / 16) init ws).

End sha256.

(** ** Package [models]

    The declarations of [models.Receipt] and [models.Item] are not among the
    sources of the repository. *)

(** Modelled from the spec: the struct [models.Item], which is not under the
    sources. Its fields are the two that the functions below select, strings
    in the spec's data model. *)
Record Item := mkItem { ShortDescription : string; Price : string }.

(** Modelled from the spec: the struct [models.Receipt], which is not under
    the sources. Its fields are the five that the functions below select:
    four strings, and [Items], a slice of items, as [sort.Slice], [len] and
    [range] require, here left open as [S].

    A [Receipt] carries the elements read through the slice: this is what a
    function that only reads its argument sees. A [ReceiptRef] carries the
    slice itself, a reference into the store of backing arrays: passing the
    struct by value copies the reference, not the array. *)
Record ReceiptOf (S : Type) := mkReceipt {
  Retailer : string;
  PurchaseDate : string;
  PurchaseTime : string;
  Total : string;
  Items : S }.
Arguments mkReceipt {S}.
Arguments Retailer {S}.
Arguments PurchaseDate {S}.
Arguments PurchaseTime {S}.
Arguments Total {S}.
Arguments Items {S}.

#[global] Instance Item_eq_dec : EqDecision Item.
Proof. solve_decision. Defined.

Abbreviation Receipt := (ReceiptOf (list Item)).

Definition slice : Type := positive.
Abbreviation ReceiptRef := (ReceiptOf slice).
Abbreviation store := (gmap slice (list Item)).

(** The elements of a slice; a slice without a backing array is [nil]. *)
Definition elems (m : store) (s : slice) : list Item := default [] (m !! s).

Definition load (m : store) (r : ReceiptRef) : Receipt :=
  mkReceipt (Retailer r) (PurchaseDate r) (PurchaseTime r) (Total r) (elems m (Items r)).

(** ** [CalculatePoints] *)

(** Helper function to check if the total is a round dollar amount with no
    cents. *)
Definition isRoundDollarAmount (total : string) : bool :=
  strings.HasSuffix total ".00".

(** Helper function to parse the total value as a float64. *)
Definition parseTotal (total : string) : float64 :=
  let '(value, err) := strconv.ParseFloat total in
  match err with
  | Some _ => pos_zero
  | None => value
  end.

(** Helper function to check if the total is a multiple of 0.25. *)
Definition isMultipleOfQuarter (total : string) : bool :=
  let value := parseTotal total in
  feq (math.Mod value quarter) pos_zero.

Section Scorer.

(** What [int(f)] yields on this platform for an [f] that does not fit. *)
Variable unrepresentable : float64 -> Z.

(** The loop over the items, from the points so far. *)
Fixpoint itemsLoop (items : list Item) (points : Z) : Z * option error :=
  match items with
  | [] => (points, None)
  | item :: rest =>
      let trimmedLength := len (strings.TrimSpace (ShortDescription item)) in
      if Z.rem trimmedLength 3 =? 0 then
        let '(price, err) := strconv.ParseFloat (Price item) in
        match err with
        | Some e => (0, Some (wrapError "failed to parse price" e))
        | None =>
            itemsLoop rest
              (add64 points (int_of_float64 unrepresentable (math.Ceil (fmul price point_two))))
        end
      else itemsLoop rest points
  end.

(** [CalculatePoints] calculates the points for a given receipt. The mutex
    of the source guards no shared data and is left out. *)
Definition CalculatePoints (receipt : Receipt) : Z * option error :=
  let points := 0 in
  let points := add64 points (len (strings.ReplaceAll (Retailer receipt) " " "")) in
  let points := if isRoundDollarAmount (Total receipt) then add64 points 50 else points in
  let points := if isMultipleOfQuarter (Total receipt) then add64 points 25 else points in
  let points := add64 points (mul64 (Z.quot (Z.of_nat (length (Items receipt))) 2) 5) in
  match itemsLoop (Items receipt) points with
  | (_, Some err) => (0, Some err)
  | (points, None) =>
      let '(purchaseDate, err) := time.ParseDate (PurchaseDate receipt) in
      match err with
      | Some e => (0, Some (wrapError "failed to parse purchase date" e))
      | None =>
          let points :=
            if Z.rem (time.Day purchaseDate) 2 =? 1 then add64 points 6 else points in
          let '(purchaseTime, err) := time.ParseClock (PurchaseTime receipt) in
          match err with
          | Some e => (0, Some (wrapError "failed to parse purchase time" e))
          | None =>
              let points :=
                if time.After purchaseTime (time.Date 0 1 1 14 0)
                   && time.Before purchaseTime (time.Date 0 1 1 16 0)
                then add64 points 10 else points in
              (points, None)
          end
      end
  end.

End Scorer.

(** ** [ValidateReceipt] and [ValidateID] *)

Fixpoint validateItems (items : list Item) : option error :=
  match items with
  | [] => None
  | item :: rest =>
      if bool_decide (ShortDescription item = "") then
        Some (errorString "Item ShortDescription is required")
      else if bool_decide (Price item = "") then
        Some (errorString "Item Price is required")
      else if negb (regexp.MatchString regexp.namePattern (ShortDescription item)) then
        Some (errorString "Item ShortDescription has invalid characters")
      else if negb (regexp.MatchString regexp.moneyPattern (Price item)) then
        Some (errorString "Item Price has an invalid format")
      else validateItems rest
  end.

(** [ValidateReceipt] checks if the provided receipt is valid. *)
Definition ValidateReceipt (receipt : Receipt) : option error :=
  if bool_decide (Retailer receipt = "") then Some (errorString "Retailer is required")
  else if bool_decide (PurchaseDate receipt = "") then Some (errorString "PurchaseDate is required")
  else if bool_decide (PurchaseTime receipt = "") then Some (errorString "PurchaseTime is required")
  else if bool_decide (Total receipt = "") then Some (errorString "Total is required")
  else if (length (Items receipt) =? 0)%nat then Some (errorString "At least one item is required")
  else if negb (regexp.MatchString regexp.namePattern (Retailer receipt)) then
    Some (errorString "Retailer name has invalid characters")
  else if bool_decide (is_Some (snd (time.ParseDate (PurchaseDate receipt)))) then
    Some (errorString "Invalid PurchaseDate format")
  else if bool_decide (is_Some (snd (time.ParseClock (PurchaseTime receipt)))) then
    Some (errorString "Invalid PurchaseTime format")
  else if negb (regexp.MatchString regexp.moneyPattern (Total receipt)) then
    Some (errorString "Invalid Total format")
  else validateItems (Items receipt).

(** [ValidateID] checks if the provided ID matches the expected pattern. *)
Definition ValidateID (id : string) : option error :=
  if negb (regexp.MatchString regexp.idPattern id) then Some (errorString "Invalid ID format")
  else None.

(** ** [GenerateReceiptID] *)

(** The [less] function handed to [sort.Slice]: Go's [<] on strings. *)
Definition lessShortDescription (a b : Item) : bool :=
  String.ltb (ShortDescription a) (ShortDescription b).

(** What the three [fmt.Fprintf] calls write to the hasher, one after the
    other. A write to a hash never fails, so that the three error returns of
    the source are never taken. *)
Definition hashInput {S} (receipt : ReceiptOf S) (items : list Item) : string :=
  (Retailer receipt +:+ PurchaseDate receipt +:+ PurchaseTime receipt)
  +:+ fold_right (fun item acc => ShortDescription item +:+ Price item +:+ acc) "" items
  +:+ Total receipt.

Definition receiptIDOf {S} (receipt : ReceiptOf S) (items : list Item) : string :=
  hex.EncodeToString (sha256.Sum256 (map code (bytes (hashInput receipt items)))).

Section Identifier.

(** [sort.Slice(x, less)] as a function from the elements of [x] to the
    elements it leaves there. The library fixes no algorithm and promises
    no stability, only that the outcome is [x] rearranged in an order where
    no element is [less] than one before it. *)
Variable sort_Slice : (Item -> Item -> bool) -> list Item -> list Item.

(** [GenerateReceiptID(receipt, c)], run on the store [m] of backing arrays
    at the clock reading [now]; returns the two results, the cache and the
    store. *)
Definition GenerateReceiptID (receipt : ReceiptRef) (c : cache.Cache ReceiptRef)
    (now : Z) (m : store)
  : (string * option error) * cache.Cache ReceiptRef * store :=
  (* sort.Slice works on the array behind receipt.Items *)
  let m := alter (sort_Slice lessShortDescription) (Items receipt) m in
  let receiptID := receiptIDOf receipt (elems m (Items receipt)) in
  match cache.Get c receiptID now with
  | Some _ => ((receiptID, Some (errorString "The same receipt is passed")), c, m)
  | None =>
      ((receiptID, None),
       cache.Set_ c receiptID receipt cache.DefaultExpiration now, m)
  end.

End Identifier.

(** [insertionSort_func] of package [sort], which is all that [sort.Slice]
    runs on a short slice (of at most 12 elements since Go 1.19, of at most 6
    before): each element in turn is swapped backward while it is [less] than
    the one before it. The prefix already sorted is kept reversed. *)
Fixpoint insertBack (less : Item -> Item -> bool) (x : Item) (rprefix : list Item)
  : list Item :=
  match rprefix with
  | [] => [x]
  | y :: rest => if less x y then y :: insertBack less x rest else x :: rprefix
  end.

Definition insertionSort (less : Item -> Item -> bool) (l : list Item) : list Item :=
  rev (fold_left (fun rprefix x => insertBack less x rprefix) l []).

(** ** The bonuses of a score

    The scoring rules one by one, as the sum that the spec describes. The
    function [CalculatePoints] is related to them in
    [CalculatePoints_bonuses]. *)

Record bonuses := mkBonuses {
  retailerBonus : Z;
  roundDollarBonus : Z;
  quarterBonus : Z;
  pairsBonus : Z;
  itemBonuses : list Z;
  oddDayBonus : Z;
  afternoonBonus : Z }.

Definition sumZ (l : list Z) : Z := fold_right Z.add 0 l.

Definition sumBonuses (b : bonuses) : Z :=
  retailerBonus b + roundDollarBonus b + quarterBonus b + pairsBonus b
  + sumZ (itemBonuses b) + oddDayBonus b + afternoonBonus b.

Definition parsed {A} (r : A * option error) : option A :=
  match r with
  | (a, None) => Some a
  | (_, Some _) => None
  end.

Definition afternoon (t : time.Time) : bool :=
  time.After t (time.Date 0 1 1 14 0) && time.Before t (time.Date 0 1 1 16 0).

Section ScorerBonuses.

Variable unrepresentable : float64 -> Z.

(** The bonus of one item, if its price can be read when it has to be. *)
Definition itemBonus (item : Item) : option Z :=
  if Z.rem (len (strings.TrimSpace (ShortDescription item))) 3 =? 0 then
    match parsed (strconv.ParseFloat (Price item)) with
    | Some price => Some (int_of_float64 unrepresentable (math.Ceil (fmul price point_two)))
    | None => None
    end
  else Some 0.

Definition bonusesOf (receipt : Receipt) : option bonuses :=
  match mapM itemBonus (Items receipt),
        parsed (time.ParseDate (PurchaseDate receipt)),
        parsed (time.ParseClock (PurchaseTime receipt)) with
  | Some cs, Some d, Some t =>
      Some (mkBonuses
              (len (strings.ReplaceAll (Retailer receipt) " " ""))
              (if isRoundDollarAmount (Total receipt) then 50 else 0)
              (if isMultipleOfQuarter (Total receipt) then 25 else 0)
              (Z.of_nat (length (Items receipt)) / 2 * 5)
              cs
              (if Z.rem (time.Day d) 2 =? 1 then 6 else 0)
              (if afternoon t then 10 else 0))
  | _, _, _ => None
  end.

End ScorerBonuses.

(** ** The checks of the validator

    The rules 1 to 6 of the spec in the order it lists them, each with the
    reason it gives when it fails; for an item, the two required fields come
    before the two patterns. [ValidateReceipt] is related to them in
    [C9_validate_first_failure]. *)

Definition itemChecks (item : Item) : list (bool * string) :=
  [ (bool_decide (ShortDescription item = ""), "Item ShortDescription is required");
    (bool_decide (Price item = ""), "Item Price is required");
    (negb (regexp.MatchString regexp.namePattern (ShortDescription item)),
     "Item ShortDescription has invalid characters");
    (negb (regexp.MatchString regexp.moneyPattern (Price item)),
     "Item Price has an invalid format") ].

Definition receiptChecks (receipt : Receipt) : list (bool * string) :=
  [ (bool_decide (Retailer receipt = ""), "Retailer is required");
    (bool_decide (PurchaseDate receipt = ""), "PurchaseDate is required");
    (bool_decide (PurchaseTime receipt = ""), "PurchaseTime is required");
    (bool_decide (Total receipt = ""), "Total is required");
    ((length (Items receipt) =? 0)%nat, "At least one item is required");
    (negb (regexp.MatchString regexp.namePattern (Retailer receipt)),
     "Retailer name has invalid characters");
    (bool_decide (is_Some (snd (time.ParseDate (PurchaseDate receipt)))),
     "Invalid PurchaseDate format");
    (bool_decide (is_Some (snd (time.ParseClock (PurchaseTime receipt)))),
     "Invalid PurchaseTime format");
    (negb (regexp.MatchString regexp.moneyPattern (Total receipt)),
     "Invalid Total format") ]
  ++ flat_map itemChecks (Items receipt).

(** The reason of the first check that fails, if any. *)
Fixpoint firstFailure (checks : list (bool * string)) : option error :=
  match checks with
  | [] => None
  | (failed, reason) :: rest =>
      if failed then Some (errorString reason) else firstFailure rest
  end.

Definition validationReasons : list string :=
  [ "Retailer is required"; "PurchaseDate is required"; "PurchaseTime is required";
    "Total is required"; "At least one item is required";
    "Retailer name has invalid characters"; "Invalid PurchaseDate format";
    "Invalid PurchaseTime format"; "Invalid Total format";
    "Item ShortDescription is required"; "Item Price is required";
    "Item ShortDescription has invalid characters";
    "Item Price has an invalid format" ].

(** ** Identifiers *)

Definition isLowerHex (c : ascii) : bool :=
  ((48 <=? code c) && (code c <=? 57)) || ((97 <=? code c) && (code c <=? 102)).

(** The order in which [sort.Slice] leaves the items: none is [less] than
    one before it. *)
Definition notAfter (a b : Item) : Prop := lessShortDescription b a = false.

(** The identifier that a call of [GenerateReceiptID] computes, its error,
    the cache and the store it leaves. *)
Definition idOf (r : (string * option error) * cache.Cache ReceiptRef * store) : string :=
  fst (fst (fst r)).
Definition errOf (r : (string * option error) * cache.Cache ReceiptRef * store)
  : option error := snd (fst (fst r)).
Definition cacheOf (r : (string * option error) * cache.Cache ReceiptRef * store)
  : cache.Cache ReceiptRef := snd (fst r).
Definition storeOf (r : (string * option error) * cache.Cache ReceiptRef * store)
  : store := snd r.

(** ** Amounts of money *)

(** An amount of [cents] as the validator wants it written: the dollars, a
    point, and two digits. *)
Definition showAmount (cents : Z) : string :=
  pretty (Z.to_N (cents / 100)) +:+ "."
  +:+ pretty (Z.to_N (cents mod 100 / 10)) +:+ pretty (Z.to_N (cents mod 10)).

(** What the float arithmetic of the source yields on an amount, next to
    the exact arithmetic on its cents: the amount parses, it is a multiple of
    a quarter when its cents are a multiple of 25, and a fifth of it, rounded
    up, is [ceil(cents / 500)]. *)
Definition agreesWithCents (cents : Z) : bool :=
  let s := showAmount cents in
  let r := strconv.ParseFloat s in
  regexp.MatchString regexp.moneyPattern s
  && bool_decide (snd r = None)
  && Bool.eqb (feq (math.Mod (fst r) quarter) pos_zero) (cents mod 25 =? 0)
  && bool_decide
       (float64_int (math.Ceil (fmul (fst r) point_two)) = Some ((cents + 499) / 500)).

(** [agreesWithCents] on every amount from 0 up to [n] cents, [n] left out. *)
Definition stepCents (st : Z * bool) : Z * bool :=
  (fst st + 1, snd st && agreesWithCents (fst st)).

Definition agreeBelow (n : Z) : bool := snd (Z.iter n stepCents (0, true)).

(** ** Receipts used as examples *)

Definition receiptTarget : Receipt :=
  mkReceipt "Target" "2022-01-01" "13:01" "35.35"
    [ mkItem "Mountain Dew 12PK" "6.49";
      mkItem "Emils Cheese Pizza" "12.25";
      mkItem "Knorr Creamy Chicken" "1.26";
      mkItem "Doritos Nacho Cheese" "3.35";
      mkItem "   Klarbrunn 12-PK 12 FL OZ  " "12.00" ].

Definition targetBonuses : bonuses := mkBonuses 6 0 0 10 [0; 3; 0; 0; 3] 6 0.

Definition receiptMarket : Receipt :=
  mkReceipt "M&M Corner Market" "2022-03-20" "14:33" "9.00"
    [ mkItem "Gatorade" "2.25"; mkItem "Gatorade" "2.25";
      mkItem "Gatorade" "2.25"; mkItem "Gatorade" "2.25" ].

Definition marketBonuses : bonuses := mkBonuses 15 50 25 10 [0; 0; 0; 0] 0 10.

Definition receiptHundred : Receipt :=
  mkReceipt "Target" "2022-01-02" "13:01" "100.00" [ mkItem "   " "100.00" ].

Definition hundredBonuses : bonuses := mkBonuses 6 50 25 0 [20] 0 0.



(** A price that is not a number, on a description of three characters. *)
Definition receiptFreeGum : Receipt :=
  mkReceipt "Target" "2022-01-02" "13:01" "1.00" [ mkItem "Gum" "free" ].

Definition milk : Item := mkItem "Milk" "3.49".
Definition bread : Item := mkItem "Bread" "2.50".
Definition gum1 : Item := mkItem "Gum" "1.00".
Definition gum2 : Item := mkItem "Gum" "2.00".

(** Five backing arrays: two orders of the same two items, twice the same
    description with two prices in both orders, and a second copy of the
    first array. *)
Definition exampleStore : store :=
  {[ 1%positive := [milk; bread]; 2%positive := [bread; milk];
     3%positive := [gum1; gum2]; 4%positive := [gum2; gum1];
     5%positive := [milk; bread] ]}.

Definition shop (items : slice) : ReceiptRef :=
  mkReceipt "Corner Shop" "2022-03-20" "14:33" "5.99" items.
Arguments shop items%_positive.

(** ** What the validator accepts

    The formats of the fields said without regular expressions and without
    the parsers of package [time]. They are related to [ValidateReceipt] in
    [ValidateReceipt_accepts]. *)

(** Matching on the bytes of the subject: [regexp.MatchString r s] is
    [accepts r (bytes s)]. *)
Definition accepts (r : regexp.re) (s : list ascii) : bool :=
  regexp.nullable (fold_left (fun r c => regexp.deriv (code c) r) s r).

(** A byte that [[\w\s\-]] matches. *)
Definition nameByte (c : ascii) : bool :=
  regexp.word (code c) || regexp.space (code c) || regexp.hyphen (code c).

(** A byte that [\d] matches. *)
Definition digitByte (c : ascii) : bool := regexp.digit (code c).

(** A name: one byte or more, each a letter, a digit, an underscore, a
    hyphen, or one of tab, line feed, form feed, carriage return and space. *)
Definition isName (s : string) : Prop :=
  s <> "" /\ Forall (fun c => nameByte c = true) (bytes s).

(** An amount: one digit or more, a point, two digits. *)
Definition isMoney (s : string) : Prop :=
  exists whole d1 d2,
    whole <> "" /\ Forall (fun c => digitByte c = true) (bytes whole)
    /\ digitByte d1 = true /\ digitByte d2 = true
    /\ s = whole +:+ "." +:+ String d1 (String d2 "").

(** Two digits read as a number. *)
Definition twoDigits (c0 c1 : ascii) : Z := time.digit c0 * 10 + time.digit c1.

(** A date: four digits, a hyphen, two digits, a hyphen, two digits, with a
    month from 1 to 12 and a day that this month of this year has. *)
Definition isDate (s : string) : Prop :=
  exists y0 y1 y2 y3 m0 m1 d0 d1,
    Forall (fun c => digitByte c = true) [y0; y1; y2; y3; m0; m1; d0; d1]
    /\ bytes s = [y0; y1; y2; y3; "-"; m0; m1; "-"; d0; d1]%char
    /\ 1 <= twoDigits m0 m1 <= 12
    /\ 1 <= twoDigits d0 d1
       <= time.daysIn (twoDigits m0 m1) (twoDigits y0 y1 * 100 + twoDigits y2 y3).

(** A clock time: one or two digits below 24, a colon, two digits below
    60. *)
Definition isClock (s : string) : Prop :=
  (exists h m0 m1,
      Forall (fun c => digitByte c = true) [h; m0; m1]
      /\ bytes s = [h; ":"; m0; m1]%char
      /\ twoDigits m0 m1 < 60)
  \/ (exists h0 h1 m0 m1,
         Forall (fun c => digitByte c = true) [h0; h1; m0; m1]
         /\ bytes s = [h0; h1; ":"; m0; m1]%char
         /\ twoDigits h0 h1 < 24 /\ twoDigits m0 m1 < 60).

(** A receipt whose fields all are in their format. *)
Definition wellFormed (receipt : Receipt) : Prop :=
  isName (Retailer receipt)
  /\ snd (time.ParseDate (PurchaseDate receipt)) = None
  /\ snd (time.ParseClock (PurchaseTime receipt)) = None
  /\ isMoney (Total receipt)
  /\ Items receipt <> []
  /\ Forall (fun item => isName (ShortDescription item) /\ isMoney (Price item))
       (Items receipt).

(** ** Amounts as numbers *)

(** The digits of a string read as one decimal number: the cents of an
    amount. *)
Definition centsOf (s : string) : Z :=
  fold_left (fun a c => if strconv.isDigit c then a * 10 + (code c - 48) else a) (bytes s) 0.

(** What [readMantissa] does on one decimal digit. *)
Definition digitStep (m : strconv.mantissa) (c : ascii) : strconv.mantissa :=
  strconv.Mantissa (strconv.sawdot m) true (strconv.underscores m)
    (strconv.digits m * 10 + (code c - 48))
    (if strconv.sawdot m then strconv.fraction m + 1 else strconv.fraction m).

(** The price of an item as a decimal number: the cents of an amount in
    the format of the validator, over 100. *)
Definition decimalOf (s : string) : Q := (centsOf s # 100)%Q.

(** A fifth of that price, rounded up: the bonus of a description as the
    spec words it, [ceil(price * 0.2)] on the decimal price. *)
Definition exactBonus (price : string) : Z := Qceiling (decimalOf price * (2 # 10)).

(** A float that is not below zero; a NaN is not. *)
Definition notNegative (f : float64) : bool :=
  match f with
  | S754_finite s _ _ | S754_infinity s => negb s
  | _ => true
  end.

(** A float that is zero, or positive and finite with an exponent of at
    least [lo] and a value of at most [bound * 2^lo]. *)
Definition atMost (f : float64) (lo bound : Z) : Prop :=
  match f with
  | S754_zero _ => True
  | S754_finite false m e => lo <= e /\ Zpos m * 2 ^ (e - lo) <= bound
  | _ => False
  end.

(** The bytes of a string that are not a space, and those that are. *)
Definition nonSpaces (s : string) : Z :=
  Z.of_nat (length (filter (fun c => c <> " "%char) (bytes s))).

Definition spaces (s : string) : Z :=
  Z.of_nat (length (filter (fun c => c = " "%char) (bytes s))).

(** ** Rounding to the nearest float *)

(** The location of a remainder [o] of a division by [w], as [SFdiv] hands
    it to the rounding: exact, or below, at or above one half. *)
Definition locOf (o w : Z) : location :=
  if o =? 0 then loc_Exact else loc_Inexact (Z.compare (2 * o) w).

(** The float [r] has the sign [sx] and the value [m * 2^e]. An infinity
    stands for such a value with an exponent beyond the largest of a
    [float64]. *)
Definition roundsTo (r : float64) (sx : bool) (m e : Z) : Prop :=
  match r with
  | S754_zero s => s = sx /\ m = 0
  | S754_finite s m' e' => s = sx /\ e <= e' <= 971 /\ Zpos m' * 2 ^ (e' - e) = m
  | S754_infinity s =>
      s = sx /\ exists m' e', 971 < e' /\ e <= e' /\ Zpos m' * 2 ^ (e' - e) = m
  | S754_nan => False
  end.

(** ** More receipts used as examples *)

(** Two arrays of one item each: the digit [1] ends the description of the
    first and starts the price of the second. *)
Definition twoGums : store :=
  {[ 1%positive := [mkItem "Gum 1" "2.00"]; 2%positive := [mkItem "Gum " "12.00"] ]}.

(** A price of 310 digits before the point: it has the format that the
    validator wants and is larger than every finite [float64]. *)
Definition hugePrice : string :=
  "1" +:+ string_of_list_ascii (replicate 309 "0"%char) +:+ ".00".

(** A receipt with a price of 18 bytes on a description of three. *)
Definition receiptLargeGum : Receipt :=
  mkReceipt "Target" "2022-01-02" "13:01" "1.00" [ mkItem "Gum" "200000000000000.01" ].

Definition largeGumBonuses : bonuses := mkBonuses 6 50 25 0 [40000000000000] 0 0.

(** A second such price, and an array in which it sorts first. *)
Definition hugePrice' : string :=
  "2" +:+ string_of_list_ascii (replicate 309 "0"%char) +:+ ".00".

Definition twoHuge : store :=
  {[ 1%positive := [mkItem "Zzz" hugePrice; mkItem "Aaa" hugePrice'] ]}.

(** * Properties *)

(** ** Machine integers *)

Lemma wrap64_range z : in_int64 (wrap64 z).
Proof. unfold in_int64, wrap64. pose proof (Z.mod_pos_bound (z + 2 ^ 63) (2 ^ 64)). lia. Qed.

Lemma wrap64_small z : in_int64 z -> wrap64 z = z.
Proof. unfold in_int64, wrap64. intros H. rewrite Z.mod_small; lia. Qed.

Lemma wrap64_add_l a b : wrap64 (wrap64 a + b) = wrap64 (a + b).
Proof.
  unfold wrap64.
  replace ((a + 2 ^ 63) mod 2 ^ 64 - 2 ^ 63 + b + 2 ^ 63)
    with ((a + 2 ^ 63) mod 2 ^ 64 + b) by lia.
  rewrite Zplus_mod_idemp_l. f_equal. f_equal. lia.
Qed.

Lemma wrap64_add_r a b : wrap64 (a + wrap64 b) = wrap64 (a + b).
Proof. rewrite (Z.add_comm a), wrap64_add_l. f_equal. lia. Qed.

Lemma add64_wrap_l a b : add64 (wrap64 a) b = wrap64 (a + b).
Proof. apply wrap64_add_l. Qed.

(** Sums of wrapped integers, brought to one wrap of the exact sum. *)
Ltac wrap64_norm :=
  repeat match goal with
         | |- context [add64 0 ?r] => change (add64 0 r) with (wrap64 (0 + r))
         end;
  unfold mul64;
  repeat (rewrite add64_wrap_l || rewrite wrap64_add_r).

(** ** [CalculatePoints] is the sum of its bonuses *)

Lemma parsed_Some {A} (r : A * option error) a : parsed r = Some a <-> r = (a, None).
Proof. destruct r as [a' [e|]]; simpl; split; intros H; by simplify_eq. Qed.

Lemma parsed_None {A} (r : A * option error) : parsed r = None <-> is_Some (snd r).
Proof. destruct r as [a' [e|]]; simpl; split; intros H; done. Qed.

Section ScorerProps.

Variable unrepresentable : float64 -> Z.

Lemma itemsLoop_bonuses items cs :
  Forall2 (fun item c => itemBonus unrepresentable item = Some c) items cs ->
  forall points,
    itemsLoop unrepresentable items (wrap64 points) = (wrap64 (points + sumZ cs), None).
Proof.
  induction 1 as [|item c items cs Hc _ IH]; intros points; simpl.
  - unfold sumZ; simpl. by rewrite Z.add_0_r.
  - unfold itemBonus in Hc.
    destruct (Z.rem _ 3 =? 0).
    + destruct (strconv.ParseFloat (Price item)) as [price [e|]]; simpl in Hc; [done|].
      simplify_eq. rewrite add64_wrap_l, IH.
      unfold sumZ; simpl. do 2 f_equal. lia.
    + simplify_eq. rewrite IH. unfold sumZ; simpl. do 2 f_equal.
Qed.

Lemma itemsLoop_abort items :
  Exists (fun item => itemBonus unrepresentable item = None) items ->
  forall points,
    exists cause, itemsLoop unrepresentable items points
                  = (0, Some (wrapError "failed to parse price" cause)).
Proof.
  induction items as [|item items IH]; intros Hex points; [by inversion Hex|].
  simpl. destruct (Z.rem _ 3 =? 0) eqn:Hlen.
  - destruct (strconv.ParseFloat (Price item)) as [price [e|]] eqn:Hp; [by eexists|].
    apply IH. inversion Hex as [? ? Hb|]; subst; [|done].
    unfold itemBonus in Hb. by rewrite Hlen, Hp in Hb.
  - apply IH. inversion Hex as [? ? Hb|]; subst; [|done].
    unfold itemBonus in Hb. by rewrite Hlen in Hb.
Qed.

Lemma CalculatePoints_bonuses receipt b :
  bonusesOf unrepresentable receipt = Some b ->
  CalculatePoints unrepresentable receipt = (wrap64 (sumBonuses b), None).
Proof.
  unfold bonusesOf, CalculatePoints. intros Hb.
  destruct (mapM _ (Items receipt)) as [cs|] eqn:Hcs; [|done].
  destruct (time.ParseDate _) as [d [e|]]; simpl in Hb; [done|].
  destruct (time.ParseClock _) as [t [e|]]; simpl in Hb; [done|].
  apply mapM_Some_1 in Hcs. simplify_eq.
  fold (afternoon t). unfold sumBonuses; simpl.
  rewrite Z.quot_div_nonneg by lia.
  destruct (isRoundDollarAmount _), (isMultipleOfQuarter _),
    (Z.rem (time.Day d) 2 =? 1), (afternoon t);
    wrap64_norm; rewrite (itemsLoop_bonuses _ _ Hcs); wrap64_norm;
    do 2 f_equal; lia.
Qed.

(** Without overflow the points are the exact sum. *)
Lemma CalculatePoints_exact receipt b :
  bonusesOf unrepresentable receipt = Some b ->
  in_int64 (sumBonuses b) ->
  CalculatePoints unrepresentable receipt = (sumBonuses b, None).
Proof.
  intros Hb Hfit. by rewrite (CalculatePoints_bonuses _ _ Hb), wrap64_small.
Qed.

Lemma CalculatePoints_abort receipt :
  bonusesOf unrepresentable receipt = None ->
  exists msg cause,
    CalculatePoints unrepresentable receipt = (0, Some (wrapError msg cause))
    /\ msg ∈ ["failed to parse price"; "failed to parse purchase date";
              "failed to parse purchase time"]%string.
Proof.
  unfold bonusesOf, CalculatePoints. intros Hb.
  destruct (mapM _ (Items receipt)) as [cs|] eqn:Hcs.
  - apply mapM_Some_1 in Hcs.
    destruct (isRoundDollarAmount _), (isMultipleOfQuarter _);
      wrap64_norm; rewrite (itemsLoop_bonuses _ _ Hcs);
      (destruct (time.ParseDate _) as [d [e|]]; simpl in Hb;
       [eexists _, _; split; [done|set_solver]|]);
      (destruct (time.ParseClock _) as [t [e|]]; simpl in Hb; [|done]);
      eexists _, _; (split; [done|set_solver]).
  - apply mapM_None_1 in Hcs.
    match goal with
    | |- context [itemsLoop _ _ ?p] =>
        destruct (itemsLoop_abort _ Hcs p) as [cause Hloop]
    end.
    rewrite Hloop. eexists _, _. split; [done|]. set_solver.
Qed.

End ScorerProps.

(** ** Strings *)

Lemma bytes_app s1 s2 : bytes (s1 +:+ s2) = bytes s1 ++ bytes s2.
Proof. induction s1 as [|c s1 IH]; simpl; [done|by rewrite IH]. Qed.

Lemma bytes_inj s1 s2 : bytes s1 = bytes s2 -> s1 = s2.
Proof.
  intros H. rewrite <-(string_of_list_ascii_of_string s1),
    <-(string_of_list_ascii_of_string s2). unfold bytes in H. by rewrite H.
Qed.

Lemma HasSuffix_spec s suffix :
  strings.HasSuffix s suffix = true <-> exists whole, s = whole +:+ suffix.
Proof.
  unfold strings.HasSuffix. rewrite andb_true_iff, Nat.leb_le, bool_decide_eq_true.
  split.
  - intros [Hle Hdrop].
    exists (string_of_list_ascii (take (length (bytes s) - length (bytes suffix)) (bytes s))).
    apply bytes_inj. rewrite bytes_app. unfold bytes at 2.
    rewrite list_ascii_of_string_of_list_ascii.
    rewrite <-(take_drop (length (bytes s) - length (bytes suffix)) (bytes s)) at 1.
    by rewrite Hdrop.
  - intros [whole ->]. rewrite bytes_app, length_app. split; [lia|].
    replace (length (bytes whole) + length (bytes suffix) - length (bytes suffix))%nat
      with (length (bytes whole)) by lia.
    by rewrite drop_app_length.
Qed.

(** ** The clock time of a purchase *)

Lemma ParseClock_ok value t :
  time.ParseClock value = (t, None) ->
  exists hour min,
    t = time.Date 0 1 1 hour min /\ 0 <= hour < 24 /\ 0 <= min < 60.
Proof.
  unfold time.ParseClock.
  destruct (time.getnum (bytes value) false) as [[hour v1]|] eqn:Hh; [|done].
  destruct ((hour <? 0) || (24 <=? hour)) eqn:Hhr; [done|].
  destruct (time.skip v1 58) as [v2|]; [|done].
  destruct (time.getnum v2 true) as [[min v3]|] eqn:Hm; [|done].
  destruct ((min <? 0) || (60 <=? min)) eqn:Hmr; [done|].
  destruct v3; [|done]. intros; simplify_eq.
  exists hour, min. split; [done|]. lia.
Qed.

Lemma afternoon_iff hour min :
  0 <= min < 60 ->
  afternoon (time.Date 0 1 1 hour min) = true <-> 14 * 60 < 60 * hour + min < 16 * 60.
Proof.
  intros Hmin. unfold afternoon, time.After, time.Before, time.Date, time.key.
  cbv beta iota delta [time.lexLt time.Year time.Month time.Day time.Hour time.Minute].
  rewrite ?andb_true_iff, ?orb_true_iff, ?andb_true_iff, ?Z.ltb_lt, ?Z.eqb_eq. lia.
Qed.

(** ** Multiples of a quarter *)

Lemma feq_float_of_exact s m e : feq (float_of_exact s m e) pos_zero = false.
Proof. unfold float_of_exact. by destruct (_ <=? e), s. Qed.

Lemma Mod_quarter_finite s m e :
  feq (math.Mod (S754_finite s m e) quarter) pos_zero = true
  <-> (Zpos m * 2 ^ (e - Z.min e (-54))) mod (2 ^ 52 * 2 ^ (-54 - Z.min e (-54))) = 0.
Proof.
  unfold quarter, math.Mod.
  change (Zpos 4503599627370496) with (2 ^ 52).
  assert (0 < 2 ^ 52 * 2 ^ (-54 - Z.min e (-54))) as Hpos
    by (apply Z.mul_pos_pos; apply Z.pow_pos_nonneg; lia).
  pose proof (Z.mod_pos_bound (Zpos m * 2 ^ (e - Z.min e (-54))) _ Hpos) as Hr.
  destruct (_ mod _) as [|r|r]; [done| |lia].
  rewrite feq_float_of_exact. split; [done|lia].
Qed.

Lemma quarter_divides m e :
  (Zpos m * 2 ^ (e - Z.min e (-54))) mod (2 ^ 52 * 2 ^ (-54 - Z.min e (-54))) = 0
  <-> 0 <= e \/ exists k, 4 * Zpos m = k * 2 ^ (- e).
Proof.
  assert (forall x, 0 <= x -> 0 < 2 ^ x) as Hpow
    by (intros; by apply Z.pow_pos_nonneg).
  rewrite Z.mod_divide by (pose proof (Hpow 52); pose proof (Hpow (-54 - Z.min e (-54))); lia).
  destruct (Z.le_gt_cases (-54) e) as [Hge|Hlt].
  - rewrite Z.min_r by lia.
    replace (-54 - -54) with 0 by lia. rewrite Z.pow_0_r, Z.mul_1_r.
    replace (e - -54) with (e + 54) by lia.
    destruct (Z.le_gt_cases (-2) e) as [Hbig|Hsmall].
    + (* every such float is a multiple of a quarter *)
      split.
      * intros _. destruct (Z.le_gt_cases 0 e); [by left|right].
        exists (Zpos m * 2 ^ (e + 2)). rewrite <-Z.mul_assoc, <-Z.pow_add_r by lia.
        replace (e + 2 + - e) with 2 by lia. lia.
      * intros _. exists (Zpos m * 2 ^ (e + 2)).
        rewrite <-Z.mul_assoc, <-Z.pow_add_r by lia. do 2 f_equal. lia.
    + replace (2 ^ 52) with (2 ^ (-2 - e) * 2 ^ (e + 54))
        by (rewrite <-Z.pow_add_r by lia; f_equal; lia).
      rewrite Z.mul_divide_cancel_r by (pose proof (Hpow (e + 54)); lia).
      split.
      * intros [k Hk]. right. exists k. rewrite Hk.
        replace (- e) with (2 + (-2 - e)) by lia. rewrite Z.pow_add_r by lia. lia.
      * intros [?|[k Hk]]; [lia|]. exists k.
        replace (- e) with (2 + (-2 - e)) in Hk by lia.
        rewrite Z.pow_add_r in Hk by lia. lia.
  - rewrite Z.min_l by lia. rewrite Z.sub_diag, Z.pow_0_r, Z.mul_1_r.
    replace (2 ^ 52 * 2 ^ (-54 - e)) with (2 ^ (-2 - e))
      by (rewrite <-Z.pow_add_r by lia; f_equal; lia).
    split.
    + intros [k Hk]. right. exists k. rewrite Hk.
      replace (- e) with (2 + (-2 - e)) by lia. rewrite Z.pow_add_r by lia. lia.
    + intros [?|[k Hk]]; [lia|]. exists k.
      replace (- e) with (2 + (-2 - e)) in Hk by lia.
      rewrite Z.pow_add_r in Hk by lia. lia.
Qed.

Lemma Mod_quarter_zero v :
  feq (math.Mod v quarter) pos_zero = true <-> multiple_of_quarter v.
Proof.
  destruct v as [s|s| |s m e].
  - split; [|done]. intros _. exists (inject_Z 0), 0. by split.
  - split; [done|]. by intros (q & k & ? & _).
  - split; [done|]. by intros (q & k & ? & _).
  - rewrite Mod_quarter_finite, quarter_divides.
    unfold multiple_of_quarter, float_value.
    assert (0 < 2 ^ (- e) \/ 0 <= e) as Hpow
      by (destruct (Z.le_gt_cases 0 e); [by right|left; apply Z.pow_pos_nonneg; lia]).
    split.
    + intros [He|[k Hk]].
      * eexists _, ((if s then Zneg m else Zpos m) * 2 ^ e * 4). split; [done|].
        apply Z.leb_le in He. rewrite He. unfold Qeq, inject_Z; simpl. lia.
      * destruct (0 <=? e) eqn:He.
        { eexists _, ((if s then Zneg m else Zpos m) * 2 ^ e * 4). split; [done|].
          unfold Qeq, inject_Z; simpl. lia. }
        apply Z.leb_gt in He.
        eexists _, (if s then - k else k). split; [done|].
        unfold Qeq; simpl. rewrite Z2Pos.id by lia. destruct s; lia.
    + intros (q & k & Hq & Hk). simplify_eq.
      destruct (0 <=? e) eqn:He; [left; by apply Z.leb_le|right].
      apply Z.leb_gt in He. unfold Qeq in Hk; simpl in Hk.
      rewrite Z2Pos.id in Hk by lia.
      exists (if s then - k else k). destruct s; lia.
Qed.

(** ** The rules of [CalculatePoints] *)

Lemma bonusesOf_Some u receipt b :
  bonusesOf u receipt = Some b <->
  exists cs d t,
    Forall2 (fun item c => itemBonus u item = Some c) (Items receipt) cs
    /\ time.ParseDate (PurchaseDate receipt) = (d, None)
    /\ time.ParseClock (PurchaseTime receipt) = (t, None)
    /\ b = mkBonuses
             (len (strings.ReplaceAll (Retailer receipt) " " ""))
             (if isRoundDollarAmount (Total receipt) then 50 else 0)
             (if isMultipleOfQuarter (Total receipt) then 25 else 0)
             (Z.of_nat (length (Items receipt)) / 2 * 5)
             cs
             (if Z.rem (time.Day d) 2 =? 1 then 6 else 0)
             (if afternoon t then 10 else 0).
Proof.
  unfold bonusesOf. split.
  - destruct (mapM _ _) as [cs|] eqn:Hcs; [|done].
    destruct (parsed (time.ParseDate _)) as [d|] eqn:Hd; [|done].
    destruct (parsed (time.ParseClock _)) as [t|] eqn:Ht; [|done].
    intros; simplify_eq. exists cs, d, t.
    by rewrite <-mapM_Some, <-!parsed_Some.
  - intros (cs & d & t & Hcs & Hd & Ht & ->).
    apply mapM_Some in Hcs. by rewrite Hcs, Hd, Ht.
Qed.

Lemma bonusesOf_None u receipt :
  bonusesOf u receipt = None <->
  Exists (fun item => itemBonus u item = None) (Items receipt)
  \/ is_Some (snd (time.ParseDate (PurchaseDate receipt)))
  \/ is_Some (snd (time.ParseClock (PurchaseTime receipt))).
Proof.
  unfold bonusesOf. rewrite <-mapM_None, <-!parsed_None.
  destruct (mapM _ _), (parsed (time.ParseDate _)), (parsed (time.ParseClock _));
    intuition congruence.
Qed.

Lemma rem3_multiple n : (Z.rem n 3 =? 0) = true <-> exists k, n = 3 * k.
Proof.
  rewrite Z.eqb_eq, Z.rem_divide by done. unfold Z.divide.
  split; intros [k ->]; exists k; lia.
Qed.

Lemma itemBonus_None u item :
  itemBonus u item = None <->
  (exists k, len (strings.TrimSpace (ShortDescription item)) = 3 * k)
  /\ is_Some (snd (strconv.ParseFloat (Price item))).
Proof.
  unfold itemBonus. rewrite <-rem3_multiple, <-parsed_None.
  destruct (Z.rem _ 3 =? 0), (parsed _); intuition congruence.
Qed.

(** C1. When the total parses to the float [v], the quarter bonus is 25
    exactly when [math.Mod(v, 0.25) == 0], that is when [v] is an integer
    number of quarters, and 0 otherwise; the points returned are the sum of
    the bonuses. *)
Theorem C1_quarter_bonus u receipt v :
  strconv.ParseFloat (Total receipt) = (v, None) ->
  isMultipleOfQuarter (Total receipt) = feq (math.Mod v quarter) pos_zero
  /\ (isMultipleOfQuarter (Total receipt) = true <-> multiple_of_quarter v)
  /\ forall b, bonusesOf u receipt = Some b ->
       CalculatePoints u receipt = (wrap64 (sumBonuses b), None)
       /\ (quarterBonus b = 25 <-> multiple_of_quarter v)
       /\ (quarterBonus b = 0 <-> ~ multiple_of_quarter v).
Proof.
  intros Hv.
  assert (isMultipleOfQuarter (Total receipt) = feq (math.Mod v quarter) pos_zero) as Heq
    by (unfold isMultipleOfQuarter, parseTotal; by rewrite Hv).
  assert (isMultipleOfQuarter (Total receipt) = true <-> multiple_of_quarter v) as Hiff
    by (by rewrite Heq, Mod_quarter_zero).
  split; [done|]. split; [done|].
  intros b Hb. split; [by apply CalculatePoints_bonuses|].
  apply bonusesOf_Some in Hb as (cs & d & t & _ & _ & _ & ->); simpl.
  rewrite <-Hiff. destruct (isMultipleOfQuarter _); split; split; done.
Qed.

(** C5. When the purchase time parses, the time bonus is 10 exactly when the
    time is strictly after 14:00 and strictly before 16:00, and 0 otherwise:
    none at 14:00 and at 16:00, 10 at 14:01 and at 15:59. *)
Theorem C5_afternoon_bonus u receipt b :
  bonusesOf u receipt = Some b ->
  CalculatePoints u receipt = (wrap64 (sumBonuses b), None)
  /\ (exists hour min,
        time.ParseClock (PurchaseTime receipt) = (time.Date 0 1 1 hour min, None)
        /\ 0 <= hour < 24 /\ 0 <= min < 60
        /\ (afternoonBonus b = 10 <-> 14 * 60 < 60 * hour + min < 16 * 60)
        /\ (afternoonBonus b = 0 <-> ~ 14 * 60 < 60 * hour + min < 16 * 60))
  /\ (PurchaseTime receipt = "14:00" -> afternoonBonus b = 0)
  /\ (PurchaseTime receipt = "14:01" -> afternoonBonus b = 10)
  /\ (PurchaseTime receipt = "15:59" -> afternoonBonus b = 10)
  /\ (PurchaseTime receipt = "16:00" -> afternoonBonus b = 0).
Proof.
  intros Hb. split; [by apply CalculatePoints_bonuses|].
  apply bonusesOf_Some in Hb as (cs & d & t & _ & _ & Ht & ->); simpl.
  split.
  - destruct (ParseClock_ok _ _ Ht) as (hour & min & -> & Hh & Hm).
    exists hour, min. do 3 (split; [done|]).
    rewrite <-(afternoon_iff hour min Hm).
    destruct (afternoon _); split; split; done.
  - repeat split; intros Heq; rewrite Heq in Ht; vm_compute in Ht; by simplify_eq.
Qed.

(** C8. The round-dollar bonus is 50 exactly when the total ends in [.00],
    and 0 otherwise; it is a summand of its own next to the quarter bonus, and
    a total of [100.00] receives both, 75 together. *)
Theorem C8_round_dollar_bonus u receipt b :
  bonusesOf u receipt = Some b ->
  CalculatePoints u receipt = (wrap64 (sumBonuses b), None)
  /\ (roundDollarBonus b = 50 <-> exists whole, Total receipt = whole +:+ ".00")
  /\ (roundDollarBonus b = 0 <-> ~ exists whole, Total receipt = whole +:+ ".00")
  /\ quarterBonus b = (if isMultipleOfQuarter (Total receipt) then 25 else 0)
  /\ (Total receipt = "100.00" ->
      roundDollarBonus b = 50 /\ quarterBonus b = 25
      /\ roundDollarBonus b + quarterBonus b = 75).
Proof.
  intros Hb. split; [by apply CalculatePoints_bonuses|].
  apply bonusesOf_Some in Hb as (cs & d & t & _ & _ & _ & ->); simpl.
  rewrite <-HasSuffix_spec. fold (isRoundDollarAmount (Total receipt)).
  split; [destruct (isRoundDollarAmount _); split; done|].
  split; [destruct (isRoundDollarAmount _); split; done|].
  split; [done|]. intros ->. by vm_compute.
Qed.

(** C7. A price that does not parse on an item whose trimmed description
    length is a multiple of 3, a purchase date that does not parse, or a
    purchase time that does not parse: each makes [CalculatePoints] return
    an error that wraps the parse error, with 0 for the points. *)
Theorem C7_parse_failure_aborts u receipt :
  (exists item,
      item ∈ Items receipt
      /\ (exists k, len (strings.TrimSpace (ShortDescription item)) = 3 * k)
      /\ is_Some (snd (strconv.ParseFloat (Price item))))
  \/ is_Some (snd (time.ParseDate (PurchaseDate receipt)))
  \/ is_Some (snd (time.ParseClock (PurchaseTime receipt))) ->
  exists msg cause,
    CalculatePoints u receipt = (0, Some (wrapError msg cause))
    /\ msg ∈ ["failed to parse price"; "failed to parse purchase date";
              "failed to parse purchase time"]%string.
Proof.
  intros H. apply CalculatePoints_abort, bonusesOf_None.
  destruct H as [(item & Hin & Hlen & Hprice)|H]; [left|by right].
  apply Exists_exists. exists item. split; [done|]. by apply itemBonus_None.
Qed.


(** ** [ValidateReceipt] *)

Lemma validateItems_firstFailure items :
  validateItems items = firstFailure (flat_map itemChecks items).
Proof.
  induction items as [|item items IH]; simpl; [done|].
  repeat case_bool_decide; simpl; try done.
  destruct (regexp.MatchString regexp.namePattern _); simpl; [|done].
  by destruct (regexp.MatchString regexp.moneyPattern _); simpl.
Qed.

(** C9. [ValidateReceipt] returns the reason of the first check that fails,
    in the order of the checks; the reasons of the checks are pairwise
    different. An empty retailer, no items, and the total [10.5] are rejected
    with three different reasons, each naming its field. The function is a
    pure function of the receipt. *)
Theorem C9_validate_first_failure (receipt : Receipt) :
  ValidateReceipt receipt = firstFailure (receiptChecks receipt)
  /\ Forall (fun c => snd c ∈ validationReasons) (receiptChecks receipt)
  /\ NoDup validationReasons
  /\ (Retailer receipt = "" ->
      ValidateReceipt receipt = Some (errorString "Retailer is required"))
  /\ (Retailer receipt <> "" -> PurchaseDate receipt <> "" ->
      PurchaseTime receipt <> "" -> Total receipt <> "" -> Items receipt = [] ->
      ValidateReceipt receipt = Some (errorString "At least one item is required"))
  /\ (Retailer receipt <> "" -> PurchaseDate receipt <> "" ->
      PurchaseTime receipt <> "" -> Items receipt <> [] ->
      regexp.MatchString regexp.namePattern (Retailer receipt) = true ->
      snd (time.ParseDate (PurchaseDate receipt)) = None ->
      snd (time.ParseClock (PurchaseTime receipt)) = None ->
      Total receipt = "10.5" ->
      ValidateReceipt receipt = Some (errorString "Invalid Total format")).
Proof.
  split; [|split; [|split; [|split; [|split]]]].
  - unfold ValidateReceipt, receiptChecks; simpl.
    repeat case_bool_decide; simpl; try done;
      destruct (_ =? _)%nat; simpl; try done;
      destruct (regexp.MatchString regexp.namePattern _); simpl; try done;
      destruct (regexp.MatchString regexp.moneyPattern _); simpl; try done;
      apply validateItems_firstFailure.
  - unfold receiptChecks. apply Forall_app. split.
    + repeat constructor; simpl; unfold validationReasons; set_solver.
    + apply Forall_flat_map, Forall_true. intros item.
      repeat constructor; simpl; unfold validationReasons; set_solver.
  - apply (bool_decide_unpack _). by vm_compute.
  - intros H. unfold ValidateReceipt. by rewrite bool_decide_eq_true_2.
  - intros H1 H2 H3 H4 H5. unfold ValidateReceipt.
    rewrite !bool_decide_eq_false_2 by done. by rewrite H5.
  - intros H1 H2 H3 H4 H5 H6 H7 H8. unfold ValidateReceipt.
    rewrite H5, H6, H7, H8. rewrite !bool_decide_eq_false_2; try done.
    destruct (Items receipt); [done|]. by vm_compute.
Qed.

(** ** The order of strings *)

Lemma ascii_compare_trans_lt a b c :
  Ascii.compare a b = Lt -> Ascii.compare b c = Lt -> Ascii.compare a c = Lt.
Proof. unfold Ascii.compare. rewrite !N.compare_lt_iff. lia. Qed.

Lemma string_compare_le_trans s1 : forall s2 s3,
  String.compare s1 s2 <> Gt -> String.compare s2 s3 <> Gt -> String.compare s1 s3 <> Gt.
Proof.
  induction s1 as [|a s1 IH]; intros [|b s2] [|c s3]; simpl; try done.
  destruct (Ascii.compare a b) eqn:Hab; [|clear IH|done].
  - apply Ascii.compare_eq_iff in Hab as ->.
    destruct (Ascii.compare b c); [apply IH|done..].
  - intros _. destruct (Ascii.compare b c) eqn:Hbc; [| |done].
    + apply Ascii.compare_eq_iff in Hbc as ->. by rewrite Hab.
    + intros _. by rewrite (ascii_compare_trans_lt a b c).
Qed.

Lemma ltb_false_iff s1 s2 : String.ltb s1 s2 = false <-> String.compare s2 s1 <> Gt.
Proof.
  unfold String.ltb. rewrite (String.compare_antisym s2 s1).
  destruct (String.compare s1 s2); simpl; split; done.
Qed.

Lemma notAfter_trans a b c : notAfter a b -> notAfter b c -> notAfter a c.
Proof.
  unfold notAfter, lessShortDescription. rewrite !ltb_false_iff.
  apply string_compare_le_trans.
Qed.

Lemma less_notAfter a b : lessShortDescription a b = true -> notAfter a b.
Proof.
  unfold notAfter, lessShortDescription, String.ltb.
  rewrite (String.compare_antisym (ShortDescription a)).
  by destruct (String.compare (ShortDescription b) (ShortDescription a)).
Qed.

Lemma notAfter_antisym a b :
  notAfter a b -> notAfter b a -> ShortDescription a = ShortDescription b.
Proof.
  unfold notAfter, lessShortDescription, String.ltb.
  rewrite (String.compare_antisym (ShortDescription a)).
  destruct (String.compare (ShortDescription b) (ShortDescription a)) eqn:H; try done.
  intros _ _. symmetry. by apply String.compare_eq_iff.
Qed.

(** ** Insertion sort meets the contract of [sort.Slice] *)

Lemma insertBack_perm less x rprefix : insertBack less x rprefix ≡ₚ x :: rprefix.
Proof.
  induction rprefix as [|y rest IH]; simpl; [done|].
  destruct (less x y); [|done]. rewrite IH. apply perm_swap.
Qed.

Lemma insertBack_sorted x rprefix :
  StronglySorted (flip notAfter) rprefix ->
  StronglySorted (flip notAfter) (insertBack lessShortDescription x rprefix).
Proof.
  induction 1 as [|y rest Hrest IH Hy]; simpl; [repeat constructor|].
  destruct (lessShortDescription x y) eqn:Hxy.
  - constructor; [done|]. rewrite insertBack_perm. constructor; [|done].
    by apply less_notAfter.
  - constructor; [by constructor|]. constructor; [done|].
    eapply Forall_impl; [exact Hy|]. intros z Hz. unfold flip in *.
    by eapply notAfter_trans.
Qed.

Lemma StronglySorted_rev {A} (R : relation A) l :
  StronglySorted (flip R) l -> StronglySorted R (rev l).
Proof.
  induction 1 as [|x l Hl IH Hx]; simpl; [constructor|].
  apply StronglySorted_app. split; [|split; [done|repeat constructor]].
  intros y z Hy ->%list_elem_of_singleton.
  rewrite Forall_forall in Hx. apply Hx.
  by apply list_elem_of_In, in_rev, list_elem_of_In.
Qed.

Lemma insertionSort_perm less l : insertionSort less l ≡ₚ l.
Proof.
  unfold insertionSort. rewrite <-Permutation_rev.
  assert (forall acc, fold_left (fun rprefix x => insertBack less x rprefix) l acc ≡ₚ l ++ acc)
    as H; [|by rewrite H, app_nil_r].
  induction l as [|x l IH]; intros acc; simpl; [done|].
  by rewrite IH, insertBack_perm, Permutation_middle.
Qed.

Lemma insertionSort_sorted l :
  StronglySorted notAfter (insertionSort lessShortDescription l).
Proof.
  unfold insertionSort. apply StronglySorted_rev.
  assert (forall acc, StronglySorted (flip notAfter) acc ->
            StronglySorted (flip notAfter)
              (fold_left (fun rprefix x => insertBack lessShortDescription x rprefix) l acc))
    as H; [|apply H; constructor].
  induction l as [|x l IH]; intros acc Hacc; simpl; [done|].
  by apply IH, insertBack_sorted.
Qed.

(** ** The digest and its encoding *)

Lemma be_length n z : length (sha256.be n z) = n.
Proof. unfold sha256.be. by rewrite length_map, length_rev, length_seq. Qed.

Lemma be_bytes n z : Forall (fun b => 0 <= b < 256) (sha256.be n z).
Proof.
  unfold sha256.be. apply Forall_map, Forall_true. intros i; simpl.
  by apply Z.mod_pos_bound.
Qed.

Lemma Sum256_length msg : length (sha256.Sum256 msg) = 32%nat.
Proof.
  unfold sha256.Sum256, sha256.digest.
  destruct (sha256.blocks _ _ _) as [[[[[[[a b] c] d] e] f] g] h].
  cbn [flat_map]. by rewrite !length_app, !be_length.
Qed.

Lemma Sum256_bytes msg : Forall (fun b => 0 <= b < 256) (sha256.Sum256 msg).
Proof.
  unfold sha256.Sum256, sha256.digest.
  destruct (sha256.blocks _ _ _) as [[[[[[[a b] c] d] e] f] g] h].
  cbn [flat_map]. rewrite !Forall_app. repeat split; try apply be_bytes. constructor.
Qed.

Lemma hex_digit_lower n : 0 <= n < 16 -> isLowerHex (hex.digit n) = true.
Proof.
  intros Hn. unfold hex.digit.
  assert (Z.to_nat n < 16)%nat as Hlt by lia.
  revert Hlt. generalize (Z.to_nat n). intros k Hk.
  do 16 (destruct k as [|k]; [reflexivity|]). lia.
Qed.

Lemma length_string_of_list_ascii l : String.length (string_of_list_ascii l) = length l.
Proof. induction l as [|c l IH]; simpl; [done|by rewrite IH]. Qed.

Lemma EncodeToString_length src :
  String.length (hex.EncodeToString src) = (2 * length src)%nat.
Proof.
  unfold hex.EncodeToString. rewrite length_string_of_list_ascii.
  induction src as [|b src IH]; simpl; [done|]. rewrite IH. lia.
Qed.

Lemma EncodeToString_lower src :
  Forall (fun b => 0 <= b < 256) src ->
  Forall (fun ch => isLowerHex ch = true) (bytes (hex.EncodeToString src)).
Proof.
  unfold hex.EncodeToString, bytes. rewrite list_ascii_of_string_of_list_ascii.
  induction 1 as [|b src Hb _ IH]; simpl; [constructor|].
  repeat constructor; try done.
  - apply hex_digit_lower.
    split; [apply Z.div_pos; lia|apply Z.div_lt_upper_bound; lia].
  - apply hex_digit_lower. by apply Z.mod_pos_bound.
Qed.

Lemma receiptIDOf_hex {S} (receipt : ReceiptOf S) items :
  String.length (receiptIDOf receipt items) = 64%nat
  /\ Forall (fun ch => isLowerHex ch = true) (bytes (receiptIDOf receipt items)).
Proof.
  unfold receiptIDOf. split.
  - by rewrite EncodeToString_length, Sum256_length.
  - apply EncodeToString_lower, Sum256_bytes.
Qed.

Lemma receiptIDOf_fields {S T} (r1 : ReceiptOf S) (r2 : ReceiptOf T) items :
  Retailer r1 = Retailer r2 -> PurchaseDate r1 = PurchaseDate r2 ->
  PurchaseTime r1 = PurchaseTime r2 -> Total r1 = Total r2 ->
  receiptIDOf r1 items = receiptIDOf r2 items.
Proof. unfold receiptIDOf, hashInput. by intros -> -> -> ->. Qed.

(** ** The cache *)

Lemma Get_empty {V} (c : cache.Cache V) k now :
  cache.items c = ∅ -> cache.Get c k now = None.
Proof. intros H. unfold cache.Get. by rewrite H, lookup_empty. Qed.

Lemma Get_Set_live {V} (c : cache.Cache V) k (x : V) now now' :
  (0 < cache.defaultExpiration c -> now' <= now + cache.defaultExpiration c) ->
  cache.Get (cache.Set_ c k x cache.DefaultExpiration now) k now' = Some x.
Proof.
  intros Hlive. unfold cache.Get, cache.Set_; simpl. rewrite lookup_insert_eq; simpl.
  destruct (0 <? cache.defaultExpiration c) eqn:Hde; simpl; [|done].
  apply Z.ltb_lt in Hde. specialize (Hlive Hde).
  destruct (0 <? _); simpl; [|done].
  by rewrite (proj2 (Z.ltb_ge _ _)).
Qed.

(** ** [GenerateReceiptID] and the store *)

Section IdentifierProps.

Variable sort_Slice : (Item -> Item -> bool) -> list Item -> list Item.

(** The contract of [sort.Slice]. *)
Hypothesis sort_Slice_perm : forall l, sort_Slice lessShortDescription l ≡ₚ l.

Lemma elems_sorted (m : store) s :
  elems (alter (sort_Slice lessShortDescription) s m) s
  = sort_Slice lessShortDescription (elems m s).
Proof.
  unfold elems. rewrite lookup_alter_eq.
  destruct (m !! s) as [l|]; simpl; [done|].
  symmetry. apply Permutation_nil_r. by rewrite sort_Slice_perm.
Qed.

Lemma GenerateReceiptID_store receipt c now (m : store) :
  storeOf (GenerateReceiptID sort_Slice receipt c now m)
  = alter (sort_Slice lessShortDescription) (Items receipt) m.
Proof. unfold GenerateReceiptID, storeOf. by destruct (cache.Get _ _ _). Qed.

Lemma GenerateReceiptID_id receipt c now (m : store) :
  idOf (GenerateReceiptID sort_Slice receipt c now m)
  = receiptIDOf receipt (sort_Slice lessShortDescription (elems m (Items receipt))).
Proof.
  unfold GenerateReceiptID, idOf. rewrite elems_sorted.
  by destruct (cache.Get _ _ _).
Qed.

End IdentifierProps.

(** ** The identifier of a receipt *)

(** C2, as the code has it. Two receipts with the same retailer, date, time
    and total, whose items are the same up to their order, get the same
    identifier when items that share a description also share their price
    (so, in particular, when the descriptions are pairwise different): this
    holds for every sort that meets the contract of [sort.Slice]. *)
Theorem C2_reordered_items_same_id
    (sort_Slice : (Item -> Item -> bool) -> list Item -> list Item)
    (r1 r2 : ReceiptRef) (c1 c2 : cache.Cache ReceiptRef) (now1 now2 : Z)
    (m1 m2 : store) :
  (forall l, sort_Slice lessShortDescription l ≡ₚ l) ->
  (forall l, StronglySorted notAfter (sort_Slice lessShortDescription l)) ->
  Retailer r1 = Retailer r2 -> PurchaseDate r1 = PurchaseDate r2 ->
  PurchaseTime r1 = PurchaseTime r2 -> Total r1 = Total r2 ->
  elems m1 (Items r1) ≡ₚ elems m2 (Items r2) ->
  (forall a b, a ∈ elems m1 (Items r1) -> b ∈ elems m1 (Items r1) ->
               ShortDescription a = ShortDescription b -> Price a = Price b) ->
  idOf (GenerateReceiptID sort_Slice r1 c1 now1 m1)
  = idOf (GenerateReceiptID sort_Slice r2 c2 now2 m2).
Proof.
  intros Hperm Hsorted Hr Hd Ht Htot Hitems Hprice.
  rewrite !GenerateReceiptID_id by done.
  rewrite (receiptIDOf_fields r1 r2) by done. f_equal.
  apply (StronglySorted_unique_strong notAfter); [|done..|].
  - intros a b Ha Hb Hab Hba.
    rewrite Hperm in Ha. rewrite Hperm, <-Hitems in Hb.
    pose proof (notAfter_antisym a b Hab Hba) as Hdesc.
    pose proof (Hprice a b Ha Hb Hdesc) as Hp.
    destruct a, b; simpl in *. by subst.
  - by rewrite !Hperm.
Qed.

(** C3, as the code has it. [GenerateReceiptID] sorts the array behind the
    caller's slice: afterwards the caller's receipt has its four strings and
    the same items, in the order the sort left them, and no other array has
    changed. The caller's receipt is what it was exactly when the sort found
    nothing to move. *)
Theorem C3_items_sorted_in_place
    (sort_Slice : (Item -> Item -> bool) -> list Item -> list Item)
    (receipt : ReceiptRef) (c : cache.Cache ReceiptRef) (now : Z) (m : store) :
  (forall l, sort_Slice lessShortDescription l ≡ₚ l) ->
  let after := storeOf (GenerateReceiptID sort_Slice receipt c now m) in
  load after receipt
  = mkReceipt (Retailer receipt) (PurchaseDate receipt) (PurchaseTime receipt)
      (Total receipt) (sort_Slice lessShortDescription (elems m (Items receipt)))
  /\ Items (load after receipt) ≡ₚ Items (load m receipt)
  /\ (forall s, s <> Items receipt -> after !! s = m !! s)
  /\ (load after receipt = load m receipt <->
      sort_Slice lessShortDescription (elems m (Items receipt)) = elems m (Items receipt)).
Proof.
  intros Hperm after. unfold after, load.
  rewrite GenerateReceiptID_store, elems_sorted by done. simpl.
  split; [done|]. split; [by rewrite Hperm|]. split.
  - intros s Hs. by rewrite lookup_alter_ne.
  - split; [by intros [=]|by intros ->].
Qed.

(** C4. On an empty cache the first call succeeds with an identifier of 64
    lower-case hexadecimal digits. A second call with a receipt that holds
    the same bytes, made while the entry is in the cache (before its
    expiration, if the cache sets one), returns the error and the same
    identifier, and leaves the cache as it was. *)
Theorem C4_second_call_is_duplicate
    (sort_Slice : (Item -> Item -> bool) -> list Item -> list Item)
    (receipt receipt2 : ReceiptRef) (c : cache.Cache ReceiptRef) (now1 now2 : Z)
    (m : store) :
  (forall l, sort_Slice lessShortDescription l ≡ₚ l) ->
  cache.items c = ∅ ->
  let first := GenerateReceiptID sort_Slice receipt c now1 m in
  load (storeOf first) receipt2 = load m receipt ->
  (0 < cache.defaultExpiration c -> now2 <= now1 + cache.defaultExpiration c) ->
  let second :=
    GenerateReceiptID sort_Slice receipt2 (cacheOf first) now2 (storeOf first) in
  errOf first = None
  /\ String.length (idOf first) = 64%nat
  /\ Forall (fun ch => isLowerHex ch = true) (bytes (idOf first))
  /\ errOf second = Some (errorString "The same receipt is passed")
  /\ idOf second = idOf first
  /\ cacheOf second = cacheOf first.
Proof.
  intros Hperm Hempty first Hsame Hlive second.
  pose proof (GenerateReceiptID_id sort_Slice Hperm receipt c now1 m) as Hfirst.
  fold first in Hfirst.
  assert (idOf second = idOf first) as Hid.
  { unfold second. rewrite GenerateReceiptID_id, Hfirst by done.
    unfold load in Hsame. injection Hsame as Hr Hd Ht Htot Hitems.
    rewrite Hitems. by apply receiptIDOf_fields. }
  assert (first = (idOf first, None,
                   cache.Set_ c (idOf first) receipt cache.DefaultExpiration now1,
                   storeOf first)) as Hshape.
  { unfold first, GenerateReceiptID, idOf, storeOf.
    by rewrite (Get_empty c _ now1 Hempty). }
  assert (errOf first = None) as Herr by (by rewrite Hshape).
  assert (cache.Get (cacheOf first) (idOf first) now2 = Some receipt) as Hget.
  { rewrite Hshape at 1. by apply Get_Set_live. }
  split; [done|]. rewrite Hid, Hfirst.
  destruct (receiptIDOf_hex receipt
    (sort_Slice lessShortDescription (elems m (Items receipt)))) as [Hlen Hhex].
  do 2 (split; [done|]). rewrite <-Hfirst, <-Hid.
  unfold second, GenerateReceiptID, errOf, cacheOf, idOf in *.
  destruct (cache.Get (snd (fst first)) _ now2) eqn:Hget2; simpl in *; [done|].
  rewrite Hid in Hget2. by rewrite Hget in Hget2.
Qed.

(** ** The theorems at the example receipts *)

Lemma distinct_descriptions (l : list Item) :
  NoDup (ShortDescription <$> l) ->
  forall a b, a ∈ l -> b ∈ l ->
              ShortDescription a = ShortDescription b -> Price a = Price b.
Proof.
  induction l as [|x l IH]; intros Hnd a b Ha Hb Hd; [by inversion Ha|].
  rewrite fmap_cons in Hnd. apply NoDup_cons in Hnd as [Hx Hnd].
  inversion Ha as [|? ? ? Ha']; inversion Hb as [|? ? ? Hb']; subst; try done.
  - exfalso. apply Hx. rewrite Hd. by apply list_elem_of_fmap_2.
  - exfalso. apply Hx. rewrite <-Hd. by apply list_elem_of_fmap_2.
  - by apply IH.
Qed.

(** The total [9.00] is a multiple of a quarter: 36 quarters. *)
Lemma C1_quarter_bonus_witness :
  isMultipleOfQuarter (Total receiptMarket) = true
  /\ multiple_of_quarter (fst (strconv.ParseFloat (Total receiptMarket)))
  /\ CalculatePoints amd64_unrepresentable receiptMarket = (110, None)
  /\ quarterBonus marketBonuses = 25.
Proof.
  assert (strconv.ParseFloat (Total receiptMarket)
          = (fst (strconv.ParseFloat (Total receiptMarket)), None)) as Hv
    by (vm_compute; reflexivity).
  assert (bonusesOf amd64_unrepresentable receiptMarket = Some marketBonuses) as Hb
    by (vm_compute; reflexivity).
  destruct (C1_quarter_bonus amd64_unrepresentable receiptMarket _ Hv)
    as (Heq & Hiff & Hpoints).
  destruct (Hpoints _ Hb) as (Hp & Hq & _).
  assert (isMultipleOfQuarter (Total receiptMarket) = true) as Hm
    by (vm_compute; reflexivity).
  split; [exact Hm|]. split; [exact (proj1 Hiff Hm)|].
  split; [exact Hp|]. exact (proj2 Hq (proj1 Hiff Hm)).
Defined.

Lemma C5_afternoon_bonus_witness :
  CalculatePoints amd64_unrepresentable receiptMarket = (110, None)
  /\ afternoonBonus marketBonuses = 10.
Proof.
  assert (bonusesOf amd64_unrepresentable receiptMarket = Some marketBonuses) as Hb
    by (vm_compute; reflexivity).
  destruct (C5_afternoon_bonus amd64_unrepresentable receiptMarket _ Hb)
    as (Hp & (hour & min & Hparse & _ & _ & Hiff & _) & _).
  split; [exact Hp|]. apply Hiff.
  vm_compute in Hparse. injection Hparse as <- <-. lia.
Defined.

Lemma C7_parse_failure_aborts_witness :
  exists msg cause,
    CalculatePoints amd64_unrepresentable receiptFreeGum = (0, Some (wrapError msg cause))
    /\ msg ∈ ["failed to parse price"; "failed to parse purchase date";
              "failed to parse purchase time"]%string.
Proof.
  apply (C7_parse_failure_aborts amd64_unrepresentable receiptFreeGum).
  left. exists (mkItem "Gum" "free"). split; [by left|].
  split; [by exists 1|]. vm_compute. by eexists.
Defined.

Lemma C8_round_dollar_bonus_witness :
  CalculatePoints amd64_unrepresentable receiptHundred = (101, None)
  /\ roundDollarBonus hundredBonuses = 50
  /\ quarterBonus hundredBonuses = 25
  /\ roundDollarBonus hundredBonuses + quarterBonus hundredBonuses = 75.
Proof.
  assert (bonusesOf amd64_unrepresentable receiptHundred = Some hundredBonuses) as Hb
    by (vm_compute; reflexivity).
  destruct (C8_round_dollar_bonus amd64_unrepresentable receiptHundred _ Hb)
    as (Hp & _ & _ & _ & Hboth).
  split; [exact Hp|]. exact (Hboth eq_refl).
Defined.


(** Two orders of milk and bread give one identifier. *)
Lemma C2_reordered_items_same_id_witness :
  idOf (GenerateReceiptID insertionSort (shop 1) (cache.New 0) 0 exampleStore)
  = idOf (GenerateReceiptID insertionSort (shop 2) (cache.New 0) 0 exampleStore).
Proof.
  apply (C2_reordered_items_same_id insertionSort);
    [apply insertionSort_perm|apply insertionSort_sorted|reflexivity..| |].
  - vm_compute. apply perm_swap.
  - apply distinct_descriptions. apply (bool_decide_unpack _). by vm_compute.
Defined.

(** C2 as stated fails: gum at 1.00 and gum at 2.00, in their two orders,
    give two identifiers. *)
Lemma C2_counterexample :
  Retailer (shop 3) = Retailer (shop 4)
  /\ PurchaseDate (shop 3) = PurchaseDate (shop 4)
  /\ PurchaseTime (shop 3) = PurchaseTime (shop 4)
  /\ Total (shop 3) = Total (shop 4)
  /\ elems exampleStore (Items (shop 3)) ≡ₚ elems exampleStore (Items (shop 4))
  /\ idOf (GenerateReceiptID insertionSort (shop 3) (cache.New 0) 0 exampleStore)
     <> idOf (GenerateReceiptID insertionSort (shop 4) (cache.New 0) 0 exampleStore).
Proof.
  do 4 (split; [reflexivity|]). split.
  - vm_compute. apply perm_swap.
  - apply (bool_decide_eq_false_1 _). by vm_compute.
Qed.

Lemma C3_items_sorted_in_place_witness :
  load (storeOf (GenerateReceiptID insertionSort (shop 1) (cache.New 0) 0 exampleStore))
       (shop 1)
  = mkReceipt "Corner Shop" "2022-03-20" "14:33" "5.99" [bread; milk].
Proof.
  destruct (C3_items_sorted_in_place insertionSort (shop 1) (cache.New 0) 0 exampleStore
              (insertionSort_perm _)) as (Hload & _).
  exact Hload.
Defined.

(** C3 as stated fails: the caller's milk and bread come back as bread and
    milk. *)
Lemma C3_counterexample :
  load (storeOf (GenerateReceiptID insertionSort (shop 1) (cache.New 0) 0 exampleStore))
       (shop 1)
  <> load exampleStore (shop 1).
Proof. intros H. apply (f_equal Items) in H. vm_compute in H. discriminate. Qed.

Lemma C4_second_call_is_duplicate_witness :
  let first := GenerateReceiptID insertionSort (shop 1) (cache.New 60) 0 exampleStore in
  let second :=
    GenerateReceiptID insertionSort (shop 5) (cacheOf first) 59 (storeOf first) in
  errOf first = None
  /\ idOf first = "a838379f0fae244860ce8e56c932a86d76392f39456eb9fece3136817754b77c"
  /\ errOf second = Some (errorString "The same receipt is passed")
  /\ idOf second = idOf first
  /\ cacheOf second = cacheOf first.
Proof.
  destruct (C4_second_call_is_duplicate insertionSort (shop 1) (shop 5) (cache.New 60)
              0 59 exampleStore (insertionSort_perm _)) as (H1 & _ & _ & H4 & H5 & H6).
  - reflexivity.
  - vm_compute. reflexivity.
  - intros _. vm_compute. discriminate.
  - split; [exact H1|]. split; [vm_compute; reflexivity|].
    split; [exact H4|]. split; [exact H5|exact H6].
Defined.

(** ** The float arithmetic on everyday amounts *)

Lemma stepCents_iter k :
  fst (Nat.iter k stepCents (0, true)) = Z.of_nat k
  /\ (snd (Nat.iter k stepCents (0, true)) = true ->
      forall cents, 0 <= cents < Z.of_nat k -> agreesWithCents cents = true).
Proof.
  induction k as [|k [IHfst IHsnd]]; [split; [done|intros; lia]|].
  rewrite Nat.iter_succ. unfold stepCents at 1 3; simpl fst; simpl snd.
  rewrite IHfst. split; [lia|].
  intros [Hall Hk]%andb_true_iff cents Hc.
  destruct (decide (cents = Z.of_nat k)) as [->|]; [done|].
  apply IHsnd; [done|lia].
Qed.

Lemma agreeBelow_spec n cents :
  agreeBelow n = true -> 0 <= cents < n -> agreesWithCents cents = true.
Proof.
  unfold agreeBelow. intros Hall Hc. rewrite iter_nat_of_Z in Hall by lia.
  apply (proj2 (stepCents_iter (Z.abs_nat n))); [done|lia].
Qed.

Lemma agreeBelow_100_dollars : agreeBelow 10000 = true.
Proof. by vm_compute. Qed.

(** For every amount below 100.00, written as the validator wants it, the
    quarter test of the source holds exactly when the cents are a multiple
    of 25, and the bonus [int(math.Ceil(price * 0.2))] is the exact
    [ceil(cents / 500)], on every platform. *)
Lemma amounts_below_100_dollars u cents :
  0 <= cents < 10000 ->
  let s := showAmount cents in
  regexp.MatchString regexp.moneyPattern s = true
  /\ snd (strconv.ParseFloat s) = None
  /\ isMultipleOfQuarter s = (cents mod 25 =? 0)
  /\ int_of_float64 u (math.Ceil (fmul (fst (strconv.ParseFloat s)) point_two))
     = (cents + 499) / 500.
Proof.
  intros Hc s.
  pose proof (agreeBelow_spec _ _ agreeBelow_100_dollars Hc) as Hok.
  unfold agreesWithCents in Hok. fold s in Hok.
  apply andb_true_iff in Hok as [Hok Hceil].
  apply andb_true_iff in Hok as [Hok Hquarter].
  apply andb_true_iff in Hok as [Hmatch Herr].
  apply bool_decide_eq_true in Hceil, Herr. apply eqb_prop in Hquarter.
  do 2 (split; [done|]). split.
  - unfold isMultipleOfQuarter, parseTotal.
    destruct (strconv.ParseFloat s) as [v e]; simpl in *. by subst.
  - unfold int_of_float64. by rewrite Hceil.
Qed.

(** ** The models at known values *)

(** The test vector of FIPS 180-4 for the message [abc]. *)
Example Sum256_abc :
  hex.EncodeToString (sha256.Sum256 (map code (bytes "abc")))
  = "ba7816bf8f01cfea414140de5dae2223b00361a396177a9cb410ff61f20015ad"%string.
Proof. by vm_compute. Qed.

Example ParseFloat_values :
  strconv.ParseFloat "0.1" = (S754_finite false 7205759403792794 (-56), None)
  /\ strconv.ParseFloat "35.35" = (S754_finite false 4975070213360845 (-47), None)
  /\ strconv.ParseFloat "0.2" = (point_two, None)
  /\ strconv.ParseFloat "0.25" = (quarter, None)
  /\ strconv.ParseFloat "1e23" = (S754_finite false 5960464477539062 24, None)
  /\ strconv.ParseFloat "4.9e-324" = (S754_finite false 1 (-1074), None)
  /\ strconv.ParseFloat "0x1.8p1" = (S754_finite false 6755399441055744 (-51), None)
  /\ strconv.ParseFloat "1_000.5" = (S754_finite false 8800491068719104 (-43), None)
  /\ strconv.ParseFloat "-Infinity" = (S754_infinity true, None)
  /\ strconv.ParseFloat "1e400"
     = (S754_infinity false, Some (NumError "ParseFloat" "1e400" ErrRange))
  /\ strconv.ParseFloat "1e-400" = (S754_zero false, None)
  /\ strconv.ParseFloat "12,50"
     = (S754_zero false, Some (NumError "ParseFloat" "12,50" ErrSyntax))
  /\ strconv.ParseFloat "" = (S754_zero false, Some (NumError "ParseFloat" "" ErrSyntax))
  /\ strconv.ParseFloat " 1.00"
     = (S754_zero false, Some (NumError "ParseFloat" " 1.00" ErrSyntax)).
Proof. by vm_compute. Qed.

Example Mod_values :
  math.Mod (fst (strconv.ParseFloat "35.35")) quarter
  = S754_finite false 7205759403792896 (-56)
  /\ math.Mod (fst (strconv.ParseFloat "35.75")) quarter = S754_zero false
  /\ math.Mod (S754_infinity false) quarter = S754_nan
  /\ math.Ceil (fmul (fst (strconv.ParseFloat "12.25")) point_two)
     = S754_finite false 6755399441055744 (-51).
Proof. by vm_compute. Qed.

Example TrimSpace_values :
  strings.TrimSpace "   Klarbrunn 12-PK 12 FL OZ  " = "Klarbrunn 12-PK 12 FL OZ"%string
  /\ strings.TrimSpace "   " = ""%string
  /\ strings.ReplaceAll "M&M Corner Market" " " "" = "M&MCornerMarket"%string.
Proof. by vm_compute. Qed.

Example Parse_values :
  time.ParseDate "2022-01-01" = (time.Date 2022 1 1 0 0, None)
  /\ time.ParseDate "2024-02-29" = (time.Date 2024 2 29 0 0, None)
  /\ is_Some (snd (time.ParseDate "2023-02-29"))
  /\ is_Some (snd (time.ParseDate "2022-1-01"))
  /\ time.ParseClock "13:01" = (time.Date 0 1 1 13 1, None)
  /\ time.ParseClock "9:05" = (time.Date 0 1 1 9 5, None)
  /\ is_Some (snd (time.ParseClock "24:00"))
  /\ is_Some (snd (time.ParseClock "14:5")).
Proof. vm_compute. repeat split; by eexists. Qed.

(** The two receipts of the examples: 28 and 110 points. The second one
    does not pass the validator, which admits no [&] in a retailer. *)
Example CalculatePoints_values :
  CalculatePoints amd64_unrepresentable receiptTarget = (28, None)
  /\ bonusesOf amd64_unrepresentable receiptTarget = Some targetBonuses
  /\ CalculatePoints amd64_unrepresentable receiptMarket = (110, None)
  /\ bonusesOf amd64_unrepresentable receiptMarket = Some marketBonuses
  /\ ValidateReceipt receiptTarget = None
  /\ ValidateReceipt receiptMarket
     = Some (errorString "Retailer name has invalid characters").
Proof. by vm_compute. Qed.

Example ValidateID_values :
  ValidateID "abc123" = None
  /\ ValidateID "abc 123" = Some (errorString "Invalid ID format")
  /\ ValidateID "" = Some (errorString "Invalid ID format").
Proof. by vm_compute. Qed.

(** Beyond [2^50] every float is a multiple of a quarter: a total of that
    size passes the quarter test whatever its cents. *)
Example isMultipleOfQuarter_large :
  regexp.MatchString regexp.moneyPattern "1125899906842624.10" = true
  /\ isMultipleOfQuarter "1125899906842624.10" = true.
Proof. by vm_compute. Qed.

(** * Further properties *)

(** ** Matching by derivatives *)

Lemma MatchString_accepts r s : regexp.MatchString r s = accepts r (bytes s).
Proof. done. Qed.

Lemma accepts_cons r c s : accepts r (c :: s) = accepts (regexp.deriv (code c) r) s.
Proof. done. Qed.

Lemma accepts_Fail s : accepts regexp.Fail s = false.
Proof. induction s as [|c s IH]; [done|]. by rewrite accepts_cons. Qed.

Lemma accepts_Eps s : accepts regexp.Eps s = true <-> s = [].
Proof.
  destruct s as [|c s]; [done|]. rewrite accepts_cons; simpl.
  by rewrite accepts_Fail.
Qed.

Lemma accepts_Class p s :
  accepts (regexp.Class p) s = true <-> exists c, s = [c] /\ p (code c) = true.
Proof.
  destruct s as [|c s].
  - split; [done|]. by intros (c & ? & _).
  - rewrite accepts_cons; simpl. destruct (p (code c)) eqn:Hp.
    + rewrite accepts_Eps. split; [intros ->; by exists c|]. by intros (c' & [= _ ->] & _).
    + rewrite accepts_Fail. split; [done|]. intros (c' & [= <- ->] & Hc). congruence.
Qed.

Lemma accepts_Alt r1 r2 s :
  accepts (regexp.Alt r1 r2) s = accepts r1 s || accepts r2 s.
Proof.
  revert r1 r2. induction s as [|c s IH]; intros r1 r2; [done|].
  rewrite !accepts_cons; simpl. apply IH.
Qed.

Lemma accepts_Seq r1 r2 s :
  accepts (regexp.Seq r1 r2) s = true
  <-> exists s1 s2, s = s1 ++ s2 /\ accepts r1 s1 = true /\ accepts r2 s2 = true.
Proof.
  revert r1 r2. induction s as [|c s IH]; intros r1 r2.
  - unfold accepts at 1; simpl. rewrite andb_true_iff. split.
    + intros [H1 H2]. by exists [], [].
    + intros (s1 & s2 & Hs & H1 & H2). symmetry in Hs.
      apply app_eq_nil in Hs as [-> ->]. done.
  - rewrite accepts_cons; simpl.
    assert (accepts (regexp.Seq (regexp.deriv (code c) r1) r2) s = true
            <-> exists s1 s2, c :: s = (c :: s1) ++ s2
                  /\ accepts r1 (c :: s1) = true /\ accepts r2 s2 = true) as Hfirst.
    { rewrite IH. split; intros (s1 & s2 & Hs & H1 & H2); exists s1, s2.
      - by rewrite Hs.
      - by simplify_eq/=. }
    destruct (regexp.nullable r1) eqn:Hnull.
    + rewrite accepts_Alt, orb_true_iff, Hfirst. split.
      * intros [(s1 & s2 & Hs & H1 & H2)|H]; [by exists (c :: s1), s2|].
        by exists [], (c :: s).
      * intros (s1 & s2 & Hs & H1 & H2). destruct s1 as [|c' s1].
        -- right. simpl in Hs. subst s2. by rewrite accepts_cons in H2.
        -- left. simplify_eq/=. by exists s1, s2.
    + rewrite Hfirst. split.
      * intros (s1 & s2 & Hs & H1 & H2). by exists (c :: s1), s2.
      * intros (s1 & s2 & Hs & H1 & H2). destruct s1 as [|c' s1].
        -- unfold accepts in H1; simpl in H1. congruence.
        -- simplify_eq/=. by exists s1, s2.
Qed.

Lemma accepts_Plus_Class p s :
  accepts (regexp.Plus (regexp.Class p)) s = true
  <-> s <> [] /\ Forall (fun c => p (code c) = true) s.
Proof.
  induction s as [|c s IH]; [by split; [|intros []]|].
  rewrite accepts_cons; simpl. rewrite accepts_Seq. split.
  - intros (s1 & s2 & -> & H1 & H2). split; [done|].
    destruct (p (code c)) eqn:Hp; [|by rewrite accepts_Fail in H1].
    apply accepts_Eps in H1 as ->. simpl. constructor; [done|].
    rewrite accepts_Alt, orb_true_iff, accepts_Eps in H2.
    destruct H2 as [->|H2]; [done|]. by apply IH.
  - intros [_ Hall]. apply Forall_cons in Hall as [Hc Hall].
    exists [], s. rewrite Hc. split; [done|]. split; [done|].
    rewrite accepts_Alt, orb_true_iff, accepts_Eps.
    destruct s as [|c' s]; [by left|right]. by apply IH.
Qed.

Lemma string_nil_bytes s : s <> "" <-> bytes s <> [].
Proof. destruct s; simpl; split; congruence. Qed.

Lemma code_inj c lit : code c = code lit -> c = lit.
Proof.
  unfold code. intros H. apply (f_equal Z.to_N) in H. rewrite !N2Z.id in H.
  apply (f_equal ascii_of_N) in H. by rewrite !ascii_N_embedding in H.
Qed.

Lemma namePattern_isName s :
  regexp.MatchString regexp.namePattern s = true <-> isName s.
Proof.
  rewrite MatchString_accepts. unfold regexp.namePattern, isName.
  by rewrite accepts_Plus_Class, string_nil_bytes.
Qed.

Lemma moneyPattern_isMoney s :
  regexp.MatchString regexp.moneyPattern s = true <-> isMoney s.
Proof.
  rewrite MatchString_accepts. unfold regexp.moneyPattern, isMoney.
  rewrite accepts_Seq. split.
  - intros (s1 & s2 & Hs & H1 & H2).
    apply accepts_Plus_Class in H1 as [Hne Hdigits].
    apply accepts_Seq in H2 as (t1 & t2 & -> & Hdot & H2).
    apply accepts_Class in Hdot as (dot & -> & Hdot).
    apply accepts_Seq in H2 as (u1 & u2 & -> & Hd1 & Hd2).
    apply accepts_Class in Hd1 as (d1 & -> & Hd1).
    apply accepts_Class in Hd2 as (d2 & -> & Hd2).
    exists (string_of_list_ascii s1), d1, d2.
    unfold bytes at 1. rewrite list_ascii_of_string_of_list_ascii.
    split; [by destruct s1|]. do 3 (split; [done|]).
    apply bytes_inj. rewrite Hs, bytes_app. unfold bytes at 1.
    rewrite list_ascii_of_string_of_list_ascii. simpl. do 2 f_equal.
    unfold regexp.dot in Hdot. apply Z.eqb_eq in Hdot.
    unfold code in Hdot. apply (f_equal Z.to_N) in Hdot. rewrite N2Z.id in Hdot.
    apply (f_equal ascii_of_N) in Hdot. by rewrite ascii_N_embedding in Hdot.
  - intros (whole & d1 & d2 & Hne & Hdigits & Hd1 & Hd2 & ->).
    exists (bytes whole), (bytes ("." +:+ String d1 (String d2 ""))).
    split; [by rewrite bytes_app|]. split.
    + apply accepts_Plus_Class. by rewrite <-string_nil_bytes.
    + apply accepts_Seq. exists ["."%char], [d1; d2]. split; [done|]. split.
      * apply accepts_Class. by exists "."%char.
      * apply accepts_Seq. exists [d1], [d2]. split; [done|].
        split; apply accepts_Class; by eexists.
Qed.

Lemma isMoney_nonempty s : isMoney s -> s <> "".
Proof.
  intros (whole & d1 & d2 & Hne & _ & _ & _ & ->). by destruct whole.
Qed.

(** ** Dates and clock times *)

Lemma skip_Some s lit v :
  time.skip s (code lit) = Some v <-> s = lit :: v.
Proof.
  unfold time.skip. destruct s as [|c s]; [done|].
  destruct (code c =? code lit) eqn:Hc.
  - apply Z.eqb_eq, code_inj in Hc as ->. split; intros; by simplify_eq.
  - apply Z.eqb_neq in Hc. split; [done|]. intros [= -> _]. done.
Qed.

Lemma isDigit_cons c s : time.isDigit (c :: s) 0 = digitByte c.
Proof. done. Qed.

Lemma isDigit_cons2 c0 c1 s : time.isDigit (c0 :: c1 :: s) 1 = digitByte c1.
Proof. done. Qed.

Lemma getnum_fixed s n v :
  time.getnum s true = Some (n, v) <->
  exists c0 c1, s = c0 :: c1 :: v /\ digitByte c0 = true /\ digitByte c1 = true
                /\ n = twoDigits c0 c1.
Proof.
  unfold time.getnum.
  destruct s as [|c0 [|c1 s]].
  - split; [done|]. by intros (? & ? & ? & _).
  - rewrite isDigit_cons. destruct (digitByte c0); simpl; (split; [done|]);
      by intros (? & ? & ? & _).
  - rewrite isDigit_cons, isDigit_cons2.
    destruct (digitByte c0) eqn:H0; simpl.
    + destruct (digitByte c1) eqn:H1; simpl.
      * split; [intros [= <- <-]; by exists c0, c1|].
        by intros (? & ? & [= <- <- <-] & _ & _ & ->).
      * split; [done|]. intros (? & ? & [= <- <- <-] & _ & ? & _). congruence.
    + split; [done|]. intros (? & ? & [= <- <- <-] & ? & _). congruence.
Qed.

Lemma getyear_Some s year v :
  time.getyear s = Some (year, v) <->
  exists y0 y1 y2 y3,
    s = y0 :: y1 :: y2 :: y3 :: v
    /\ Forall (fun c => digitByte c = true) [y0; y1; y2; y3]
    /\ year = twoDigits y0 y1 * 100 + twoDigits y2 y3.
Proof.
  unfold time.getyear.
  destruct s as [|y0 [|y1 [|y2 [|y3 l]]]];
    try (split; [done|]; by intros (? & ? & ? & ? & ? & _)).
  change (time.isDigit (y0 :: y1 :: y2 :: y3 :: l) 0) with (digitByte y0).
  change (time.isDigit (y0 :: y1 :: y2 :: y3 :: l) 1) with (digitByte y1).
  change (time.isDigit (y0 :: y1 :: y2 :: y3 :: l) 2) with (digitByte y2).
  change (time.isDigit (y0 :: y1 :: y2 :: y3 :: l) 3) with (digitByte y3).
  split.
  - destruct (digitByte y0) eqn:H0, (digitByte y1) eqn:H1, (digitByte y2) eqn:H2,
      (digitByte y3) eqn:H3; simpl; try done.
    intros [= <- <-]. exists y0, y1, y2, y3. split; [done|].
    split; [by repeat constructor|]. unfold twoDigits. lia.
  - intros (? & ? & ? & ? & [= <- <- <- <- <-] & Hall & ->).
    repeat (apply Forall_cons in Hall as [-> Hall]). simpl.
    do 2 f_equal. unfold twoDigits. lia.
Qed.

Lemma ParseDate_isDate s : snd (time.ParseDate s) = None <-> isDate s.
Proof.
  unfold time.ParseDate, isDate. split.
  - destruct (time.getyear (bytes s)) as [[year v1]|] eqn:Hy; [|done].
    destruct (time.skip v1 45) as [v2|] eqn:Hs1; [|done].
    destruct (time.getnum v2 true) as [[month v3]|] eqn:Hm; [|done].
    destruct ((month <=? 0) || (12 <? month)) eqn:Hmr; [done|].
    destruct (time.skip v3 45) as [v4|] eqn:Hs2; [|done].
    destruct (time.getnum v4 true) as [[day v5]|] eqn:Hd; [|done].
    destruct v5; [|done].
    destruct ((day <? 1) || (time.daysIn month year <? day)) eqn:Hdr; [done|].
    intros _.
    apply (skip_Some _ "-"%char) in Hs1 as ->. apply (skip_Some _ "-"%char) in Hs2 as ->.
    apply getnum_fixed in Hm as (m0 & m1 & -> & Hm0 & Hm1 & ->).
    apply getnum_fixed in Hd as (d0 & d1 & -> & Hd0 & Hd1 & ->).
    apply getyear_Some in Hy as (y0 & y1 & y2 & y3 & Hs & Hall & ->).
    repeat (apply Forall_cons in Hall as [? Hall]).
    exists y0, y1, y2, y3, m0, m1, d0, d1.
    split; [by repeat constructor|]. split; [done|]. lia.
  - intros (y0 & y1 & y2 & y3 & m0 & m1 & d0 & d1 & Hall & -> & Hm & Hd).
    repeat (apply Forall_cons in Hall as [? Hall]).
    rewrite (proj2 (getyear_Some _ _ _)) by (eexists _, _, _, _; by repeat constructor).
    rewrite (proj2 (skip_Some _ "-"%char _) eq_refl).
    rewrite (proj2 (getnum_fixed _ _ _)) by (by eexists _, _).
    rewrite (proj2 (skip_Some _ "-"%char _) eq_refl).
    rewrite (proj2 (getnum_fixed _ _ _)) by (by eexists _, _).
    rewrite (proj2 (orb_false_iff _ _)) by (split; lia).
    by rewrite (proj2 (orb_false_iff _ _)) by (split; lia).
Qed.

Lemma digit_range c : digitByte c = true -> 0 <= time.digit c <= 9.
Proof.
  unfold digitByte, regexp.digit, time.digit. lia.
Qed.

Lemma getnum_free s n v :
  time.getnum s false = Some (n, v) <->
  (exists c0, s = c0 :: v /\ digitByte c0 = true /\ time.isDigit v 0 = false
              /\ n = time.digit c0)
  \/ (exists c0 c1, s = c0 :: c1 :: v /\ digitByte c0 = true /\ digitByte c1 = true
                    /\ n = twoDigits c0 c1).
Proof.
  unfold time.getnum.
  destruct s as [|c0 s].
  - split; [done|]. by intros [(? & ? & _)|(? & ? & ? & _)].
  - rewrite isDigit_cons.
    change (time.isDigit (c0 :: s) 1) with (time.isDigit s 0).
    destruct (digitByte c0) eqn:H0; simpl.
    2: { split; [done|]. intros [(? & [= <- <-] & ? & _)|(? & ? & [= <- _] & ? & _)]; congruence. }
    destruct (time.isDigit s 0) eqn:H1; simpl.
    + destruct s as [|c1 s]; [done|]. rewrite isDigit_cons in H1. split.
      * intros [= <- <-]. right. by exists c0, c1.
      * intros [(? & [= <- <-] & _ & ? & _)|(? & ? & [= <- <- <-] & _ & _ & ->)];
          [|done]. rewrite isDigit_cons in *. congruence.
    + split.
      * intros [= <- <-]. left. by exists c0.
      * intros [(? & [= <- <-] & _ & _ & ->)|(? & ? & [= <- ->] & _ & ? & _)]; [done|].
        rewrite isDigit_cons in H1. congruence.
Qed.

Lemma ParseClock_isClock s : snd (time.ParseClock s) = None <-> isClock s.
Proof.
  unfold time.ParseClock, isClock. split.
  - destruct (time.getnum (bytes s) false) as [[hour v1]|] eqn:Hh; [|done].
    destruct ((hour <? 0) || (24 <=? hour)) eqn:Hhr; [done|].
    destruct (time.skip v1 58) as [v2|] eqn:Hs1; [|done].
    destruct (time.getnum v2 true) as [[min v3]|] eqn:Hm; [|done].
    destruct ((min <? 0) || (60 <=? min)) eqn:Hmr; [done|].
    destruct v3; [|done]. intros _.
    apply (skip_Some _ ":"%char) in Hs1 as ->.
    apply getnum_fixed in Hm as (m0 & m1 & -> & Hm0 & Hm1 & ->).
    apply getnum_free in Hh as [(h & Hs & Hh & _ & ->)|(h0 & h1 & Hs & Hh0 & Hh1 & ->)].
    + left. exists h, m0, m1. split; [by repeat constructor|]. split; [done|]. lia.
    + right. exists h0, h1, m0, m1. split; [by repeat constructor|]. split; [done|]. lia.
  - intros [(h & m0 & m1 & Hall & -> & Hm)|(h0 & h1 & m0 & m1 & Hall & -> & Hh & Hm)];
      repeat (apply Forall_cons in Hall as [? Hall]).
    + rewrite (proj2 (getnum_free _ _ _)) by (left; by eexists).
      pose proof (digit_range h ltac:(done)).
      rewrite (proj2 (orb_false_iff _ _)) by (split; lia).
      rewrite (proj2 (skip_Some _ ":"%char _) eq_refl).
      rewrite (proj2 (getnum_fixed _ _ _)) by (by eexists _, _).
      pose proof (digit_range m0 ltac:(done)). pose proof (digit_range m1 ltac:(done)).
      unfold twoDigits in *. by rewrite (proj2 (orb_false_iff _ _)) by (split; lia).
    + rewrite (proj2 (getnum_free _ _ _)) by (right; by eexists _, _).
      pose proof (digit_range h0 ltac:(done)). pose proof (digit_range h1 ltac:(done)).
      pose proof (digit_range m0 ltac:(done)). pose proof (digit_range m1 ltac:(done)).
      unfold twoDigits in *.
      rewrite (proj2 (orb_false_iff _ _)) by (split; lia).
      rewrite (proj2 (skip_Some _ ":"%char _) eq_refl).
      rewrite (proj2 (getnum_fixed _ _ _)) by (by eexists _, _).
      unfold twoDigits. by rewrite (proj2 (orb_false_iff _ _)) by (split; lia).
Qed.

Lemma ParseDate_ok value t :
  time.ParseDate value = (t, None) ->
  exists year month day,
    t = time.Date year month day 0 0
    /\ 1 <= month <= 12 /\ 1 <= day <= time.daysIn month year
    /\ String.length value = 10%nat.
Proof.
  unfold time.ParseDate, len.
  replace (String.length value) with (length (bytes value))
    by (unfold bytes; induction value; simpl; congruence).
  destruct (time.getyear (bytes value)) as [[year v1]|] eqn:Hy; [|done].
  destruct (time.skip v1 45) as [v2|] eqn:Hs1; [|done].
  destruct (time.getnum v2 true) as [[month v3]|] eqn:Hm; [|done].
  destruct ((month <=? 0) || (12 <? month)) eqn:Hmr; [done|].
  destruct (time.skip v3 45) as [v4|] eqn:Hs2; [|done].
  destruct (time.getnum v4 true) as [[day v5]|] eqn:Hd; [|done].
  destruct v5; [|done].
  destruct ((day <? 1) || (time.daysIn month year <? day)) eqn:Hdr; [done|].
  intros; simplify_eq. exists year, month, day. split; [done|].
  split; [lia|]. split; [lia|].
  unfold time.getyear in Hy.
  destruct (bytes value) as [|c0 [|c1 [|c2 [|c3 l]]]]; try done.
  destruct (_ && _) in Hy; [|done]. simplify_eq.
  unfold time.skip in Hs1. destruct v1 as [|c4 l]; [done|].
  destruct (code c4 =? 45); [|done]. simplify_eq.
  unfold time.getnum in Hm. destruct (negb _) in Hm; [done|].
  destruct (negb _) in Hm; [done|]. destruct v2 as [|c5 [|c6 l]]; try done.
  simplify_eq.
  unfold time.skip in Hs2. destruct v3 as [|c7 l]; [done|].
  destruct (code c7 =? 45); [|done]. simplify_eq.
  unfold time.getnum in Hd. destruct (negb _) in Hd; [done|].
  destruct (negb _) in Hd; [done|]. destruct v4 as [|c8 [|c9 l]]; try done.
  by simplify_eq.
Qed.

(** ** What [ValidateReceipt] and [ValidateID] accept *)

Lemma validateItems_None items :
  validateItems items = None
  <-> Forall (fun item => isName (ShortDescription item) /\ isMoney (Price item)) items.
Proof.
  induction items as [|item items IH]; simpl; [done|].
  rewrite Forall_cons, <-IH, <-namePattern_isName, <-moneyPattern_isMoney.
  destruct (bool_decide (ShortDescription item = "")) eqn:Hd.
  { apply bool_decide_eq_true in Hd. rewrite Hd. by split; [|intros [[? _] _]]. }
  destruct (bool_decide (Price item = "")) eqn:Hp.
  { apply bool_decide_eq_true in Hp. rewrite Hp. by split; [|intros [[_ ?] _]]. }
  destruct (regexp.MatchString regexp.namePattern _),
    (regexp.MatchString regexp.moneyPattern _); simpl; intuition congruence.
Qed.

Lemma ValidateReceipt_wellFormed receipt :
  ValidateReceipt receipt = None <-> wellFormed receipt.
Proof.
  unfold ValidateReceipt, wellFormed.
  rewrite <-validateItems_None, <-namePattern_isName, <-moneyPattern_isMoney.
  destruct (bool_decide (Retailer receipt = "")) eqn:Hr.
  { apply bool_decide_eq_true in Hr. rewrite Hr. by split; [|intros (? & _)]. }
  destruct (bool_decide (PurchaseDate receipt = "")) eqn:Hd.
  { apply bool_decide_eq_true in Hd. rewrite Hd. split; [done|]. intros (_ & Hx & _). by vm_compute in Hx. }
  destruct (bool_decide (PurchaseTime receipt = "")) eqn:Ht.
  { apply bool_decide_eq_true in Ht. rewrite Ht. split; [done|]. intros (_ & _ & Hx & _). by vm_compute in Hx. }
  destruct (bool_decide (Total receipt = "")) eqn:Htot.
  { apply bool_decide_eq_true in Htot. rewrite Htot. split; [done|]. intros (_ & _ & _ & Hx & _). by vm_compute in Hx. }
  destruct (Items receipt) as [|item items] eqn:Hitems; simpl.
  { by split; [|intros (_ & _ & _ & _ & ? & _)]. }
  destruct (regexp.MatchString regexp.namePattern _); simpl;
    [|by split; [|intros (? & _)]].
  destruct (snd (time.ParseDate _)) as [e|]; simpl;
    [by split; [|intros (_ & ? & _)]|].
  destruct (snd (time.ParseClock _)) as [e|]; simpl;
    [by split; [|intros (_ & _ & ? & _)]|].
  destruct (regexp.MatchString regexp.moneyPattern (Total receipt)); simpl;
    [|by split; [|intros (_ & _ & _ & ? & _)]].
  intuition congruence.
Qed.

(** X2. [ValidateReceipt] accepts a receipt exactly when the retailer is a
    name, the date is a date of the calendar written [YYYY-MM-DD], the time
    is a clock time written [HH:MM] or [H:MM], the total is an amount, there
    is an item, and every item has a name for its description and an amount
    for its price. *)
Theorem ValidateReceipt_accepts receipt :
  ValidateReceipt receipt = None
  <-> isName (Retailer receipt)
      /\ isDate (PurchaseDate receipt)
      /\ isClock (PurchaseTime receipt)
      /\ isMoney (Total receipt)
      /\ Items receipt <> []
      /\ Forall (fun item => isName (ShortDescription item) /\ isMoney (Price item))
           (Items receipt).
Proof.
  rewrite ValidateReceipt_wellFormed. unfold wellFormed.
  by rewrite ParseDate_isDate, ParseClock_isClock.
Qed.

(** X1. [ValidateID] accepts exactly the strings of one byte or more that
    hold none of tab, line feed, form feed, carriage return and space; every
    other string, the empty one included, gets the one error
    [Invalid ID format]. *)
Theorem ValidateID_accepts id :
  (ValidateID id = None
   <-> id <> "" /\ Forall (fun c => regexp.space (code c) = false) (bytes id))
  /\ (ValidateID id <> None -> ValidateID id = Some (errorString "Invalid ID format")).
Proof.
  unfold ValidateID. rewrite MatchString_accepts. unfold regexp.idPattern.
  pose proof (accepts_Plus_Class regexp.notSpace (bytes id)) as H.
  rewrite <-string_nil_bytes in H.
  assert (Forall (fun c => regexp.notSpace (code c) = true) (bytes id)
          <-> Forall (fun c => regexp.space (code c) = false) (bytes id)) as Hall.
  { apply Forall_proper; [|done]. intros c. unfold regexp.notSpace.
    by rewrite negb_true_iff. }
  rewrite Hall in H.
  destruct (accepts _ _); simpl; split; try done; intuition congruence.
Qed.

(** ** A validated amount in [strconv.ParseFloat] *)

Lemma digitByte_codes c :
  digitByte c = true ->
  strconv.isDigit c = true /\ (code c =? 95) = false /\ (code c =? 46) = false
  /\ (code c =? 43) = false /\ (code c =? 45) = false
  /\ (strconv.lower c =? 120) = false /\ 0 <= code c - 48.
Proof.
  destruct c as [[] [] [] [] [] [] [] []]; vm_compute; intros H; try done;
    repeat split; try done.
Qed.

Lemma readMantissa_digits ds rest m :
  Forall (fun c => digitByte c = true) ds ->
  strconv.readMantissa false (ds ++ rest) m
  = strconv.readMantissa false rest (fold_left digitStep ds m).
Proof.
  intros Hds. revert m. induction Hds as [|c ds Hc _ IH]; intros m; [done|].
  destruct (digitByte_codes c Hc) as (Hd & H95 & H46 & _).
  simpl. rewrite H95, H46, Hd; simpl. rewrite IH. f_equal.
  unfold digitStep, strconv.digitVal. by rewrite Hd.
Qed.

Lemma fold_digitStep ds m :
  fold_left digitStep ds m
  = strconv.Mantissa (strconv.sawdot m)
      (match ds with [] => strconv.sawdigits m | _ => true end)
      (strconv.underscores m)
      (fold_left (fun a c => a * 10 + (code c - 48)) ds (strconv.digits m))
      (if strconv.sawdot m then strconv.fraction m + Z.of_nat (length ds)
       else strconv.fraction m).
Proof.
  revert m. induction ds as [|c ds IH]; intros m.
  - destruct m as [dot ? ? ? ?]; simpl. destruct dot; f_equal; lia.
  - simpl fold_left. rewrite IH. unfold digitStep; simpl.
    destruct (strconv.sawdot m), ds; f_equal; simpl length; lia.
Qed.

Lemma fold_digits ds a :
  Forall (fun c => digitByte c = true) ds ->
  fold_left (fun a c => if strconv.isDigit c then a * 10 + (code c - 48) else a) ds a
  = fold_left (fun a c => a * 10 + (code c - 48)) ds a
  /\ (0 <= a -> 0 <= fold_left (fun a c => a * 10 + (code c - 48)) ds a).
Proof.
  intros Hds. revert a. induction Hds as [|c ds Hc _ IH]; intros a; [done|].
  destruct (digitByte_codes c Hc) as (Hd & _ & _ & _ & _ & _ & Hnn).
  simpl. rewrite Hd. split; [apply IH|]. intros Ha. apply IH. lia.
Qed.

Lemma readMantissa_cents m d1 d2 :
  digitByte d1 = true -> digitByte d2 = true -> strconv.sawdot m = false ->
  strconv.readMantissa false ("."%char :: [d1; d2]) m
  = (strconv.Mantissa true true (strconv.underscores m)
       ((strconv.digits m * 10 + (code d1 - 48)) * 10 + (code d2 - 48))
       (strconv.fraction m + 2), []).
Proof.
  intros Hd1 Hd2 Hdot.
  destruct (digitByte_codes d1 Hd1) as (Hi1 & Hu1 & Hp1 & _).
  destruct (digitByte_codes d2 Hd2) as (Hi2 & Hu2 & Hp2 & _).
  simpl. rewrite Hdot, Hu1, Hp1, Hi1. simpl. rewrite Hu2, Hp2, Hi2. simpl.
  unfold strconv.digitVal. rewrite Hi1, Hi2. do 2 f_equal. lia.
Qed.

Lemma readFloat_money s :
  isMoney s ->
  strconv.readFloat (bytes s) = Some (strconv.Number false false (centsOf s) (-2))
  /\ 0 <= centsOf s.
Proof.
  intros (whole & d1 & d2 & Hne & Hw & Hd1 & Hd2 & ->).
  unfold centsOf. rewrite bytes_app.
  change (bytes ("." +:+ String d1 (String d2 ""))) with ("."%char :: [d1; d2]).
  apply string_nil_bytes in Hne.
  assert (Forall (fun c => digitByte c = true) [d1; d2]) as Hd12 by (by repeat constructor).
  destruct (fold_digits (bytes whole) 0 Hw) as [Hfold Hnn].
  rewrite fold_left_app, Hfold.
  set (n := fold_left (fun a c => a * 10 + (code c - 48)) (bytes whole) 0) in *.
  change (fold_left _ ("."%char :: [d1; d2]) n)
    with (fold_left (fun a c => if strconv.isDigit c then a * 10 + (code c - 48) else a)
            [d1; d2] n).
  destruct (fold_digits [d1; d2] n Hd12) as [Hfold2 Hnn2]. rewrite Hfold2.
  split; [|apply Hnn2, Hnn; lia].
  destruct (bytes whole) as [|c0 w] eqn:Hbytes; [done|].
  apply Forall_cons in Hw as [Hc0 Hw].
  destruct (digitByte_codes c0 Hc0) as (_ & _ & _ & H43 & H45 & _).
  unfold strconv.readFloat, strconv.stripSign.
  cbn [app]. rewrite H43, H45.
  assert (strconv.hasHexPrefix (c0 :: w ++ "."%char :: [d1; d2]) = false) as ->.
  { destruct w as [|c1 w]; simpl.
    - by rewrite andb_false_r.
    - apply Forall_cons in Hw as [Hc1 _].
      destruct (digitByte_codes c1 Hc1) as (_ & _ & _ & _ & _ & -> & _).
      destruct w; simpl; by rewrite andb_false_r. }
  change (c0 :: w ++ "."%char :: [d1; d2]) with ((c0 :: w) ++ "."%char :: [d1; d2]).
  rewrite readMantissa_digits by (by constructor).
  rewrite readMantissa_cents by (done || by rewrite fold_digitStep).
  rewrite fold_digitStep. simpl. by subst n.
Qed.

Lemma digitByte_fold c : digitByte c = true -> 48 <= strconv.foldCase c <= 57.
Proof.
  destruct c as [[] [] [] [] [] [] [] []]; vm_compute; intros H; try done;
    split; by intros ?.
Qed.

Lemma special_money s : isMoney s -> strconv.special (bytes s) = None.
Proof.
  intros (whole & d1 & d2 & Hne & Hw & _ & _ & ->). rewrite bytes_app.
  apply string_nil_bytes in Hne.
  destruct (bytes whole) as [|c0 w]; [done|].
  apply Forall_cons in Hw as [Hc0 _].
  destruct (digitByte_codes c0 Hc0) as (_ & _ & _ & H43 & H45 & _).
  pose proof (digitByte_fold c0 Hc0) as Hfold.
  unfold strconv.special. cbn [app]. rewrite H43, H45.
  unfold strconv.equalFold. cbn [map].
  assert (code "i" = 105 /\ code "n" = 110) as [Hi Hn] by done.
  rewrite !bool_decide_eq_false_2; [done|..]; intros [= Hc _]; lia.
Qed.

Lemma ParseFloat_money s :
  isMoney s ->
  strconv.ParseFloat s
  = match strconv.nearest (strconv.Number false false (centsOf s) (-2)) with
    | S754_infinity sg =>
        (S754_infinity sg, Some (strconv.rangeError strconv.fnParseFloat s))
    | v => (v, None)
    end.
Proof.
  intros Hs. unfold strconv.ParseFloat.
  by rewrite (special_money s Hs), (proj1 (readFloat_money s Hs)).
Qed.

(** ** The sign of a bonus *)

Lemma binary_round_aux_sign sx mx ex lx :
  match binary_round_aux prec64 emax64 sx mx ex lx with
  | S754_zero s | S754_infinity s | S754_finite s _ _ => s = sx
  | S754_nan => True
  end.
Proof.
  unfold binary_round_aux.
  destruct (shr_fexp _ _ _ _ _) as [mrs' e'].
  destruct (shr_fexp _ _ _ _ _) as [mrs'' e''].
  destruct (shr_m mrs''); [done| |done]. by destruct (_ <=? _).
Qed.

Lemma fmul_notNegative x y :
  notNegative x = true -> notNegative y = true -> notNegative (fmul x y) = true.
Proof.
  destruct x as [sx|sx| |sx mx ex], y as [sy|sy| |sy my ey]; simpl; try done;
    try (by destruct sx, sy).
  intros Hx Hy. apply negb_true_iff in Hx, Hy. subst.
  pose proof (binary_round_aux_sign false (Zpos (mx * my)) (ex + ey) loc_Exact) as H.
  unfold fmul, SFmul. simpl xorb.
  by destruct (binary_round_aux _ _ _ _ _ _) as [s|s| |s m e]; simpl; subst.
Qed.

Lemma nearest_money_notNegative n :
  0 <= n -> notNegative (strconv.nearest (strconv.Number false false n (-2))) = true.
Proof.
  intros Hn. unfold strconv.nearest; simpl.
  destruct (n =? 0); [done|].
  unfold fdiv, SFdiv.
  destruct (SFdiv_core_binary _ _ _ _ _ _) as [[mz ez] lz].
  pose proof (binary_round_aux_sign (xorb false false) mz ez lz) as H.
  by destruct (binary_round_aux _ _ _ _ _ _) as [s|s| |s m e]; simpl in *; subst.
Qed.

Lemma ParseFloat_money_cases s :
  isMoney s ->
  (exists v, strconv.ParseFloat s = (v, None) /\ notNegative v = true)
  \/ strconv.ParseFloat s
     = (S754_infinity false, Some (strconv.rangeError strconv.fnParseFloat s)).
Proof.
  intros Hs. rewrite (ParseFloat_money s Hs).
  pose proof (nearest_money_notNegative _ (proj2 (readFloat_money s Hs))) as H.
  destruct (strconv.nearest _) as [sg|sg| |sg m e]; simpl in H.
  - left. by eexists.
  - right. by destruct sg.
  - left. by eexists.
  - left. by eexists.
Qed.

Lemma Ceil_notNegative x : notNegative x = true -> notNegative (math.Ceil x) = true.
Proof.
  destruct x as [s|s| |s m e]; simpl; try done.
  intros Hs. apply negb_true_iff in Hs. subst.
  destruct (0 <=? e); [done|].
  destruct (_ mod _ =? 0); simpl.
  - destruct (_ / _); try done. unfold float_of_exact. by destruct (_ <=? 0).
  - destruct (_ / _ + 1); try done. unfold float_of_exact. by destruct (_ <=? 0).
Qed.

Lemma float64_int_notNegative x z :
  notNegative x = true -> float64_int x = Some z -> 0 <= z.
Proof.
  destruct x as [s|s| |s m e]; simpl; try done.
  - intros _ [= <-]. done.
  - intros Hs. apply negb_true_iff in Hs. subst.
    destruct (_ && _); [|done]. intros [= <-]. unfold trunc_finite.
    destruct (0 <=? e) eqn:He.
    + apply Z.leb_le in He. apply Z.mul_nonneg_nonneg; [done|].
      by apply Z.pow_nonneg.
    + apply Z.div_pos; [done|]. apply Z.pow_pos_nonneg; [done|]. lia.
Qed.

Lemma itemBonus_money u item c :
  isMoney (Price item) -> itemBonus u item = Some c ->
  0 <= c
  \/ exists price,
       strconv.ParseFloat (Price item) = (price, None)
       /\ float64_int (math.Ceil (fmul price point_two)) = None
       /\ c = u (math.Ceil (fmul price point_two)).
Proof.
  intros Hitem Hc.
  unfold itemBonus in Hc. destruct (Z.rem _ 3 =? 0); [|left; by simplify_eq].
  destruct (ParseFloat_money_cases _ Hitem) as [(v & Hv & Hnn)|Hv];
    rewrite Hv in Hc; simpl in Hc; [|done].
  simplify_eq. unfold int_of_float64.
  destruct (float64_int _) as [z|] eqn:Hz.
  - left. eapply float64_int_notNegative; [|exact Hz].
    by apply Ceil_notNegative, fmul_notNegative.
  - right. by exists v.
Qed.

(** ** Validated receipts in [CalculatePoints] *)

Lemma itemsLoop_range u items points :
  Forall (fun item => isMoney (Price item)) items ->
  Exists (fun item => itemBonus u item = None) items ->
  exists item,
    item ∈ items
    /\ (exists k, len (strings.TrimSpace (ShortDescription item)) = 3 * k)
    /\ strconv.ParseFloat (Price item)
       = (S754_infinity false, Some (strconv.rangeError strconv.fnParseFloat (Price item)))
    /\ itemsLoop u items points
       = (0, Some (wrapError "failed to parse price"
                     (strconv.rangeError strconv.fnParseFloat (Price item)))).
Proof.
  intros Hmoney. revert points.
  induction Hmoney as [|item items Hitem _ IH]; intros points Hex; [by inversion Hex|].
  assert (forall points', Exists (fun item => itemBonus u item = None) items ->
            itemsLoop u (item :: items) points = itemsLoop u items points' ->
            exists item',
              item' ∈ item :: items
              /\ (exists k, len (strings.TrimSpace (ShortDescription item')) = 3 * k)
              /\ strconv.ParseFloat (Price item')
                 = (S754_infinity false,
                    Some (strconv.rangeError strconv.fnParseFloat (Price item')))
              /\ itemsLoop u (item :: items) points
                 = (0, Some (wrapError "failed to parse price"
                               (strconv.rangeError strconv.fnParseFloat (Price item')))))
    as Hrest.
  { intros points' Hex' ->. destruct (IH points' Hex') as (item' & Hin & Hrest).
    exists item'. split; [by right|done]. }
  destruct (Z.rem (len (strings.TrimSpace (ShortDescription item))) 3 =? 0) eqn:Hlen.
  - destruct (ParseFloat_money_cases _ Hitem) as [(v & Hv & _)|Hv].
    + eapply Hrest; [|by simpl; rewrite Hlen, Hv].
      inversion Hex as [? ? Hb|]; subst; [|done].
      unfold itemBonus in Hb. by rewrite Hlen, Hv in Hb.
    + exists item. split; [by left|]. split; [by apply rem3_multiple|].
      split; [done|]. simpl. by rewrite Hlen, Hv.
  - eapply Hrest; [|by simpl; rewrite Hlen].
    inversion Hex as [? ? Hb|]; subst; [|done].
    unfold itemBonus in Hb. by rewrite Hlen in Hb.
Qed.

Lemma wellFormed_prices receipt :
  wellFormed receipt -> Forall (fun item => isMoney (Price item)) (Items receipt).
Proof.
  intros (_ & _ & _ & _ & _ & Hitems).
  eapply Forall_impl; [exact Hitems|]. by intros item [_ ?].
Qed.

Lemma CalculatePoints_wellFormed u receipt :
  wellFormed receipt ->
  (exists b, bonusesOf u receipt = Some b)
  \/ (bonusesOf u receipt = None
      /\ exists item,
           item ∈ Items receipt
           /\ (exists k, len (strings.TrimSpace (ShortDescription item)) = 3 * k)
           /\ strconv.ParseFloat (Price item)
              = (S754_infinity false,
                 Some (strconv.rangeError strconv.fnParseFloat (Price item)))
           /\ CalculatePoints u receipt
              = (0, Some (wrapError "failed to parse price"
                            (strconv.rangeError strconv.fnParseFloat (Price item))))).
Proof.
  intros Hvalid.
  pose proof (wellFormed_prices _ Hvalid) as Hprices.
  destruct Hvalid as (_ & Hdate & Htime & _).
  destruct (bonusesOf u receipt) as [b|] eqn:Hb; [left; by exists b|right].
  split; [done|].
  apply bonusesOf_None in Hb as [Hex|[Hex|Hex]].
  - unfold CalculatePoints.
    match goal with
    | |- context [itemsLoop _ _ ?p] =>
        destruct (itemsLoop_range u _ p Hprices Hex) as (item & Hin & Hk & Hparse & ->)
    end.
    by exists item.
  - rewrite Hdate in Hex. by destruct Hex.
  - rewrite Htime in Hex. by destruct Hex.
Qed.

(** X3. On a receipt that [ValidateReceipt] accepts, [CalculatePoints]
    never fails on the date, on the time or on the syntax of a price: it
    returns the sum of the bonuses, or else the one error
    [failed to parse price] with a range error as its cause, and then the
    error quotes the price of an item whose trimmed description length is a
    multiple of 3 and whose price is beyond the largest [float64]. *)
Theorem validated_receipt_scores u receipt :
  ValidateReceipt receipt = None ->
  (exists b, bonusesOf u receipt = Some b
             /\ CalculatePoints u receipt = (wrap64 (sumBonuses b), None))
  \/ (exists item,
        item ∈ Items receipt
        /\ (exists k, len (strings.TrimSpace (ShortDescription item)) = 3 * k)
        /\ strconv.ParseFloat (Price item)
           = (S754_infinity false, Some (NumError "ParseFloat" (Price item) ErrRange))
        /\ CalculatePoints u receipt
           = (0, Some (wrapError "failed to parse price"
                         (NumError "ParseFloat" (Price item) ErrRange)))).
Proof.
  intros Hvalid. apply ValidateReceipt_wellFormed in Hvalid.
  destruct (CalculatePoints_wellFormed u receipt Hvalid) as [[b Hb]|[_ Hitem]].
  - left. exists b. split; [done|]. by apply CalculatePoints_bonuses.
  - right. exact Hitem.
Qed.

(** X4. On a receipt that [ValidateReceipt] accepts no bonus is negative,
    unless the product of an item does not fit in an [int] and the platform
    makes its conversion negative. When the products all fit, the sum of
    the bonuses is not negative, and it is what [CalculatePoints] returns as
    long as it is below [2^63]. *)
Theorem validated_bonuses_not_negative u receipt b :
  ValidateReceipt receipt = None ->
  bonusesOf u receipt = Some b ->
  0 <= retailerBonus b /\ 0 <= roundDollarBonus b /\ 0 <= quarterBonus b
  /\ 0 <= pairsBonus b /\ 0 <= oddDayBonus b /\ 0 <= afternoonBonus b
  /\ Forall2
       (fun item c =>
          0 <= c
          \/ exists price,
               strconv.ParseFloat (Price item) = (price, None)
               /\ float64_int (math.Ceil (fmul price point_two)) = None
               /\ c = u (math.Ceil (fmul price point_two)))
       (Items receipt) (itemBonuses b)
  /\ (Forall
        (fun item =>
           forall price,
             strconv.ParseFloat (Price item) = (price, None) ->
             is_Some (float64_int (math.Ceil (fmul price point_two))))
        (Items receipt) ->
      0 <= sumBonuses b
      /\ (sumBonuses b < 2 ^ 63 -> CalculatePoints u receipt = (sumBonuses b, None))).
Proof.
  intros Hvalid Hb. apply ValidateReceipt_wellFormed in Hvalid.
  pose proof (wellFormed_prices _ Hvalid) as Hprices.
  pose proof (CalculatePoints_exact u receipt b Hb) as Hexact.
  apply bonusesOf_Some in Hb as (cs & d & t & Hcs & _ & _ & ->).
  unfold sumBonuses in *. simpl in *.
  assert (0 <= len (strings.ReplaceAll (Retailer receipt) " " "")) as Hr
    by (unfold len; lia).
  assert (0 <= Z.of_nat (length (Items receipt)) / 2 * 5) as Hp
    by (pose proof (Z.div_pos (Z.of_nat (length (Items receipt))) 2); lia).
  split; [done|]. split; [by destruct (isRoundDollarAmount _)|].
  split; [by destruct (isMultipleOfQuarter _)|]. split; [done|].
  split; [by destruct (Z.rem _ 2 =? 1)|]. split; [by destruct (afternoon _)|].
  assert (Forall2
            (fun item c =>
               0 <= c
               \/ exists price,
                    strconv.ParseFloat (Price item) = (price, None)
                    /\ float64_int (math.Ceil (fmul price point_two)) = None
                    /\ c = u (math.Ceil (fmul price point_two)))
            (Items receipt) cs) as Hitems.
  { clear Hexact Hr Hp.
    induction Hcs as [|item c items cs Hc _ IH]; [constructor|].
    apply Forall_cons in Hprices as [Hitem Hprices].
    constructor; [by apply itemBonus_money|by apply IH]. }
  split; [done|].
  - intros Hfit.
    assert (0 <= sumZ cs) as Hsum.
    { clear -Hitems Hfit.
      induction Hitems as [|item c items cs Hc _ IH]; [done|].
      apply Forall_cons in Hfit as [Hitem Hfit].
      unfold sumZ in *; simpl. specialize (IH Hfit).
      destruct Hc as [Hc|(price & Hp & Hnone & _)]; [lia|].
      destruct (Hitem price Hp) as [z Hz]. congruence. }
    assert (0 <= (if isRoundDollarAmount (Total receipt) then 50 else 0)) as H50
      by (by destruct (isRoundDollarAmount _)).
    assert (0 <= (if isMultipleOfQuarter (Total receipt) then 25 else 0)) as H25
      by (by destruct (isMultipleOfQuarter _)).
    assert (0 <= (if Z.rem (time.Day d) 2 =? 1 then 6 else 0)) as H6
      by (by destruct (Z.rem _ 2 =? 1)).
    assert (0 <= (if afternoon t then 10 else 0)) as H10
      by (by destruct (afternoon _)).
    split; [lia|]. intros Hlt. apply Hexact. unfold in_int64. lia.
Qed.

(** ** The retailer, the day and the round dollar *)

Lemma len_ReplaceAll_space s :
  len (strings.ReplaceAll s " " "") = nonSpaces s
  /\ nonSpaces s + spaces s = len s.
Proof.
  unfold len, strings.ReplaceAll, nonSpaces, spaces.
  rewrite length_string_of_list_ascii.
  replace (String.length s) with (length (bytes s))
    by (unfold bytes; induction s; simpl; congruence).
  change (bytes "") with (@nil ascii).
  induction (bytes s) as [|c l [IH1 IH2]]; [done|].
  rewrite !filter_cons. simpl flat_map.
  case_bool_decide as Hc; destruct (decide (c <> " "%char)), (decide (c = " "%char));
    try done; simpl length; split; lia.
Qed.

(** X6. The retailer bonus is the number of bytes of the retailer name
    other than the space (U+0020): the length less the number of spaces.
    Every other byte counts, a punctuation mark, a tab and each byte of a
    character of several bytes included. *)
Theorem retailer_bonus_counts u receipt b :
  bonusesOf u receipt = Some b ->
  CalculatePoints u receipt = (wrap64 (sumBonuses b), None)
  /\ retailerBonus b = nonSpaces (Retailer receipt)
  /\ retailerBonus b = len (Retailer receipt) - spaces (Retailer receipt)
  /\ 0 <= retailerBonus b <= len (Retailer receipt).
Proof.
  intros Hb. split; [by apply CalculatePoints_bonuses|].
  apply bonusesOf_Some in Hb as (cs & d & t & _ & _ & _ & ->); simpl.
  destruct (len_ReplaceAll_space (Retailer receipt)) as [-> Hsum].
  unfold nonSpaces, spaces in *. lia.
Qed.

(** X7. When the purchase date parses, it has 10 bytes and stands for a
    year, a month from 1 to 12 and a day that the month has; the day bonus
    is 6 exactly when the day is odd and 0 exactly when it is even. *)
Theorem odd_day_bonus u receipt b :
  bonusesOf u receipt = Some b ->
  CalculatePoints u receipt = (wrap64 (sumBonuses b), None)
  /\ exists year month day,
       time.ParseDate (PurchaseDate receipt) = (time.Date year month day 0 0, None)
       /\ String.length (PurchaseDate receipt) = 10%nat
       /\ 1 <= month <= 12 /\ 1 <= day <= time.daysIn month year
       /\ (oddDayBonus b = 6 <-> Z.odd day = true)
       /\ (oddDayBonus b = 0 <-> Z.even day = true).
Proof.
  intros Hb. split; [by apply CalculatePoints_bonuses|].
  apply bonusesOf_Some in Hb as (cs & d & t & _ & Hd & _ & ->); simpl.
  destruct (ParseDate_ok _ _ Hd) as (year & month & day & -> & Hm & Hday & Hlen).
  exists year, month, day. do 4 (split; [done|]). simpl.
  rewrite <-Z.negb_odd, negb_true_iff.
  assert ((Z.rem day 2 =? 1) = Z.odd day) as ->.
  { rewrite Z.rem_mod_nonneg by lia.
    destruct (Z.odd day) eqn:Hodd.
    - apply Z.odd_spec in Hodd as [k ->]. apply Z.eqb_eq.
      Z.to_euclidean_division_equations; lia.
    - rewrite <-Z.negb_even, negb_false_iff in Hodd.
      apply Z.even_spec in Hodd as [k ->]. apply Z.eqb_neq.
      Z.to_euclidean_division_equations; lia. }
  destruct (Z.odd day); split; split; done.
Qed.

Lemma round_dollar_cents s :
  isMoney s -> isRoundDollarAmount s = true <-> centsOf s mod 100 = 0.
Proof.
  intros Hs. unfold isRoundDollarAmount. rewrite HasSuffix_spec.
  destruct Hs as (whole & d1 & d2 & Hne & Hw & Hd1 & Hd2 & ->).
  unfold centsOf. rewrite bytes_app.
  change (bytes ("." +:+ String d1 (String d2 ""))) with ("."%char :: [d1; d2]).
  rewrite fold_left_app.
  destruct (fold_digits (bytes whole) 0 Hw) as [-> Hnn].
  set (n := fold_left _ (bytes whole) 0) in *.
  destruct (digitByte_codes d1 Hd1) as (Hi1 & _).
  destruct (digitByte_codes d2 Hd2) as (Hi2 & _).
  simpl. rewrite Hi1, Hi2.
  assert (48 <= code d1 <= 57 /\ 48 <= code d2 <= 57) as Hrange.
  { unfold strconv.isDigit in Hi1, Hi2. lia. }
  assert ((n * 10 + (code d1 - 48)) * 10 + (code d2 - 48)
          = (code d1 - 48) * 10 + (code d2 - 48) + n * 100) as -> by lia.
  rewrite Z.mod_add by done. rewrite Z.mod_small by lia.
  split.
  - intros [w Hw']. apply (f_equal bytes) in Hw'. rewrite !bytes_app in Hw'.
    change (bytes ("." +:+ String d1 (String d2 ""))) with ("."%char :: [d1; d2]) in Hw'.
    change (bytes ".00") with ("."%char :: ["0"; "0"]%char) in Hw'.
    apply (f_equal (@rev ascii)) in Hw'. rewrite !rev_app_distr in Hw'. simpl in Hw'.
    injection Hw' as -> -> _. done.
  - intros Hz. assert (code d1 = 48 /\ code d2 = 48) as [H1 H2] by lia.
    exists whole. do 2 f_equal.
    assert (forall d, code d = 48 -> d = "0"%char) as Hchar.
    { intros d Hd. unfold code in Hd. apply (f_equal Z.to_N) in Hd.
      rewrite N2Z.id in Hd. apply (f_equal ascii_of_N) in Hd.
      by rewrite ascii_N_embedding in Hd. }
    by rewrite (Hchar d1 H1), (Hchar d2 H2).
Qed.

(** X8. On a receipt that [ValidateReceipt] accepts, the round-dollar
    bonus is 50 exactly when the total has zero cents, that is when its
    digits, read as a number of cents, are a multiple of 100; otherwise it
    is 0. *)
Theorem round_dollar_zero_cents u receipt b :
  ValidateReceipt receipt = None ->
  bonusesOf u receipt = Some b ->
  (roundDollarBonus b = 50 <-> centsOf (Total receipt) mod 100 = 0)
  /\ (roundDollarBonus b = 0 <-> centsOf (Total receipt) mod 100 <> 0).
Proof.
  intros Hvalid Hb. apply ValidateReceipt_wellFormed in Hvalid.
  destruct Hvalid as (_ & _ & _ & Htotal & _).
  apply bonusesOf_Some in Hb as (cs & d & t & _ & _ & _ & ->); simpl.
  rewrite <-(round_dollar_cents _ Htotal).
  destruct (isRoundDollarAmount _); split; split; done.
Qed.

(** ** Rounding, bounded from above

    What [binary_round_aux] of the Standard Library returns is at most the
    number it rounds plus one unit of the last place. This bounds the parsed
    price, its product with [0.2] and the integer that comes out. *)

Lemma digits2_size p : digits2_pos p = Pos.size p.
Proof. induction p as [p IH|p IH|]; simpl; by rewrite ?IH. Qed.

Lemma digits2_upper p : Zpos p < 2 ^ Zpos (digits2_pos p).
Proof.
  rewrite digits2_size. pose proof (Pos.size_gt p) as H.
  apply Pos2Z.pos_lt_pos in H. by rewrite Pos2Z.inj_pow in H.
Qed.

Lemma digits2_lower p : 2 ^ (Zpos (digits2_pos p) - 1) <= Zpos p.
Proof.
  rewrite digits2_size. pose proof (Pos.size_le p) as H.
  apply Pos2Z.pos_le_pos in H. rewrite Pos2Z.inj_pow in H.
  change (Zpos p~0) with (2 * Zpos p) in H.
  replace (Zpos (Pos.size p)) with (1 + (Zpos (Pos.size p) - 1)) in H by lia.
  rewrite Z.pow_add_r in H by lia. lia.
Qed.

Lemma digits2_le p k : 0 <= k -> Zpos p < 2 ^ k -> Zpos (digits2_pos p) <= k.
Proof.
  intros Hk Hp. pose proof (digits2_lower p) as Hlow.
  destruct (Z.le_gt_cases (Zpos (digits2_pos p)) k) as [|Hgt]; [done|].
  assert (2 ^ k <= 2 ^ (Zpos (digits2_pos p) - 1)) by (apply Z.pow_le_mono_r; lia).
  lia.
Qed.

Lemma shr_1_m mrs : 0 <= shr_m mrs -> shr_m (shr_1 mrs) = shr_m mrs / 2.
Proof.
  destruct mrs as [m r s]; simpl. intros Hm.
  destruct m as [|[p|p|]|p]; simpl; try done.
  - rewrite (Pos2Z.inj_xI p). apply Z.div_unique with 1; lia.
  - rewrite (Pos2Z.inj_xO p). apply Z.div_unique with 0; lia.
Qed.

Lemma iter_shr_1_m p mrs :
  0 <= shr_m mrs -> shr_m (SpecFloat.iter_pos shr_1 p mrs) = shr_m mrs / 2 ^ Zpos p.
Proof.
  revert mrs. induction p as [p IH|p IH|]; intros mrs Hm; simpl SpecFloat.iter_pos.
  - assert (0 <= shr_m (shr_1 mrs)) as H1
      by (rewrite shr_1_m by done; by apply Z.div_pos).
    assert (0 <= shr_m (SpecFloat.iter_pos shr_1 p (shr_1 mrs))) as H2
      by (rewrite IH by done; apply Z.div_pos; [done|by apply Z.pow_pos_nonneg]).
    rewrite !IH, shr_1_m by done.
    assert (0 < 2 ^ Zpos p) as Hpow by (by apply Z.pow_pos_nonneg).
    rewrite !Z.div_div by lia.
    replace (2 ^ Zpos p~1) with (2 * (2 ^ Zpos p * 2 ^ Zpos p)); [done|].
    rewrite (Pos2Z.inj_xI p).
    replace (2 * Zpos p + 1) with (1 + Zpos p + Zpos p) by lia.
    rewrite !Z.pow_add_r by lia. lia.
  - assert (0 <= shr_m (SpecFloat.iter_pos shr_1 p mrs)) as H2
      by (rewrite IH by done; apply Z.div_pos; [done|by apply Z.pow_pos_nonneg]).
    rewrite !IH by done.
    assert (0 < 2 ^ Zpos p) as Hpow by (by apply Z.pow_pos_nonneg).
    rewrite !Z.div_div by lia.
    replace (2 ^ Zpos p~0) with (2 ^ Zpos p * 2 ^ Zpos p); [done|].
    rewrite (Pos2Z.inj_xO p).
    replace (2 * Zpos p) with (Zpos p + Zpos p) by lia.
    by rewrite !Z.pow_add_r by lia.
  - by rewrite shr_1_m.
Qed.

Lemma shr_fexp_m m e l :
  0 <= m ->
  let n := Z.max 0 (fexp prec64 emax64 (Zdigits2 m + e) - e) in
  shr_m (fst (shr_fexp prec64 emax64 m e l)) = m / 2 ^ n
  /\ snd (shr_fexp prec64 emax64 m e l) = e + n.
Proof.
  intros Hm n. unfold shr_fexp, shr. fold (fexp prec64 emax64 (Zdigits2 m + e)).
  assert (shr_m (shr_record_of_loc m l) = m) as Hrec by (by destruct l as [|[]]).
  subst n. destruct (fexp prec64 emax64 (Zdigits2 m + e) - e) as [|p|p] eqn:Hn; simpl fst; simpl snd.
  - rewrite Hrec. change (Z.max 0 0) with 0. rewrite Z.div_1_r. split; [done|lia].
  - rewrite iter_shr_1_m by (by rewrite Hrec). rewrite Hrec.
    rewrite Z.max_r by lia. done.
  - rewrite Hrec. rewrite Z.max_l by lia. rewrite Z.div_1_r. split; [done|lia].
Qed.

Lemma binary_round_aux_bound sx mx ex lx :
  0 <= mx ->
  let n := Z.max 0 (fexp prec64 emax64 (Zdigits2 mx + ex) - ex) in
  match binary_round_aux prec64 emax64 sx mx ex lx with
  | S754_zero s => s = sx
  | S754_finite s m e =>
      s = sx /\ ex <= e <= 971 /\ Zpos m * 2 ^ (e - ex) <= mx + 2 ^ n
  | S754_infinity s =>
      exists m e, 971 < e /\ ex <= e /\ Zpos m * 2 ^ (e - ex) <= mx + 2 ^ n
  | S754_nan => False
  end.
Proof.
  intros Hmx n. unfold binary_round_aux.
  destruct (shr_fexp_m mx ex lx Hmx) as [Hm1 He1]. fold n in Hm1, He1.
  destruct (shr_fexp prec64 emax64 mx ex lx) as [mrs1 e1]. simpl in Hm1, He1.
  assert (0 <= n) as Hn by (unfold n; lia).
  assert (0 < 2 ^ n) as Hpow by (by apply Z.pow_pos_nonneg).
  assert (0 <= shr_m mrs1) as Hm1pos by (rewrite Hm1; by apply Z.div_pos).
  set (m2 := round_nearest_even (shr_m mrs1) (loc_of_shr_record mrs1)).
  assert (shr_m mrs1 <= m2 <= shr_m mrs1 + 1) as Hm2.
  { unfold m2, round_nearest_even.
    destruct (loc_of_shr_record mrs1) as [|[]]; try destruct (Z.even _); lia. }
  assert (0 <= m2) as Hm2pos by lia.
  destruct (shr_fexp_m m2 e1 loc_Exact Hm2pos) as [Hm3 He3].
  set (n2 := Z.max 0 (fexp prec64 emax64 (Zdigits2 m2 + e1) - e1)) in *.
  destruct (shr_fexp prec64 emax64 m2 e1 loc_Exact) as [mrs3 e3]. simpl in Hm3, He3.
  assert (0 <= n2) as Hn2 by (unfold n2; lia).
  assert (0 < 2 ^ n2) as Hpow2 by (by apply Z.pow_pos_nonneg).
  assert (shr_m mrs3 * 2 ^ (e3 - ex) <= mx + 2 ^ n) as Hbound.
  { replace (e3 - ex) with (n2 + n) by lia. rewrite Z.pow_add_r by done.
    pose proof (Z.mul_div_le m2 (2 ^ n2) Hpow2) as H2.
    pose proof (Z.mul_div_le mx (2 ^ n) Hpow) as H1.
    rewrite <-Hm3 in H2. rewrite <-Hm1 in H1. nia. }
  assert (0 <= shr_m mrs3) as Hm3pos by (rewrite Hm3; by apply Z.div_pos).
  destruct (shr_m mrs3) as [|m|m]; [done| |lia].
  change (emax64 - prec64) with 971.
  destruct (e3 <=? 971) eqn:He.
  - apply Z.leb_le in He. split; [done|]. split; [lia|done].
  - apply Z.leb_gt in He. exists m, e3. split; [lia|]. split; [lia|done].
Qed.

Lemma fexp64 x : fexp prec64 emax64 x = Z.max (x - 53) (-1074).
Proof. done. Qed.

Lemma pow2_pos x : 0 <= x -> 0 < 2 ^ x.
Proof. intros. by apply Z.pow_pos_nonneg. Qed.

Lemma pow2_split a b : 0 <= a -> 0 <= b -> 2 ^ (a + b) = 2 ^ a * 2 ^ b.
Proof. intros. by apply Z.pow_add_r. Qed.

Lemma fdiv_cents_bound (N : positive) :
  Zpos N < 2 ^ 59 ->
  atMost (fdiv (S754_finite false N 0) (S754_finite false 100 0)) (-59) (Zpos N * 2 ^ 53).
Proof.
  intros HN. unfold fdiv, SFdiv, SFdiv_core_binary.
  set (d1 := Zdigits2 (Zpos N)).
  assert (1 <= d1 <= 59) as Hd1.
  { unfold d1; simpl. split; [lia|]. by apply digits2_le. }
  assert (2 ^ (d1 - 1) <= Zpos N) as Hlow by apply digits2_lower.
  change (Zdigits2 100) with 7.
  rewrite fexp64.
  replace (Z.min (Z.max (d1 + 0 - (7 + 0) - 53) (-1074)) (0 - 0)) with (d1 - 60) by lia.
  replace (0 - 0 - (d1 - 60)) with (60 - d1) by lia.
  destruct (60 - d1) as [|s|s] eqn:Hs; [lia| |lia].
  rewrite Z.shiftl_mul_pow2 by lia.
  pose proof (Z_div_mod (Zpos N * 2 ^ Zpos s) 100 eq_refl) as Hdiv.
  destruct (Z.div_eucl (Zpos N * 2 ^ Zpos s) 100) as [q r]. destruct Hdiv as [Hq Hr].
  assert (0 < 2 ^ Zpos s) as HS by (by apply pow2_pos).
  assert (0 < 2 ^ (d1 - 1)) as HP by (apply pow2_pos; lia).
  assert (2 ^ Zpos s * 2 ^ (d1 - 1) = 2 ^ 59) as HSP
    by (rewrite <-pow2_split by lia; f_equal; lia).
  assert (0 <= q) as Hq0 by nia.
  assert (q < 2 ^ 54) as Hq54.
  { assert (Zpos N < 2 * 2 ^ (d1 - 1)) as Hup.
    { pose proof (digits2_upper N) as Hup. fold (Zdigits2 (Zpos N)) in Hup. fold d1 in Hup.
      replace d1 with (1 + (d1 - 1)) in Hup at 1 by lia.
      rewrite pow2_split in Hup by lia. done. }
    assert (100 * q < 2 ^ 60) by (change (2 ^ 60) with (2 * 2 ^ 59); nia).
    lia. }
  pose proof (binary_round_aux_bound (xorb false false) q (d1 - 60)
                (new_location 100 r) Hq0) as Hb.
  simpl xorb in *. cbv zeta in Hb.
  assert (Zdigits2 q <= 54) as Hdq.
  { destruct q as [|q|q]; [done| |done]. by apply digits2_le. }
  assert (2 ^ Z.max 0 (fexp prec64 emax64 (Zdigits2 q + (d1 - 60)) - (d1 - 60)) <= 2) as Hn.
  { rewrite fexp64. change 2 with (2 ^ 1) at 2. apply Z.pow_le_mono_r; lia. }
  destruct (binary_round_aux _ _ _ _ _ _) as [s0|s0| |s0 m e]; simpl.
  - done.
  - destruct Hb as (m & e & He & He' & Hb).
    assert (2 ^ 972 <= 2 ^ (e - (d1 - 60))) by (apply Z.pow_le_mono_r; lia).
    assert (2 ^ 54 < 2 ^ 972) by (by apply Z.pow_lt_mono_r).
    nia.
  - done.
  - destruct Hb as (-> & [He He'] & Hb). split; [lia|].
    replace (e - -59) with ((e - (d1 - 60)) + (d1 - 1)) by lia.
    rewrite pow2_split by lia.
    assert (0 < 2 ^ (e - (d1 - 60))) by (apply pow2_pos; lia).
    assert ((q + 2) * 2 ^ (d1 - 1) <= Zpos N * 2 ^ 53); [|nia].
    assert (100 * 2 ^ 53 >= 2 ^ 59 + 200) by done.
    nia.
Qed.

Lemma fmul_point_two_bound x lo bound :
  -1000 <= lo <= 0 -> bound < 2 ^ 900 ->
  atMost x lo bound -> atMost (fmul x point_two) (lo - 55) (bound * 2 ^ 54).
Proof.
  intros Hlo Hbound Hx. destruct x as [s|s| |[] m e]; simpl in Hx; try done.
  destruct Hx as [He Hm].
  unfold fmul, point_two, SFmul. simpl xorb.
  set (mx := Zpos (m * 7205759403792794)).
  assert (0 <= mx) as Hmx0 by done.
  pose proof (binary_round_aux_bound false mx (e + -55) loc_Exact Hmx0) as Hb.
  cbv zeta in Hb.
  assert (2 ^ Z.max 0 (fexp prec64 emax64 (Zdigits2 mx + (e + -55)) - (e + -55)) <= mx)
    as Hn.
  { rewrite fexp64. pose proof (digits2_lower (m * 7205759403792794)) as Hlow.
    fold mx in Hlow. change (Zpos (digits2_pos (m * 7205759403792794))) with (Zdigits2 mx) in *.
    destruct (Z.le_gt_cases (Zdigits2 mx) 53).
    - rewrite Z.max_l by lia. unfold mx. change (2 ^ 0) with 1. lia.
    - etrans; [|exact Hlow]. apply Z.pow_le_mono_r; lia. }
  assert (mx <= Zpos m * 2 ^ 53) as Hmx.
  { unfold mx. rewrite Pos2Z.inj_mul.
    assert (Zpos 7205759403792794 <= 2 ^ 53) by done. nia. }
  assert (0 < 2 ^ (e - lo)) as Hpe by (apply pow2_pos; lia).
  destruct (binary_round_aux _ _ _ _ _ _) as [s0|s0| |s0 m5 e5]; simpl.
  - done.
  - destruct Hb as (m5 & e5 & He5 & He5' & Hb).
    assert (2 ^ (e5 - (e + -55)) * 2 ^ (e - lo) = 2 ^ (e5 - lo + 55)) as Hsplit
      by (rewrite <-pow2_split by lia; f_equal; lia).
    assert (2 ^ 1027 <= 2 ^ (e5 - lo + 55)) by (apply Z.pow_le_mono_r; lia).
    assert (2 ^ 900 * 2 ^ 54 < 2 ^ 1027) by done.
    assert (0 < 2 ^ (e5 - (e + -55))) by (apply pow2_pos; lia).
    nia.
  - done.
  - destruct Hb as (-> & [He5 He5'] & Hb). split; [lia|].
    replace (e5 - (lo - 55)) with ((e5 - (e + -55)) + (e - lo)) by lia.
    rewrite pow2_split by lia.
    assert (0 < 2 ^ (e5 - (e + -55))) by (apply pow2_pos; lia).
    change (2 ^ 54) with (2 * 2 ^ 53). nia.
Qed.

Lemma float64_int_exact (p : positive) :
  Zpos p < 2 ^ 53 -> float64_int (float_of_exact false p 0) = Some (Zpos p).
Proof.
  intros Hp. unfold float_of_exact. rewrite fexp64.
  assert (Zpos (digits2_pos p) <= 53) as Hd by (by apply digits2_le).
  set (e' := Z.max (Zpos (digits2_pos p) + 0 - 53) (-1074)).
  assert (e' <= 0) as He' by (unfold e'; lia).
  rewrite (proj2 (Z.leb_le e' 0)) by done.
  assert (0 < 2 ^ (0 - e')) as Hpow by (apply pow2_pos; lia).
  unfold float64_int, trunc_finite. rewrite Z2Pos.id by nia.
  assert ((if 0 <=? e' then Zpos p * 2 ^ (0 - e') * 2 ^ e'
           else Zpos p * 2 ^ (0 - e') / 2 ^ (- e')) = Zpos p) as ->.
  { destruct (0 <=? e') eqn:H0.
    - apply Z.leb_le in H0. replace e' with 0 by lia. simpl. lia.
    - replace (0 - e') with (- e') by lia. apply Z.div_mul. lia. }
  assert (2 ^ 53 < 2 ^ 63) by done.
  by rewrite (proj2 (Z.leb_le (- 2 ^ 63) (Zpos p))), (proj2 (Z.ltb_lt (Zpos p) (2 ^ 63))) by lia.
Qed.

Lemma Ceil_int_bound y lo bound :
  lo <= 0 -> 0 <= bound -> bound + 2 ^ (- lo) < 2 ^ (53 - lo) ->
  atMost y lo bound ->
  exists z, float64_int (math.Ceil y) = Some z
            /\ 0 <= z /\ z * 2 ^ (- lo) <= bound + 2 ^ (- lo).
Proof.
  intros Hlo Hbound0 Hbound Hy.
  assert (0 < 2 ^ (- lo)) as Hplo by (apply pow2_pos; lia).
  assert (2 ^ (53 - lo) = 2 ^ 53 * 2 ^ (- lo)) as Hsplit
    by (rewrite <-pow2_split by lia; f_equal; lia).
  destruct y as [s|s| |[] m e]; simpl in Hy; try done.
  { exists 0. simpl. split; [done|]. lia. }
  destruct Hy as [He Hm]. unfold math.Ceil.
  destruct (0 <=? e) eqn:He0.
  - apply Z.leb_le in He0. exists (Zpos m * 2 ^ e).
    assert (0 < 2 ^ e) as Hpe by (by apply pow2_pos).
    assert (Zpos m * 2 ^ e * 2 ^ (- lo) = Zpos m * 2 ^ (e - lo)) as Hval.
    { rewrite <-Z.mul_assoc, <-pow2_split by lia.
      by replace (e + - lo) with (e - lo) by lia. }
    assert (2 ^ 53 < 2 ^ 63) by done.
    unfold float64_int, trunc_finite. rewrite (proj2 (Z.leb_le 0 e)) by done.
    rewrite (proj2 (Z.leb_le (- 2 ^ 63) _)), (proj2 (Z.ltb_lt _ (2 ^ 63))) by nia.
    split; [done|]. split; [nia|nia].
  - apply Z.leb_gt in He0.
    assert (0 < 2 ^ (- e)) as Hpe by (apply pow2_pos; lia).
    pose proof (Z.mul_div_le (Zpos m) (2 ^ (- e)) Hpe) as Hq.
    pose proof (Z.div_pos (Zpos m) (2 ^ (- e))) as Hq0.
    set (q := Zpos m / 2 ^ (- e)) in *.
    assert (2 ^ (- e) * 2 ^ (e - lo) = 2 ^ (- lo)) as Hsp
      by (rewrite <-pow2_split by lia; f_equal; lia).
    assert (0 < 2 ^ (e - lo)) as Hpel by (apply pow2_pos; lia).
    assert (q * 2 ^ (- lo) <= bound) as Hqb by nia.
    assert (forall n, q <= n <= q + 1 ->
              exists z,
                float64_int match n with
                            | Zpos p => float_of_exact false p 0
                            | _ => S754_zero false
                            end = Some z
                /\ 0 <= z /\ z * 2 ^ (- lo) <= bound + 2 ^ (- lo)) as Hn.
    { intros n Hn. destruct n as [|p|p]; [| |lia].
      - exists 0. split; [done|]. lia.
      - exists (Zpos p). rewrite float64_int_exact by nia. split; [done|]. nia. }
    destruct (_ mod _ =? 0); apply Hn; lia.
Qed.

Lemma fold_digits_bound ds a :
  Forall (fun c => digitByte c = true) ds -> 0 <= a ->
  fold_left (fun a c => a * 10 + (code c - 48)) ds a < (a + 1) * 10 ^ Z.of_nat (length ds).
Proof.
  intros Hds. revert a. induction Hds as [|c ds Hc _ IH]; intros a Ha; [simpl; lia|].
  destruct (digitByte_codes c Hc) as (Hd & _ & _ & _ & _ & _ & Hnn).
  unfold strconv.isDigit in Hd.
  simpl fold_left. eapply Z.lt_le_trans; [apply IH; lia|].
  rewrite length_cons, Nat2Z.inj_succ, Z.pow_succ_r by lia.
  assert (0 < 10 ^ Z.of_nat (length ds)) by (apply Z.pow_pos_nonneg; lia).
  nia.
Qed.

Lemma centsOf_bound s : isMoney s -> centsOf s < 10 ^ (len s - 1).
Proof.
  intros (whole & d1 & d2 & Hne & Hw & Hd1 & Hd2 & ->).
  unfold centsOf, len.
  replace (String.length (whole +:+ "." +:+ String d1 (String d2 "")))
    with (length (bytes (whole +:+ "." +:+ String d1 (String d2 ""))))
    by (unfold bytes; induction (whole +:+ _); simpl; congruence).
  rewrite bytes_app.
  change (bytes ("." +:+ String d1 (String d2 ""))) with ("."%char :: [d1; d2]).
  rewrite fold_left_app, length_app.
  destruct (fold_digits (bytes whole) 0 Hw) as [-> Hnn].
  pose proof (fold_digits_bound (bytes whole) 0 Hw) as Hb.
  set (n := fold_left _ (bytes whole) 0) in *.
  destruct (digitByte_codes d1 Hd1) as (Hi1 & _).
  destruct (digitByte_codes d2 Hd2) as (Hi2 & _).
  simpl fold_left. rewrite Hi1, Hi2. unfold strconv.isDigit in Hi1, Hi2.
  simpl length.
  replace (Z.of_nat (length (bytes whole) + 3) - 1)
    with (Z.succ (Z.succ (Z.of_nat (length (bytes whole))))) by lia.
  rewrite !Z.pow_succ_r by lia.
  assert (0 < 10 ^ Z.of_nat (length (bytes whole))) by (apply Z.pow_pos_nonneg; lia).
  nia.
Qed.

Lemma nearest_cents N :
  strconv.nearest (strconv.Number false false N (-2))
  = match N with
    | Zpos p => fdiv (S754_finite false p 0) (S754_finite false 100 0)
    | Z0 => S754_zero false
    | Zneg p => fdiv (S754_finite false 1 0) (S754_finite false 100 0)
    end.
Proof. by destruct N. Qed.

Lemma itemBonus_everyday item :
  isMoney (Price item) -> len (Price item) <= 18 ->
  exists c, (forall u, itemBonus u item = Some c)
            /\ 0 <= c < 2 ^ 50 /\ 128 * c <= centsOf (Price item) + 128.
Proof.
  intros Hmoney Hlen.
  destruct (readFloat_money _ Hmoney) as [_ Hnn].
  pose proof (centsOf_bound _ Hmoney) as Hcents.
  assert (centsOf (Price item) < 10 ^ 17) as Hsmall'.
  { assert (10 ^ (len (Price item) - 1) <= 10 ^ 17) by (apply Z.pow_le_mono_r; lia).
    lia. }
  assert (centsOf (Price item) < 2 ^ 59) as Hsmall
    by (assert (10 ^ 17 < 2 ^ 59) by done; lia).
  destruct (Z.rem (len (strings.TrimSpace (ShortDescription item))) 3 =? 0) eqn:Hrem.
  2: { exists 0. split; [|lia]. intros u. unfold itemBonus. by rewrite Hrem. }
  assert (exists price, strconv.ParseFloat (Price item) = (price, None)
                        /\ atMost price (-59) (centsOf (Price item) * 2 ^ 53))
    as (price & Hparse & Hprice).
  { rewrite (ParseFloat_money _ Hmoney), nearest_cents.
    destruct (centsOf (Price item)) as [|N|N] eqn:HN; [by eexists| |lia].
    pose proof (fdiv_cents_bound N Hsmall) as Hb.
    destruct (fdiv _ _) as [s|s| |[] m e]; try done; by eexists. }
  set (C := centsOf (Price item)) in *.
  assert (0 <= C * 2 ^ 53) as Hb0 by lia.
  assert (C * 2 ^ 53 < 2 ^ 112) as Hb1
    by (change (2 ^ 112) with (2 ^ 59 * 2 ^ 53); by apply Z.mul_lt_mono_pos_r).
  assert (C * 2 ^ 53 < 2 ^ 900) as Hb2
    by (eapply Z.lt_trans; [exact Hb1|by apply Z.pow_lt_mono_r]).
  pose proof (fmul_point_two_bound price (-59) (C * 2 ^ 53) ltac:(lia) Hb2 Hprice)
    as Hprod.
  assert (C * 2 ^ 53 * 2 ^ 54 < 2 ^ 166) as Hb3
    by (change (2 ^ 166) with (2 ^ 112 * 2 ^ 54); by apply Z.mul_lt_mono_pos_r).
  assert (C * 2 ^ 53 * 2 ^ 54 + 2 ^ (- (-59 - 55)) < 2 ^ (53 - (-59 - 55))) as Hb4.
  { change (- (-59 - 55)) with 114. change (53 - (-59 - 55)) with 167.
    assert (2 ^ 166 + 2 ^ 114 < 2 ^ 167) by done. lia. }
  destruct (Ceil_int_bound (fmul price point_two) (-59 - 55) (C * 2 ^ 53 * 2 ^ 54))
    as (z & Hz & Hz0 & Hzb); [lia|lia|done|done|].
  exists z. split.
  - intros u. unfold itemBonus, int_of_float64. by rewrite Hrem, Hparse; simpl; rewrite Hz.
  - change (- (-59 - 55)) with 114 in Hzb.
    change (2 ^ 114) with (2 ^ 107 * 128) in Hzb.
    rewrite <-Z.mul_assoc in Hzb. change (2 ^ 53 * 2 ^ 54) with (2 ^ 107) in Hzb.
    assert (0 < 2 ^ 107) by done.
    assert (128 * z <= C + 128) by nia.
    assert (10 ^ 17 + 128 < 128 * 2 ^ 50) by done. lia.
Qed.

Lemma sumZ_bound cs k :
  Forall (fun c => 0 <= c < k) cs -> 0 <= sumZ cs <= k * Z.of_nat (length cs).
Proof.
  unfold sumZ. induction 1 as [|c cs Hc _ IH]; simpl fold_right; [simpl; lia|].
  rewrite length_cons. lia.
Qed.

(** X5. On a receipt that [ValidateReceipt] accepts and whose prices have
    at most 18 bytes, scoring does not depend on the platform and never
    fails: every product fits in an [int], every item bonus lies between 0
    and a 128th of the cents of the price plus 1, the sum is not negative;
    with a retailer of fewer than [2^61] bytes and fewer than [2^11] items
    nothing overflows and [CalculatePoints] returns the exact sum. *)
Theorem everyday_receipt_scores receipt :
  ValidateReceipt receipt = None ->
  Forall (fun item => len (Price item) <= 18) (Items receipt) ->
  exists b,
    (forall u, bonusesOf u receipt = Some b)
    /\ Forall2 (fun item c => 0 <= c /\ 128 * c <= centsOf (Price item) + 128)
         (Items receipt) (itemBonuses b)
    /\ 0 <= sumBonuses b
    /\ (len (Retailer receipt) < 2 ^ 61 ->
        Z.of_nat (length (Items receipt)) < 2 ^ 11 ->
        forall u, CalculatePoints u receipt = (sumBonuses b, None)).
Proof.
  intros Hvalid Hshort. apply ValidateReceipt_wellFormed in Hvalid.
  pose proof (wellFormed_prices _ Hvalid) as Hprices.
  destruct Hvalid as (_ & Hdate & Htime & _).
  assert (exists cs,
            Forall2 (fun item c =>
                       (forall u, itemBonus u item = Some c)
                       /\ 0 <= c < 2 ^ 50
                       /\ 128 * c <= centsOf (Price item) + 128)
              (Items receipt) cs) as [cs Hcs].
  { clear Hdate Htime.
    induction (Items receipt) as [|item items IH]; [by exists []|].
    apply Forall_cons in Hprices as [Hitem Hprices].
    apply Forall_cons in Hshort as [Hlen Hshort].
    destruct (IH Hshort Hprices) as [cs Hcs].
    destruct (itemBonus_everyday item Hitem Hlen) as (c & Hc).
    exists (c :: cs). by constructor. }
  destruct (time.ParseDate (PurchaseDate receipt)) as [d [e|]] eqn:Hd; [done|].
  destruct (time.ParseClock (PurchaseTime receipt)) as [t [e|]] eqn:Ht; [done|].
  assert (0 <= sumZ cs <= 2 ^ 50 * Z.of_nat (length (Items receipt))) as Hsum.
  { rewrite (Forall2_length _ _ _ Hcs). apply sumZ_bound.
    clear -Hcs. induction Hcs as [|item c items cs (_ & Hc & _) _ IH]; by constructor. }
  set (b := mkBonuses
              (len (strings.ReplaceAll (Retailer receipt) " " ""))
              (if isRoundDollarAmount (Total receipt) then 50 else 0)
              (if isMultipleOfQuarter (Total receipt) then 25 else 0)
              (Z.of_nat (length (Items receipt)) / 2 * 5)
              cs
              (if Z.rem (time.Day d) 2 =? 1 then 6 else 0)
              (if afternoon t then 10 else 0)).
  assert (forall u, bonusesOf u receipt = Some b) as Hb.
  { intros u. apply bonusesOf_Some. exists cs, d, t. split; [|done].
    eapply Forall2_impl; [exact Hcs|]. intros item c (Hc & _). apply Hc. }
  destruct (len_ReplaceAll_space (Retailer receipt)) as [Hlen Hspaces].
  assert (0 <= Z.of_nat (length (Items receipt)) / 2 * 5
          <= 3 * Z.of_nat (length (Items receipt))) as Hpairs
    by (split; Z.to_euclidean_division_equations; lia).
  assert (0 <= sumBonuses b
          <= len (Retailer receipt) + 91
             + (2 ^ 50 + 3) * Z.of_nat (length (Items receipt))) as Hrange.
  { unfold sumBonuses, b; simpl. rewrite Hlen.
    unfold nonSpaces, spaces in *.
    destruct (isRoundDollarAmount _), (isMultipleOfQuarter _),
      (Z.rem (time.Day d) 2 =? 1), (afternoon t); lia. }
  exists b. split; [done|]. split; [|split; [lia|]].
  - simpl. eapply Forall2_impl; [exact Hcs|]. intros item c (_ & Hc & Hbound).
    split; [lia|done].
  - intros Hretailer Hitems u. apply CalculatePoints_exact; [done|].
    unfold in_int64.
    assert (2 ^ 61 + 91 + (2 ^ 50 + 3) * 2 ^ 11 < 2 ^ 63) by done. nia.
Qed.

(** ** The cache of identifiers *)

Lemma Get_Set_other {V} (c : cache.Cache V) k k' (x : V) d now later :
  k' <> k -> cache.Get (cache.Set_ c k x d now) k' later = cache.Get c k' later.
Proof. intros Hk. unfold cache.Get, cache.Set_; simpl. by rewrite lookup_insert_ne. Qed.

Lemma Get_Set_expired {V} (c : cache.Cache V) k (x : V) now later :
  0 < cache.defaultExpiration c -> 0 < now + cache.defaultExpiration c < later ->
  cache.Get (cache.Set_ c k x cache.DefaultExpiration now) k later = None.
Proof.
  intros Hde Hlate. unfold cache.Get, cache.Set_; simpl. rewrite lookup_insert_eq; simpl.
  rewrite (proj2 (Z.ltb_lt 0 (cache.defaultExpiration c))) by done.
  rewrite (proj2 (Z.ltb_lt 0 _)) by lia. by rewrite (proj2 (Z.ltb_lt _ later)) by lia.
Qed.

Lemma GenerateReceiptID_cases sort_Slice receipt c now (m : store) :
  let r := GenerateReceiptID sort_Slice receipt c now m in
  match cache.Get c (idOf r) now with
  | Some _ => errOf r = Some (errorString "The same receipt is passed") /\ cacheOf r = c
  | None =>
      errOf r = None
      /\ cacheOf r = cache.Set_ c (idOf r) receipt cache.DefaultExpiration now
  end.
Proof.
  intros r.
  assert (idOf r
          = receiptIDOf receipt
              (elems (alter (sort_Slice lessShortDescription) (Items receipt) m)
                 (Items receipt))) as ->
    by (unfold r, GenerateReceiptID, idOf; by destruct (cache.Get _ _ _)).
  unfold r, GenerateReceiptID, errOf, cacheOf.
  by destruct (cache.Get c _ now).
Qed.

(** X9. [GenerateReceiptID] returns the error exactly when the cache holds
    a live entry under the identifier, and then leaves the cache as it is.
    Otherwise the cache afterwards holds the receipt under the identifier
    for as long as the default expiration lasts (for ever if there is
    none), every other key reads as before, and the default expiration is
    unchanged. *)
Theorem GenerateReceiptID_cache
    (sort_Slice : (Item -> Item -> bool) -> list Item -> list Item)
    (receipt : ReceiptRef) (c : cache.Cache ReceiptRef) (now : Z) (m : store) :
  let r := GenerateReceiptID sort_Slice receipt c now m in
  (errOf r = None <-> cache.Get c (idOf r) now = None)
  /\ (errOf r <> None ->
      errOf r = Some (errorString "The same receipt is passed") /\ cacheOf r = c)
  /\ (errOf r = None ->
      (forall later,
          (0 < cache.defaultExpiration c -> later <= now + cache.defaultExpiration c) ->
          cache.Get (cacheOf r) (idOf r) later = Some receipt)
      /\ (forall k later, k <> idOf r ->
            cache.Get (cacheOf r) k later = cache.Get c k later)
      /\ cache.defaultExpiration (cacheOf r) = cache.defaultExpiration c).
Proof.
  intros r.
  pose proof (GenerateReceiptID_cases sort_Slice receipt c now m) as Hcases.
  fold r in Hcases. simpl in Hcases.
  destruct (cache.Get c (idOf r) now) as [old|] eqn:Hget.
  - destruct Hcases as [Herr Hc]. rewrite Herr.
    split; [done|]. split; [done|]. done.
  - destruct Hcases as [Herr Hc]. rewrite Herr, Hc.
    split; [done|]. split; [done|]. intros _. split; [|split; [|done]].
    + intros later Hlive. by apply Get_Set_live.
    + intros k later Hk. by apply Get_Set_other.
Qed.

(** X10. With a positive default expiration and a clock after the epoch, a
    receipt that was accepted is accepted again, under the same identifier,
    once the expiration of its entry has passed; the entry is written anew
    and lasts for another default expiration. *)
Theorem resubmission_after_expiry
    (sort_Slice : (Item -> Item -> bool) -> list Item -> list Item)
    (receipt receipt2 : ReceiptRef) (c : cache.Cache ReceiptRef) (now1 now2 : Z)
    (m : store) :
  (forall l, sort_Slice lessShortDescription l ≡ₚ l) ->
  let first := GenerateReceiptID sort_Slice receipt c now1 m in
  errOf first = None ->
  load (storeOf first) receipt2 = load m receipt ->
  0 < cache.defaultExpiration c ->
  0 < now1 + cache.defaultExpiration c < now2 ->
  let second :=
    GenerateReceiptID sort_Slice receipt2 (cacheOf first) now2 (storeOf first) in
  errOf second = None
  /\ idOf second = idOf first
  /\ forall later, later <= now2 + cache.defaultExpiration c ->
       cache.Get (cacheOf second) (idOf first) later = Some receipt2.
Proof.
  intros Hperm first Herr Hsame Hde Hlate second.
  pose proof (GenerateReceiptID_id sort_Slice Hperm receipt c now1 m) as Hfirst.
  fold first in Hfirst.
  assert (idOf second = idOf first) as Hid.
  { unfold second. rewrite GenerateReceiptID_id, Hfirst by done.
    unfold load in Hsame. injection Hsame as Hr Hd Ht Htot Hitems.
    rewrite Hitems. by apply receiptIDOf_fields. }
  assert (cacheOf first
          = cache.Set_ c (idOf first) receipt cache.DefaultExpiration now1) as Hc.
  { pose proof (GenerateReceiptID_cases sort_Slice receipt c now1 m) as Hcases.
    fold first in Hcases. simpl in Hcases.
    destruct (cache.Get c (idOf first) now1) as [old|]; destruct Hcases; congruence. }
  pose proof (GenerateReceiptID_cases sort_Slice receipt2 (cacheOf first) now2
                (storeOf first)) as Hcases.
  fold second in Hcases. simpl in Hcases. rewrite Hid in Hcases.
  rewrite Hc, Get_Set_expired in Hcases by done. rewrite <-Hc in Hcases.
  destruct Hcases as [Herr2 Hc2].
  split; [done|]. split; [done|].
  intros later Hlater. rewrite Hc2. apply Get_Set_live.
  rewrite Hc; simpl. lia.
Qed.

(** ** Fields hashed without separators *)

Lemma append_assoc (s1 s2 s3 : string) : (s1 +:+ s2) +:+ s3 = s1 +:+ (s2 +:+ s3).
Proof. apply bytes_inj. by rewrite !bytes_app, app_assoc. Qed.

Lemma append_eq_self (s x : string) : s +:+ x = s -> x = "".
Proof.
  intros H. apply (f_equal bytes) in H. rewrite bytes_app in H.
  rewrite <-(app_nil_r (bytes s)) in H at 2. apply app_inv_head in H.
  by destruct x.
Qed.

Lemma isName_prefix s x : s <> "" -> isName (s +:+ x) -> isName s.
Proof.
  intros Hs [_ Hall]. split; [done|].
  rewrite bytes_app in Hall. by apply Forall_app in Hall as [? _].
Qed.

Lemma isMoney_digits x s :
  Forall (fun c => digitByte c = true) (bytes x) -> isMoney s -> isMoney (x +:+ s).
Proof.
  intros Hx (whole & d1 & d2 & Hne & Hw & Hd1 & Hd2 & ->).
  exists (x +:+ whole), d1, d2. split; [by destruct x, whole|].
  split; [rewrite bytes_app; by apply Forall_app|].
  do 2 (split; [done|]). by rewrite <-append_assoc.
Qed.

(** X11. The hasher is fed the fields without separators, so that bytes
    can move from the end of a description to the front of the price: two
    receipts of one item each, alike but for that, get the same identifier.
    They are different receipts whenever bytes move, and when the bytes
    moved are digits and the first receipt passes [ValidateReceipt], so
    does the second. *)
Theorem unseparated_fields_collide
    (sort_Slice : (Item -> Item -> bool) -> list Item -> list Item)
    (r1 r2 : ReceiptRef) (c1 c2 : cache.Cache ReceiptRef) (now1 now2 : Z)
    (m1 m2 : store) (desc x price : string) :
  (forall l, sort_Slice lessShortDescription l ≡ₚ l) ->
  Retailer r1 = Retailer r2 -> PurchaseDate r1 = PurchaseDate r2 ->
  PurchaseTime r1 = PurchaseTime r2 -> Total r1 = Total r2 ->
  elems m1 (Items r1) = [mkItem (desc +:+ x) price] ->
  elems m2 (Items r2) = [mkItem desc (x +:+ price)] ->
  idOf (GenerateReceiptID sort_Slice r1 c1 now1 m1)
  = idOf (GenerateReceiptID sort_Slice r2 c2 now2 m2)
  /\ (x <> "" -> load m1 r1 <> load m2 r2)
  /\ (desc <> "" -> Forall (fun c => digitByte c = true) (bytes x) ->
      ValidateReceipt (load m1 r1) = None -> ValidateReceipt (load m2 r2) = None).
Proof.
  intros Hperm Hr Hd Ht Htot H1 H2. split; [|split].
  - rewrite !GenerateReceiptID_id by done. rewrite H1, H2.
    rewrite !(proj1 (Permutation_singleton_r _ _) (Hperm _)).
    rewrite (receiptIDOf_fields r1 r2) by done.
    unfold receiptIDOf, hashInput; simpl. by rewrite !append_assoc.
  - intros Hx Heq. unfold load in Heq. rewrite H1, H2 in Heq.
    injection Heq as _ _ _ _ Hdesc _. by apply append_eq_self in Hdesc.
  - intros Hdesc Hdigits. rewrite !ValidateReceipt_wellFormed. unfold wellFormed, load; simpl.
    rewrite H1, H2, <-Hr, <-Hd, <-Ht, <-Htot.
    intros (Hname & Hdate & Htime & Htotal & _ & Hitems).
    apply Forall_singleton in Hitems as [Hn Hm]; simpl in *.
    do 4 (split; [done|]). split; [done|].
    apply Forall_singleton; simpl. split; [by eapply isName_prefix|by apply isMoney_digits].
Qed.

(** ** The order of the items *)

Lemma Forall2_perm_l {A B} (P : A -> B -> Prop) l1 l2 k1 :
  l1 ≡ₚ l2 -> Forall2 P l1 k1 -> exists k2, Forall2 P l2 k2 /\ k1 ≡ₚ k2.
Proof.
  intros Hperm. revert k1.
  induction Hperm as [|x l1 l2 _ IH|x y l|l1 l2 l3 _ IH1 _ IH2]; intros k1 Hk.
  - inversion Hk; subst. by exists [].
  - inversion Hk as [|? c ? k Hc Hrest]; subst.
    destruct (IH _ Hrest) as (k2 & Hk2 & Hp). exists (c :: k2).
    split; [by constructor|by constructor].
  - inversion Hk as [|? cy ? k Hy Hrest]; subst.
    inversion Hrest as [|? cx ? k' Hx Hrest']; subst.
    exists (cx :: cy :: k'). split; [by repeat constructor|apply perm_swap].
  - destruct (IH1 _ Hk) as (k2 & Hk2 & Hp2).
    destruct (IH2 _ Hk2) as (k3 & Hk3 & Hp3).
    exists k3. split; [done|by etrans].
Qed.

Lemma sumZ_perm l1 l2 : l1 ≡ₚ l2 -> sumZ l1 = sumZ l2.
Proof.
  unfold sumZ. induction 1; simpl; lia.
Qed.

Lemma wellFormed_perm (r1 r2 : Receipt) :
  Retailer r1 = Retailer r2 -> PurchaseDate r1 = PurchaseDate r2 ->
  PurchaseTime r1 = PurchaseTime r2 -> Total r1 = Total r2 ->
  Items r1 ≡ₚ Items r2 ->
  wellFormed r1 -> wellFormed r2.
Proof.
  unfold wellFormed. intros <- <- <- <- Hperm (? & ? & ? & ? & Hne & Hitems).
  do 4 (split; [done|]). split.
  - intros Hnil. rewrite Hnil in Hperm. by apply Permutation_nil_r in Hperm.
  - by rewrite <-Hperm.
Qed.

Lemma bonusesOf_perm u (r1 r2 : Receipt) b1 :
  Retailer r1 = Retailer r2 -> PurchaseDate r1 = PurchaseDate r2 ->
  PurchaseTime r1 = PurchaseTime r2 -> Total r1 = Total r2 ->
  Items r1 ≡ₚ Items r2 ->
  bonusesOf u r1 = Some b1 ->
  exists b2, bonusesOf u r2 = Some b2 /\ sumBonuses b2 = sumBonuses b1.
Proof.
  intros Hr Hd Ht Htot Hperm Hb.
  apply bonusesOf_Some in Hb as (cs & d & t & Hcs & Hdate & Htime & ->).
  destruct (Forall2_perm_l _ _ _ _ Hperm Hcs) as (cs2 & Hcs2 & Hp).
  eexists. split.
  - apply bonusesOf_Some. exists cs2, d, t. rewrite <-Hd, <-Ht. done.
  - unfold sumBonuses; simpl.
    by rewrite <-Hr, <-Htot, <-(sumZ_perm _ _ Hp), <-(Permutation_length Hperm).
Qed.

Lemma CalculatePoints_perm u (r1 r2 : Receipt) b :
  Retailer r1 = Retailer r2 -> PurchaseDate r1 = PurchaseDate r2 ->
  PurchaseTime r1 = PurchaseTime r2 -> Total r1 = Total r2 ->
  Items r1 ≡ₚ Items r2 ->
  bonusesOf u r1 = Some b ->
  CalculatePoints u r1 = CalculatePoints u r2.
Proof.
  intros Hr Hd Ht Htot Hperm Hb.
  destruct (bonusesOf_perm u r1 r2 b Hr Hd Ht Htot Hperm Hb) as (b2 & Hb2 & Hsum).
  by rewrite (CalculatePoints_bonuses _ _ _ Hb), (CalculatePoints_bonuses _ _ _ Hb2), Hsum.
Qed.

(** A well-formed receipt after a permutation of its items: the same
    points, a failure exactly when there was one, and the failure quotes
    an out-of-range price of the receipt. *)
Lemma CalculatePoints_perm_wellFormed u (r1 r2 : Receipt) :
  Retailer r1 = Retailer r2 -> PurchaseDate r1 = PurchaseDate r2 ->
  PurchaseTime r1 = PurchaseTime r2 -> Total r1 = Total r2 ->
  Items r1 ≡ₚ Items r2 ->
  wellFormed r1 ->
  fst (CalculatePoints u r1) = fst (CalculatePoints u r2)
  /\ (snd (CalculatePoints u r1) = None <-> snd (CalculatePoints u r2) = None)
  /\ (forall e, snd (CalculatePoints u r1) = Some e ->
       exists item,
         item ∈ Items r2
         /\ strconv.ParseFloat (Price item)
            = (S754_infinity false, Some (NumError "ParseFloat" (Price item) ErrRange))
         /\ e = wrapError "failed to parse price"
                  (NumError "ParseFloat" (Price item) ErrRange)).
Proof.
  intros Hr Hd Ht Htot Hperm Hvalid.
  destruct (CalculatePoints_wellFormed u r1 Hvalid)
    as [[b Hb]|(Hnone & item & Hin & _ & Hparse & Hcalc)].
  - rewrite <-(CalculatePoints_perm u r1 r2 b Hr Hd Ht Htot Hperm Hb).
    rewrite (CalculatePoints_bonuses _ _ _ Hb). simpl. by split; [|split].
  - pose proof (wellFormed_perm r1 r2 Hr Hd Ht Htot Hperm Hvalid) as Hvalid2.
    destruct (CalculatePoints_wellFormed u r2 Hvalid2)
      as [[b2 Hb2]|(_ & item2 & _ & _ & _ & Hcalc2)].
    + symmetry in Hperm.
      destruct (bonusesOf_perm u r2 r1 b2) as (b & Hb & _); try done. congruence.
    + rewrite Hcalc, Hcalc2. simpl. split; [done|]. split; [done|].
      intros e [= <-]. exists item. by rewrite <-Hperm.
Qed.

(** X12. [GenerateReceiptID] reorders the caller's items. Afterwards the
    receipt passes [ValidateReceipt] exactly when it did before. If it
    does, [CalculatePoints] returns the same points as before and fails
    exactly when it failed before; the error of a failure quotes an
    out-of-range price of the receipt, which need not be the price quoted
    before. Whenever scoring succeeded before, it returns the same points
    afterwards. *)
Theorem scoring_after_identify u
    (sort_Slice : (Item -> Item -> bool) -> list Item -> list Item)
    (receipt : ReceiptRef) (c : cache.Cache ReceiptRef) (now : Z) (m : store) :
  (forall l, sort_Slice lessShortDescription l ≡ₚ l) ->
  let after := storeOf (GenerateReceiptID sort_Slice receipt c now m) in
  (ValidateReceipt (load after receipt) = None <-> ValidateReceipt (load m receipt) = None)
  /\ (ValidateReceipt (load m receipt) = None ->
      fst (CalculatePoints u (load after receipt))
      = fst (CalculatePoints u (load m receipt))
      /\ (snd (CalculatePoints u (load after receipt)) = None
          <-> snd (CalculatePoints u (load m receipt)) = None)
      /\ (forall e, snd (CalculatePoints u (load after receipt)) = Some e ->
           exists item,
             item ∈ Items (load m receipt)
             /\ strconv.ParseFloat (Price item)
                = (S754_infinity false, Some (NumError "ParseFloat" (Price item) ErrRange))
             /\ e = wrapError "failed to parse price"
                      (NumError "ParseFloat" (Price item) ErrRange)))
  /\ (forall b, bonusesOf u (load m receipt) = Some b ->
      CalculatePoints u (load after receipt) = (wrap64 (sumBonuses b), None)).
Proof.
  intros Hperm after.
  assert (Items (load after receipt) ≡ₚ Items (load m receipt)) as Hitems.
  { unfold after, load; simpl. by rewrite GenerateReceiptID_store, elems_sorted. }
  split; [|split].
  - rewrite !ValidateReceipt_wellFormed.
    split; apply wellFormed_perm; done.
  - intros Hvalid. apply ValidateReceipt_wellFormed in Hvalid.
    apply CalculatePoints_perm_wellFormed; try done.
    by apply (wellFormed_perm (load m receipt)).
  - intros b Hb. rewrite <-(CalculatePoints_bonuses _ _ _ Hb). symmetry.
    by apply (CalculatePoints_perm u _ _ b).
Qed.

(** ** Rounding to the nearest float

    [binary_round_aux] of the Standard Library, which [SFmul] and [SFdiv]
    end in, returns a float nearest to the value it is given. *)

Lemma iter_pos_nat {A} (f : A -> A) p x :
  SpecFloat.iter_pos f p x = Nat.iter (Pos.to_nat p) f x.
Proof.
  revert x. induction p as [p IH|p IH|]; intros x; simpl SpecFloat.iter_pos.
  - rewrite !IH, Pos2Nat.inj_xI.
    replace (S (2 * Pos.to_nat p)) with (Pos.to_nat p + (Pos.to_nat p + 1))%nat by lia.
    rewrite !Nat.iter_add. simpl. done.
  - rewrite !IH, Pos2Nat.inj_xO.
    replace (2 * Pos.to_nat p)%nat with (Pos.to_nat p + Pos.to_nat p)%nat by lia.
    by rewrite Nat.iter_add.
  - done.
Qed.

Lemma shr_record_loc m l : loc_of_shr_record (shr_record_of_loc m l) = l.
Proof. by destruct l as [|[]]. Qed.

Lemma shr_record_m m l : shr_m (shr_record_of_loc m l) = m.
Proof. by destruct l as [|[]]. Qed.

Lemma shr_1_loc mrs o w :
  0 <= shr_m mrs -> 0 <= o < w ->
  loc_of_shr_record mrs = locOf o w ->
  loc_of_shr_record (shr_1 mrs) = locOf (w * (shr_m mrs mod 2) + o) (2 * w).
Proof.
  destruct mrs as [m r s]; simpl shr_m. intros Hm Ho Hloc.
  assert ((r || s = false /\ o = 0) \/ (r || s = true /\ 0 < o)) as Hrs.
  { unfold locOf in Hloc. destruct (o =? 0) eqn:Ho0.
    - apply Z.eqb_eq in Ho0. left. by destruct r, s.
    - apply Z.eqb_neq in Ho0. right. split; [by destruct r, s|lia]. }
  assert (forall b : bool,
            loc_of_shr_record (Build_shr_record (m / 2) b (r || s))
            = locOf (w * (if b then 1 else 0) + o) (2 * w)) as Hstep.
  { intros b. unfold locOf.
    destruct Hrs as [[-> ->]|[-> Hpos]], b; simpl loc_of_shr_record.
    - rewrite (proj2 (Z.eqb_neq _ 0)) by lia. f_equal. apply eq_sym, Z.compare_eq_iff. lia.
    - by rewrite (proj2 (Z.eqb_eq _ 0)) by lia.
    - rewrite (proj2 (Z.eqb_neq _ 0)) by lia. f_equal. apply eq_sym, Z.compare_gt_iff. lia.
    - rewrite (proj2 (Z.eqb_neq _ 0)) by lia. f_equal. apply eq_sym, Z.compare_lt_iff. lia. }
  destruct m as [|[p|p|]|p]; [| | | |lia].
  - apply (Hstep false).
  - replace (Zpos p~1 mod 2) with 1 by (rewrite Pos2Z.inj_xI; Z.to_euclidean_division_equations; lia).
    specialize (Hstep true).
    replace (Zpos p~1 / 2) with (Zpos p) in Hstep
      by (rewrite Pos2Z.inj_xI; Z.to_euclidean_division_equations; lia).
    done.
  - replace (Zpos p~0 mod 2) with 0 by (rewrite Pos2Z.inj_xO; Z.to_euclidean_division_equations; lia).
    specialize (Hstep false).
    replace (Zpos p~0 / 2) with (Zpos p) in Hstep
      by (rewrite Pos2Z.inj_xO; Z.to_euclidean_division_equations; lia).
    done.
  - apply (Hstep true).
Qed.

Lemma iter_shr_1 k mrs o w :
  0 <= shr_m mrs -> 0 <= o < w ->
  loc_of_shr_record mrs = locOf o w ->
  shr_m (Nat.iter k shr_1 mrs) = shr_m mrs / 2 ^ Z.of_nat k
  /\ loc_of_shr_record (Nat.iter k shr_1 mrs)
     = locOf (w * (shr_m mrs mod 2 ^ Z.of_nat k) + o) (2 ^ Z.of_nat k * w).
Proof.
  intros Hm Ho Hloc. induction k as [|k [IHm IHloc]].
  - simpl. rewrite Z.div_1_r, Z.mod_1_r. split; [done|].
    rewrite Hloc. f_equal; lia.
  - rewrite Nat.iter_succ, Nat2Z.inj_succ, Z.pow_succ_r by lia.
    set (K := 2 ^ Z.of_nat k) in *.
    assert (0 < K) as HK by (apply Z.pow_pos_nonneg; lia).
    pose proof (Z.mod_pos_bound (shr_m mrs) K HK) as Hrem.
    assert (0 <= shr_m (Nat.iter k shr_1 mrs)) as Hmk
      by (rewrite IHm; by apply Z.div_pos).
    split.
    + rewrite shr_1_m, IHm by done. rewrite Z.div_div by lia. f_equal. lia.
    + assert (0 <= w * (shr_m mrs mod K) + o < K * w) as Hok by nia.
      rewrite (shr_1_loc _ _ _ Hmk Hok IHloc), IHm.
      f_equal; [|lia].
      rewrite (Z.mul_comm 2 K), Z.rem_mul_r by lia. lia.
Qed.

Lemma shr_fexp_loc m e o w :
  0 <= m -> 0 <= o < w ->
  let n := Z.max 0 (fexp prec64 emax64 (Zdigits2 m + e) - e) in
  let r := shr_fexp prec64 emax64 m e (locOf o w) in
  shr_m (fst r) = m / 2 ^ n
  /\ loc_of_shr_record (fst r) = locOf (w * (m mod 2 ^ n) + o) (2 ^ n * w)
  /\ snd r = e + n.
Proof.
  intros Hm Ho n r. unfold r, shr_fexp, shr. fold (fexp prec64 emax64 (Zdigits2 m + e)).
  subst n.
  destruct (fexp prec64 emax64 (Zdigits2 m + e) - e) as [|p|p] eqn:Hn;
    simpl fst; simpl snd.
  - change (Z.max 0 0) with 0. rewrite shr_record_m, shr_record_loc.
    rewrite Z.div_1_r, Z.mod_1_r. split; [done|]. split; [f_equal; lia|lia].
  - rewrite Z.max_r by lia. rewrite iter_pos_nat.
    destruct (iter_shr_1 (Pos.to_nat p) (shr_record_of_loc m (locOf o w)) o w)
      as [H1 H2]; rewrite ?shr_record_m, ?shr_record_loc; try done.
    rewrite positive_nat_Z in H1, H2. rewrite shr_record_m in H1, H2. done.
  - rewrite Z.max_l by lia. rewrite shr_record_m, shr_record_loc.
    rewrite Z.div_1_r, Z.mod_1_r. split; [done|]. split; [f_equal; lia|lia].
Qed.

Lemma round_nearest_even_spec m o w :
  0 <= o < w ->
  let m2 := round_nearest_even m (locOf o w) in
  m <= m2 <= m + 1
  /\ - w <= 2 * (w * m2 - (w * m + o)) <= w
  /\ (2 * o < w -> m2 = m).
Proof.
  intros Ho m2. unfold m2, round_nearest_even, locOf.
  destruct (o =? 0) eqn:Ho0.
  - apply Z.eqb_eq in Ho0. split; [lia|]. split; [nia|done].
  - apply Z.eqb_neq in Ho0. destruct (2 * o ?= w) eqn:Hc.
    + rewrite Z.compare_eq_iff in Hc. destruct (Z.even m); (split; [lia|]); split; nia.
    + rewrite Z.compare_lt_iff in Hc. split; [lia|]. split; [nia|done].
    + rewrite Z.compare_gt_iff in Hc. split; [lia|]. split; [nia|lia].
Qed.

Lemma Zdigits2_upper m : 0 <= m -> m < 2 ^ Zdigits2 m.
Proof. destruct m as [|p|p]; [done| |lia]. intros _. apply digits2_upper. Qed.

Lemma Zdigits2_lower m : 0 < m -> 2 ^ (Zdigits2 m - 1) <= m.
Proof. destruct m as [|p|p]; [lia| |lia]. intros _. apply digits2_lower. Qed.

Lemma Zdigits2_le m k : 0 <= k -> 0 <= m < 2 ^ k -> Zdigits2 m <= k.
Proof. destruct m as [|p|p]; [simpl; lia| |lia]. intros Hk [_ Hm]. by apply digits2_le. Qed.

Lemma Zdigits2_nonneg m : 0 <= Zdigits2 m.
Proof. by destruct m. Qed.

(** The second normalisation of [binary_round_aux] loses nothing. *)
Lemma shr_fexp_again mx ex m2 :
  0 <= mx ->
  let n := Z.max 0 (fexp prec64 emax64 (Zdigits2 mx + ex) - ex) in
  mx / 2 ^ n <= m2 <= mx / 2 ^ n + 1 ->
  let r := shr_fexp prec64 emax64 m2 (ex + n) loc_Exact in
  ex + n <= snd r <= ex + n + 1
  /\ shr_m (fst r) * 2 ^ (snd r - (ex + n)) = m2
  /\ m2 <= 2 ^ 53 /\ -1074 <= ex + n.
Proof.
  intros Hmx n Hm2 r.
  set (d := Zdigits2 mx) in *. set (e1 := ex + n).
  pose proof (Zdigits2_nonneg mx) as Hd. fold d in Hd.
  pose proof (Zdigits2_upper mx Hmx) as Hup. fold d in Hup.
  assert (0 <= n) as Hn by (unfold n; lia).
  assert (0 < 2 ^ n) as Hpn by (by apply pow2_pos).
  set (D := Z.max 0 (d - n)).
  assert (mx / 2 ^ n < 2 ^ D) as Hm1.
  { unfold D. destruct (Z.le_gt_cases n d).
    - rewrite Z.max_r by lia. apply Z.div_lt_upper_bound; [done|].
      rewrite <-pow2_split by lia. by replace (n + (d - n)) with d by lia.
    - rewrite Z.max_l by lia. rewrite Z.div_small; [done|].
      split; [done|]. eapply Z.lt_le_trans; [exact Hup|]. apply Z.pow_le_mono_r; lia. }
  assert (fexp prec64 emax64 (D + e1) <= e1 /\ -1074 <= e1) as [Hfix Hemin].
  { unfold D, e1, n. rewrite !fexp64. fold d. lia. }
  rewrite fexp64 in Hfix.
  assert (0 <= mx / 2 ^ n) as Hm1pos by (by apply Z.div_pos).
  assert (0 <= m2) as Hm2pos by lia.
  destruct (shr_fexp_m m2 e1 loc_Exact Hm2pos) as [Hm3 He3].
  subst r. fold e1. rewrite Hm3, He3.
  set (n2 := Z.max 0 (fexp prec64 emax64 (Zdigits2 m2 + e1) - e1)).
  assert (m2 <= 2 ^ D) as Hm2D by lia.
  assert (2 ^ D <= 2 ^ 53) as HD53 by (apply Z.pow_le_mono_r; lia).
  assert (n2 = 0 \/ (n2 = 1 /\ m2 = 2 ^ 53)) as Hn2.
  { destruct (Z.eq_dec m2 (2 ^ D)) as [Heq|Hne].
    - assert (Zdigits2 m2 <= D + 1) as Hdig.
      { apply Zdigits2_le; [lia|]. split; [done|]. rewrite Heq.
        apply Z.pow_lt_mono_r; lia. }
      unfold n2. rewrite fexp64.
      destruct (Z.eq_dec D 53) as [HD|HD]; [|left; lia].
      destruct (Z.le_gt_cases (Zdigits2 m2) 53); [left; lia|right].
      split; [lia|]. by rewrite Heq, HD.
    - left. assert (Zdigits2 m2 <= D) as Hdig by (apply Zdigits2_le; lia).
      unfold n2. rewrite fexp64. lia. }
  split; [lia|]. split; [|split; [lia|done]].
  replace (e1 + n2 - e1) with n2 by lia.
  destruct Hn2 as [->|[-> ->]]; [by rewrite Z.div_1_r, Z.mul_1_r|done].
Qed.

Lemma binary_round_aux_nearest sx mx ex o w :
  0 <= mx -> 0 <= o < w ->
  let n := Z.max 0 (fexp prec64 emax64 (Zdigits2 mx + ex) - ex) in
  exists m2,
    roundsTo (binary_round_aux prec64 emax64 sx mx ex (locOf o w)) sx m2 (ex + n)
    /\ mx / 2 ^ n <= m2 <= mx / 2 ^ n + 1
    /\ m2 <= 2 ^ 53
    /\ - (2 ^ n * w) <= 2 * (2 ^ n * w * m2 - (w * mx + o)) <= 2 ^ n * w
    /\ (2 * (w * (mx mod 2 ^ n) + o) < 2 ^ n * w -> m2 = mx / 2 ^ n)
    /\ (forall s m e,
          binary_round_aux prec64 emax64 sx mx ex (locOf o w) = S754_finite s m e ->
          e <= ex + n + 1).
Proof.
  intros Hmx Ho n. unfold binary_round_aux.
  destruct (shr_fexp_loc mx ex o w Hmx Ho) as (Hm1 & Hl1 & He1). fold n in Hm1, Hl1, He1.
  destruct (shr_fexp prec64 emax64 mx ex (locOf o w)) as [mrs1 e1].
  simpl in Hm1, Hl1, He1. subst e1.
  assert (0 <= n) as Hn by (unfold n; lia).
  assert (0 < 2 ^ n) as Hpn by (by apply pow2_pos).
  pose proof (Z.mod_pos_bound mx (2 ^ n) Hpn) as Hrem.
  pose proof (Z.div_mod mx (2 ^ n) ltac:(lia)) as Hdm.
  assert (0 <= w * (mx mod 2 ^ n) + o < 2 ^ n * w) as Ho' by nia.
  rewrite Hl1.
  pose proof (round_nearest_even_spec (shr_m mrs1) _ _ Ho') as (Hm2 & Herr & Hlow).
  set (m2 := round_nearest_even (shr_m mrs1) _) in *.
  rewrite Hm1 in Hm2, Herr, Hlow.
  destruct (shr_fexp_again mx ex m2 Hmx Hm2) as (He3 & Hm3 & H53 & Hemin).
  fold n in He3, Hm3, Hemin.
  destruct (shr_fexp prec64 emax64 m2 (ex + n) loc_Exact) as [mrs3 e3].
  simpl in He3, Hm3.
  exists m2.
  assert (0 < 2 ^ (e3 - (ex + n))) as Hp3 by (apply pow2_pos; lia).
  assert (0 <= m2) as Hm2pos
    by (pose proof (Z.div_pos mx (2 ^ n) Hmx Hpn); lia).
  change (emax64 - prec64) with 971.
  split; [|split; [done|]; split; [done|]; split; [nia|]; split; [done|]].
  - destruct (shr_m mrs3) as [|m3|m3]; simpl.
    + split; [done|]. lia.
    + destruct (e3 <=? 971) eqn:He.
      * apply Z.leb_le in He. split; [done|]. split; [lia|done].
      * apply Z.leb_gt in He. split; [done|]. exists m3, e3. split; [lia|]. split; [lia|done].
    + nia.
  - intros s m e. destruct (shr_m mrs3) as [|m3|m3]; [done| |done].
    destruct (e3 <=? 971); [|done]. intros [= _ _ <-]. lia.
Qed.

Lemma new_location_100 r : new_location 100 r = locOf r 100.
Proof. done. Qed.

Lemma fdiv_cents_nearest (N : positive) :
  Zpos N < 2 ^ 50 ->
  exists s m e,
    10 <= s <= 59
    /\ fdiv (S754_finite false N 0) (S754_finite false 100 0) = S754_finite false m e
    /\ - s <= e <= 2 - s
    /\ - 100 <= 100 * (Zpos m * 2 ^ (e + s)) - Zpos N * 2 ^ s <= 100
    /\ (forall j, Zpos N = 25 * j -> 4 * (Zpos m * 2 ^ (e + s)) = j * 2 ^ s).
Proof.
  intros HN. unfold fdiv, SFdiv, SFdiv_core_binary.
  set (d1 := Zdigits2 (Zpos N)).
  assert (1 <= d1 <= 50) as Hd1.
  { unfold d1; simpl. split; [lia|]. by apply digits2_le. }
  assert (2 ^ (d1 - 1) <= Zpos N) as Hlow by apply digits2_lower.
  change (Zdigits2 100) with 7.
  rewrite fexp64.
  replace (Z.min (Z.max (d1 + 0 - (7 + 0) - 53) (-1074)) (0 - 0)) with (d1 - 60) by lia.
  replace (0 - 0 - (d1 - 60)) with (60 - d1) by lia.
  destruct (60 - d1) as [|s|s] eqn:Hs; [lia| |lia].
  rewrite Z.shiftl_mul_pow2 by lia.
  pose proof (Z_div_mod (Zpos N * 2 ^ Zpos s) 100 eq_refl) as Hdiv.
  destruct (Z.div_eucl (Zpos N * 2 ^ Zpos s) 100) as [q r]. destruct Hdiv as [Hq Hr].
  replace (d1 - 60) with (- Zpos s) by lia.
  assert (0 < 2 ^ Zpos s) as HS by (by apply pow2_pos).
  assert (2 ^ 10 <= 2 ^ Zpos s) as HS10 by (apply Z.pow_le_mono_r; lia).
  assert (0 <= q) as Hq0 by nia.
  assert (q < 2 ^ 54) as Hq54.
  { assert (0 < 2 ^ (d1 - 1)) as HP by (apply pow2_pos; lia).
    assert (2 ^ Zpos s * 2 ^ (d1 - 1) = 2 ^ 59) as HSP
      by (rewrite <-pow2_split by lia; f_equal; lia).
    assert (Zpos N < 2 * 2 ^ (d1 - 1)) as Hup.
    { pose proof (digits2_upper N) as Hup. fold (Zdigits2 (Zpos N)) in Hup. fold d1 in Hup.
      replace d1 with (1 + (d1 - 1)) in Hup at 1 by lia.
      rewrite pow2_split in Hup by lia. done. }
    assert (100 * q < 2 ^ 60) by (change (2 ^ 60) with (2 * 2 ^ 59); nia).
    lia. }
  simpl xorb. rewrite new_location_100.
  destruct (binary_round_aux_nearest false q (- Zpos s) r 100 Hq0 ltac:(lia))
    as (m2 & Hround & Hm2 & H53 & Herr & Hexact & Hexp).
  set (n := Z.max 0 (fexp prec64 emax64 (Zdigits2 q + - Zpos s) - - Zpos s)) in *.
  assert (0 <= n <= 1) as Hn.
  { pose proof (Zdigits2_le q 54 ltac:(lia) ltac:(lia)).
    unfold n. rewrite fexp64. lia. }
  assert (0 < 2 ^ n <= 2) as Hpn.
  { split; [apply pow2_pos; lia|]. change 2 with (2 ^ 1) at 2.
    apply Z.pow_le_mono_r; lia. }
  destruct (binary_round_aux _ _ _ _ _ _) as [s0|s0| |s0 m e]; simpl in Hround.
  - destruct Hround as [_ ->]. nia.
  - destruct Hround as (_ & m & e & He & He' & Hm).
    assert (2 ^ 54 < 2 ^ (e - (- Zpos s + n))) by (apply Z.pow_lt_mono_r; lia).
    assert (2 ^ 53 < 2 ^ 54) by done. nia.
  - done.
  - destruct Hround as (-> & [He He'] & Hm). specialize (Hexp _ _ _ eq_refl).
    exists (Zpos s), m, e. split; [lia|]. split; [done|]. split; [lia|].
    assert (Zpos m * 2 ^ (e + Zpos s) = m2 * 2 ^ n) as HV.
    { rewrite <-Hm, <-Z.mul_assoc, <-pow2_split by lia. do 2 f_equal. lia. }
    rewrite HV. split; [nia|].
    intros j Hj.
    assert (r = 0 /\ 4 * q = j * 2 ^ Zpos s) as [-> Hq4].
    { assert (2 ^ Zpos s = 4 * 2 ^ (Zpos s - 2)) as Hs4.
      { change 4 with (2 ^ 2). rewrite <-pow2_split by lia. f_equal. lia. }
      rewrite Hj, Hs4 in Hq. rewrite Hs4. nia. }
    assert (q mod 2 ^ n = 0) as Hqn.
    { assert (n = 0 \/ n = 1) as [->| ->] by lia; [by rewrite Z.mod_1_r|].
      assert (2 ^ Zpos s = 8 * 2 ^ (Zpos s - 3)) as Hs8.
      { change 8 with (2 ^ 3). rewrite <-pow2_split by lia. f_equal. lia. }
      rewrite Hs8 in Hq4. change (2 ^ 1) with 2.
      apply Z.mod_divide; [done|]. exists (j * 2 ^ (Zpos s - 3)). lia. }
    rewrite Hqn in Hexact. rewrite Hexact by lia.
    pose proof (Z.div_mod q (2 ^ n) ltac:(lia)) as Hdm. rewrite Hqn in Hdm.
    nia.
Qed.

Lemma Zdigits2_eq m d : 0 < d -> 2 ^ (d - 1) <= m < 2 ^ d -> Zdigits2 m = d.
Proof.
  intros Hd [Hlo Hhi].
  assert (0 < 2 ^ (d - 1)) as Hp by (apply pow2_pos; lia).
  pose proof (Zdigits2_le m d ltac:(lia) ltac:(lia)) as Hle.
  pose proof (Zdigits2_upper m ltac:(lia)) as Hup.
  pose proof (Zdigits2_nonneg m) as Hnn.
  destruct (Z.eq_dec (Zdigits2 m) d) as [|Hne]; [done|].
  assert (2 ^ Zdigits2 m <= 2 ^ (d - 1)) by (apply Z.pow_le_mono_r; lia).
  lia.
Qed.

Lemma Ceil_int_between m e lo K :
  lo <= e -> lo <= 0 -> 1 <= K < 2 ^ 53 ->
  (K - 1) * 2 ^ (- lo) < Zpos m * 2 ^ (e - lo) <= K * 2 ^ (- lo) ->
  float64_int (math.Ceil (S754_finite false m e)) = Some K.
Proof.
  intros He Hlo HK Hbetween.
  assert (0 < 2 ^ (- lo)) as Hplo by (apply pow2_pos; lia).
  assert (2 ^ 53 < 2 ^ 63) as H63 by done.
  unfold math.Ceil. destruct (0 <=? e) eqn:He0.
  - apply Z.leb_le in He0.
    assert (0 < 2 ^ e) as Hpe by (by apply pow2_pos).
    assert (Zpos m * 2 ^ (e - lo) = Zpos m * 2 ^ e * 2 ^ (- lo)) as Hval.
    { rewrite <-Z.mul_assoc, <-pow2_split by lia.
      by replace (e + - lo) with (e - lo) by lia. }
    rewrite Hval in Hbetween.
    assert (Zpos m * 2 ^ e = K) as HeqK by nia.
    unfold float64_int, trunc_finite. rewrite (proj2 (Z.leb_le 0 e)) by done.
    rewrite HeqK.
    by rewrite (proj2 (Z.leb_le (- 2 ^ 63) K)), (proj2 (Z.ltb_lt K (2 ^ 63))) by lia.
  - apply Z.leb_gt in He0.
    assert (0 < 2 ^ (- e)) as Hpe by (apply pow2_pos; lia).
    assert (0 < 2 ^ (e - lo)) as Hpel by (apply pow2_pos; lia).
    assert (2 ^ (- lo) = 2 ^ (e - lo) * 2 ^ (- e)) as Hsplit
      by (rewrite <-pow2_split by lia; f_equal; lia).
    rewrite Hsplit in Hbetween.
    assert ((K - 1) * 2 ^ (- e) < Zpos m <= K * 2 ^ (- e)) as Hm by nia.
    pose proof (Z.div_mod (Zpos m) (2 ^ (- e)) ltac:(lia)) as Hdm.
    pose proof (Z.mod_pos_bound (Zpos m) (2 ^ (- e)) Hpe) as Hrem.
    set (q := Zpos m / 2 ^ (- e)) in *. set (r := Zpos m mod 2 ^ (- e)) in *.
    assert ((if r =? 0 then q else q + 1) = K) as ->.
    { destruct (r =? 0) eqn:Hr.
      - apply Z.eqb_eq in Hr. nia.
      - apply Z.eqb_neq in Hr. nia. }
    destruct K as [|p|p]; [lia| |lia]. apply float64_int_exact. lia.
Qed.

Lemma quarter_test_cents (N : positive) :
  Zpos N < 2 ^ 50 ->
  feq (math.Mod (fdiv (S754_finite false N 0) (S754_finite false 100 0)) quarter)
      pos_zero = true
  <-> exists j, Zpos N = 25 * j.
Proof.
  intros HN.
  destruct (fdiv_cents_nearest N HN) as (s & m & e & Hs & -> & He & Herr & Hexact).
  rewrite Mod_quarter_finite, quarter_divides.
  assert (0 < 2 ^ (e + s)) as HU by (apply pow2_pos; lia).
  assert (0 < 2 ^ (- e)) as HH by (apply pow2_pos; lia).
  assert (2 ^ s = 2 ^ (- e) * 2 ^ (e + s)) as HA
    by (rewrite <-pow2_split by lia; f_equal; lia).
  assert (2 ^ 10 <= 2 ^ s) as HS10 by (apply Z.pow_le_mono_r; lia).
  split.
  - intros [?|[k Hk]]; [lia|]. exists k.
    assert (4 * (Zpos m * 2 ^ (e + s)) = k * 2 ^ s) as H4 by (rewrite HA; nia).
    assert (2 ^ s * (100 * k - 4 * Zpos N) <= 400
            /\ -400 <= 2 ^ s * (100 * k - 4 * Zpos N)) as [Hup Hlo] by nia.
    change (2 ^ 10) with 1024 in HS10. nia.
  - intros [j Hj]. right. exists j. specialize (Hexact j Hj).
    rewrite HA in Hexact. nia.
Qed.

(** ** Amounts in cents *)

Lemma ceil_500 N :
  0 < N ->
  let K := (N + 499) / 500 in
  1 <= K /\ 500 * (K - 1) <= N - 1 /\ N <= 500 * K /\ (N = 500 * K \/ N + 1 <= 500 * K).
Proof. intros HN K. unfold K. Z.to_euclidean_division_equations. lia. Qed.

Lemma bonus_cents (N : positive) :
  Zpos N < 2 ^ 50 ->
  float64_int (math.Ceil (fmul (fdiv (S754_finite false N 0) (S754_finite false 100 0))
                               point_two))
  = Some ((Zpos N + 499) / 500).
Proof.
  intros HN.
  destruct (fdiv_cents_nearest N HN) as (s & m & e & Hs & -> & He & Herr & Hexact).
  destruct (ceil_500 (Zpos N) ltac:(done)) as (HK1 & HKlo & HKhi & HKcase).
  set (K := (Zpos N + 499) / 500) in *.
  assert (K < 2 ^ 50) as HK50 by lia.
  (* the powers of two in play *)
  set (A := 2 ^ s) in *. set (U := 2 ^ (e + s)) in *.
  assert (0 < U) as HU by (apply pow2_pos; lia).
  set (H := 2 ^ (- e)).
  assert (0 < H) as HH by (apply pow2_pos; lia).
  assert (A = H * U) as HA by (unfold A, H, U; rewrite <-pow2_split by lia; f_equal; lia).
  assert (2 ^ 10 <= A) as HA10 by (apply Z.pow_le_mono_r; lia).
  set (X := 2 ^ (- (e + -55))).
  assert (X = 2 ^ 55 * H) as HX
    by (unfold X, H; rewrite <-pow2_split by lia; f_equal; lia).
  (* the product *)
  unfold fmul, point_two, SFmul. simpl xorb. change loc_Exact with (locOf 0 1).
  set (mx := Zpos (m * 7205759403792794)).
  assert (5 * mx = Zpos m * (2 ^ 55 + 2)) as Hmx by (unfold mx; rewrite Pos2Z.inj_mul; lia).
  assert (0 < mx) as Hmx0 by done.
  destruct (binary_round_aux_nearest false mx (e + -55) 0 1 ltac:(lia) ltac:(lia))
    as (m2 & Hround & Hm2 & H53 & Herr2 & Hlow & _).
  set (n := Z.max 0 (fexp prec64 emax64 (Zdigits2 mx + (e + -55)) - (e + -55))) in *.
  assert (0 <= n) as Hn by (unfold n; lia).
  assert (0 < 2 ^ n) as Hpn by (by apply pow2_pos).
  set (P := m2 * 2 ^ n).
  assert (- 2 ^ n <= 2 * (P - mx) <= 2 ^ n) as HerrP by (unfold P; lia).
  (* it suffices to place the rounded product between K - 1 and K *)
  assert ((K - 1) * X < P <= K * X) as Hbetween.
  { assert (- mx <= 2 ^ 53 * (P - mx) <= mx) as Hrel.
    { destruct (Z.le_gt_cases (Zdigits2 mx) 53) as [Hsmall|Hbig].
      - assert (n = 0) as Hn0 by (unfold n; rewrite fexp64; lia).
        rewrite Hn0 in HerrP. change (2 ^ 0) with 1 in HerrP. lia.
      - assert (n = Zdigits2 mx - 53) as Hn' by (unfold n; rewrite fexp64; lia).
        pose proof (Zdigits2_lower mx Hmx0) as Hlowd.
        replace (Zdigits2 mx - 1) with (n + 52) in Hlowd by lia.
        rewrite pow2_split in Hlowd by lia.
        lia. }
    assert (100 * (Zpos m * U) * (2 ^ 55 + 2) = 500 * U * mx) as HVmx.
    { replace (500 * U * mx) with (100 * U * (5 * mx)) by ring. rewrite Hmx. ring. }
    set (V := Zpos m * U) in *.
    assert (0 < 2 ^ 108 - Zpos N * (3 * 2 ^ 54 + 2)) as HY by lia.
    split.
    - (* below: the errors are smaller than the distance to K - 1 *)
      assert ((Zpos N - 1) * A * 2 ^ 108
              < (Zpos N * A - 100) * ((2 ^ 55 + 2) * (2 ^ 53 - 1))) as Hgap.
      { change ((2 ^ 55 + 2) * (2 ^ 53 - 1)) with (2 ^ 108 - 2 ^ 54 - 2).
        assert (Zpos N * A <= (2 ^ 50 - 1) * A) as HNA
          by (apply Z.mul_le_mono_nonneg_r; lia).
        lia. }
      apply (Z.mul_lt_mono_pos_r (2 ^ 53)); [done|].
      apply (Z.mul_lt_mono_pos_l (500 * U)); [lia|].
      assert (500 * U * ((K - 1) * X * 2 ^ 53) <= (Zpos N - 1) * A * 2 ^ 108) as H1.
      { replace (500 * U * ((K - 1) * X * 2 ^ 53))
          with (500 * (K - 1) * (A * 2 ^ 108))
          by (rewrite HX, HA; change (2 ^ 108) with (2 ^ 55 * 2 ^ 53); ring).
        rewrite <-(Z.mul_assoc (Zpos N - 1)).
        apply Z.mul_le_mono_nonneg_r; lia. }
      assert ((Zpos N * A - 100) * ((2 ^ 55 + 2) * (2 ^ 53 - 1))
              <= 500 * U * mx * (2 ^ 53 - 1)) as H2.
      { rewrite <-HVmx, <-(Z.mul_assoc (100 * V)).
        apply Z.mul_le_mono_nonneg_r; [done|]. unfold V. lia. }
      assert (500 * U * mx * (2 ^ 53 - 1) <= 500 * U * (P * 2 ^ 53)) as H3.
      { rewrite <-(Z.mul_assoc (500 * U)). apply Z.mul_le_mono_nonneg_l; lia. }
      lia.
    - destruct HKcase as [Hmult|Hnot].
      + (* a multiple of 500: the price is exact and the product rounds to K *)
        specialize (Hexact (20 * K) ltac:(lia)).
        assert (Zpos m = 5 * K * H) as Hm.
        { apply (Z.mul_reg_r _ _ (4 * U)); [lia|]. rewrite HA in Hexact. lia. }
        assert (mx = K * H * (2 ^ 55 + 2)) as HmxK by (rewrite Hm in Hmx; lia).
        set (dk := Zdigits2 K).
        assert (1 <= dk <= 50) as Hdk.
        { unfold dk. pose proof (Zdigits2_le K 50 ltac:(lia) ltac:(lia)).
          pose proof (Zdigits2_nonneg K). pose proof (Zdigits2_upper K ltac:(lia)) as Hup.
          destruct (Z.eq_dec (Zdigits2 K) 0) as [Hz|]; [|lia].
          rewrite Hz in Hup. change (2 ^ 0) with 1 in Hup. lia. }
        pose proof (Zdigits2_lower K ltac:(lia)) as HKlow. fold dk in HKlow.
        pose proof (Zdigits2_upper K ltac:(lia)) as HKup. fold dk in HKup.
        assert (0 < 2 ^ (dk - 1)) as Hpdk by (apply pow2_pos; lia).
        assert (2 ^ dk = 2 * 2 ^ (dk - 1)) as Hdk2.
        { change 2 with (2 ^ 1) at 2. rewrite <-pow2_split by lia. f_equal. lia. }
        assert (2 ^ (dk - 1) <= 2 ^ 49) as Hdk49 by (apply Z.pow_le_mono_r; lia).
        assert (Zdigits2 mx = dk + 55 - e) as Hdmx.
        { apply Zdigits2_eq; [lia|].
          replace (dk + 55 - e - 1) with ((dk - 1) + (55 + - e)) by lia.
          replace (dk + 55 - e) with (dk + (55 + - e)) by lia.
          rewrite !pow2_split by lia. fold H. rewrite HmxK.
          rewrite (Z.mul_comm K H), <-(Z.mul_assoc H), !(Z.mul_comm _ (2 ^ 55 * H)),
            <-!(Z.mul_assoc (2 ^ 55)), !(Z.mul_comm (2 ^ 55) (H * _)), <-!(Z.mul_assoc H).
          split; [apply Z.mul_le_mono_nonneg_l|apply Z.mul_lt_mono_pos_l]; lia. }
        assert (n = dk + 2 - e) as Hn' by (unfold n; rewrite fexp64, Hdmx; lia).
        assert (2 ^ n = 4 * 2 ^ dk * H) as Hpn'.
        { rewrite Hn'. replace (dk + 2 - e) with (2 + dk + - e) by lia.
          by rewrite !pow2_split by lia. }
        assert (0 < 2 ^ (53 - dk)) as Hp53 by (apply pow2_pos; lia).
        assert (2 ^ dk * 2 ^ (53 - dk) = 2 ^ 53) as Hsplit53
          by (rewrite <-pow2_split by lia; f_equal; lia).
        assert (mx mod 2 ^ n = 2 * K * H) as Hmod.
        { assert (K * H < 2 ^ dk * H) by (apply Z.mul_lt_mono_pos_r; lia).
          assert (0 <= K * H) by (apply Z.mul_nonneg_nonneg; lia).
          symmetry. apply Z.mod_unique with (K * 2 ^ (53 - dk)); [rewrite Hpn'; lia|].
          rewrite Hpn', HmxK.
          replace (4 * 2 ^ dk * H * (K * 2 ^ (53 - dk)))
            with (4 * K * H * (2 ^ dk * 2 ^ (53 - dk))) by lia.
          rewrite Hsplit53. lia. }
        assert (m2 = mx / 2 ^ n) as Hm2eq.
        { assert (K * H < 2 ^ dk * H) by (apply Z.mul_lt_mono_pos_r; lia).
          apply Hlow. rewrite Hmod, Hpn'. lia. }
        pose proof (Z.div_mod mx (2 ^ n) ltac:(lia)) as Hdm.
        rewrite Hmod, <-Hm2eq in Hdm.
        assert (P = K * X) as ->; [|lia]. unfold P. rewrite HX. lia.
      + (* otherwise the errors are smaller than the distance to K *)
        assert ((Zpos N * A + 100) * ((2 ^ 55 + 2) * (2 ^ 53 + 1))
                <= (Zpos N + 1) * A * 2 ^ 108) as Hgap.
        { change ((2 ^ 55 + 2) * (2 ^ 53 + 1)) with (2 ^ 108 + 3 * 2 ^ 54 + 2).
          assert (Zpos N * A <= (2 ^ 50 - 1) * A) as HNA
            by (apply Z.mul_le_mono_nonneg_r; lia).
          lia. }
        apply (Z.mul_le_mono_pos_r _ _ (2 ^ 53)); [done|].
        apply (Z.mul_le_mono_pos_l _ _ (500 * U)); [lia|].
        assert ((Zpos N + 1) * A * 2 ^ 108 <= 500 * U * (K * X * 2 ^ 53)) as H1.
        { replace (500 * U * (K * X * 2 ^ 53))
            with (500 * K * (A * 2 ^ 108))
            by (rewrite HX, HA; change (2 ^ 108) with (2 ^ 55 * 2 ^ 53); ring).
          rewrite <-(Z.mul_assoc (Zpos N + 1)).
          apply Z.mul_le_mono_nonneg_r; lia. }
        assert (500 * U * mx * (2 ^ 53 + 1)
                <= (Zpos N * A + 100) * ((2 ^ 55 + 2) * (2 ^ 53 + 1))) as H2.
        { rewrite <-HVmx, <-(Z.mul_assoc (100 * V)).
          apply Z.mul_le_mono_nonneg_r; [done|]. unfold V. lia. }
        assert (500 * U * (P * 2 ^ 53) <= 500 * U * mx * (2 ^ 53 + 1)) as H3.
        { rewrite <-(Z.mul_assoc (500 * U)). apply Z.mul_le_mono_nonneg_l; lia. }
        lia. }
  (* the float that comes out *)
  assert (0 < X) as HXpos by (unfold X; apply pow2_pos; lia).
  destruct (binary_round_aux _ _ _ _ _ _) as [s0|s0| |s0 m5 e5]; simpl in Hround.
  - destruct Hround as [_ Hz]. unfold P in Hbetween. rewrite Hz in Hbetween.
    assert (0 <= (K - 1) * X) by (apply Z.mul_nonneg_nonneg; lia). lia.
  - destruct Hround as (_ & m5 & e5 & He5 & He5' & Hm5).
    assert (Zpos m5 * 2 ^ (e5 - (e + -55)) = P) as HP.
    { unfold P. rewrite <-Hm5, <-Z.mul_assoc, <-pow2_split by lia. do 2 f_equal. lia. }
    assert (2 ^ 1000 <= 2 ^ (e5 - (e + -55))) by (apply Z.pow_le_mono_r; lia).
    assert (X <= 2 ^ 120) by (unfold X; apply Z.pow_le_mono_r; lia).
    assert (1 * 2 ^ (e5 - (e + -55)) <= P)
      by (rewrite <-HP; apply Z.mul_le_mono_nonneg_r; lia).
    assert (K * X <= 2 ^ 50 * 2 ^ 120) by (apply Z.mul_le_mono_nonneg; lia).
    assert (2 ^ 50 * 2 ^ 120 < 2 ^ 1000) by done.
    lia.
  - done.
  - destruct Hround as (-> & [He5 He5'] & Hm5).
    assert (Zpos m5 * 2 ^ (e5 - (e + -55)) = P) as HP.
    { unfold P. rewrite <-Hm5, <-Z.mul_assoc, <-pow2_split by lia. do 2 f_equal. lia. }
    apply (Ceil_int_between m5 e5 (e + -55)); [lia|lia| |by rewrite HP].
    assert (2 ^ 50 < 2 ^ 53) by done. lia.
Qed.

Lemma cents_sixteen_bytes s : isMoney s -> len s <= 16 -> 0 <= centsOf s < 2 ^ 50.
Proof.
  intros Hmoney Hlen.
  destruct (readFloat_money _ Hmoney) as [_ Hnn].
  pose proof (centsOf_bound _ Hmoney) as Hcents.
  assert (10 ^ (len s - 1) <= 10 ^ 15) by (apply Z.pow_le_mono_r; lia).
  assert (10 ^ 15 < 2 ^ 50) by done. lia.
Qed.

Lemma quarter_cents s :
  isMoney s -> len s <= 16 -> isMultipleOfQuarter s = true <-> centsOf s mod 25 = 0.
Proof.
  intros Hmoney Hlen. pose proof (cents_sixteen_bytes s Hmoney Hlen) as Hsmall.
  unfold isMultipleOfQuarter, parseTotal.
  rewrite (ParseFloat_money _ Hmoney), nearest_cents.
  destruct (centsOf s) as [|N|N]; [done| |lia].
  destruct (fdiv_cents_nearest N ltac:(lia)) as (s0 & m & e & _ & Hdiv & _).
  pose proof (quarter_test_cents N ltac:(lia)) as Hq.
  rewrite Hdiv in Hq |- *. rewrite Hq. split.
  - intros [j ->]. by rewrite Z.mul_comm, Z.mod_mul.
  - intros Hmod. exists (Zpos N / 25).
    pose proof (Z.div_mod (Zpos N) 25 ltac:(done)). lia.
Qed.

Lemma itemBonus_cents u item :
  isMoney (Price item) -> len (Price item) <= 16 ->
  itemBonus u item
  = Some (if Z.rem (len (strings.TrimSpace (ShortDescription item))) 3 =? 0
          then (centsOf (Price item) + 499) / 500 else 0).
Proof.
  intros Hmoney Hlen. pose proof (cents_sixteen_bytes _ Hmoney Hlen) as Hsmall.
  unfold itemBonus. destruct (Z.rem _ 3 =? 0); [|done].
  rewrite (ParseFloat_money _ Hmoney), nearest_cents.
  destruct (centsOf (Price item)) as [|N|N]; [done| |lia].
  pose proof (bonus_cents N ltac:(lia)) as Hbonus.
  destruct (fdiv_cents_nearest N ltac:(lia)) as (s0 & m & e & _ & Hdiv & _).
  rewrite Hdiv in Hbonus |- *. cbn [parsed]. unfold int_of_float64. by rewrite Hbonus.
Qed.

(** X13. On a receipt that [ValidateReceipt] accepts, an amount of at most
    16 bytes is counted in whole cents, the rounding of the floats never
    shows: the bonus of 25 is given exactly when the cents of the total are
    a multiple of 25, and an item whose trimmed description has a length
    that is a multiple of 3 earns its cents divided by 500 and rounded up,
    that is a fifth of its price rounded up. *)
Theorem amounts_counted_in_cents u receipt b :
  ValidateReceipt receipt = None ->
  bonusesOf u receipt = Some b ->
  (len (Total receipt) <= 16 ->
   (quarterBonus b = 25 <-> centsOf (Total receipt) mod 25 = 0)
   /\ (quarterBonus b = 0 <-> centsOf (Total receipt) mod 25 <> 0))
  /\ Forall2 (fun item c =>
                len (Price item) <= 16 ->
                c = if Z.rem (len (strings.TrimSpace (ShortDescription item))) 3 =? 0
                    then (centsOf (Price item) + 499) / 500 else 0)
       (Items receipt) (itemBonuses b).
Proof.
  intros Hvalid Hb. apply ValidateReceipt_wellFormed in Hvalid.
  pose proof (wellFormed_prices _ Hvalid) as Hprices.
  destruct Hvalid as (_ & _ & _ & Htotal & _).
  apply bonusesOf_Some in Hb as (cs & d & t & Hcs & _ & _ & ->); simpl. split.
  - intros Hlen. rewrite <-(quarter_cents _ Htotal Hlen).
    destruct (isMultipleOfQuarter _); split; split; done.
  - clear -Hcs Hprices.
    induction Hcs as [|item c items cs Hc _ IH]; [constructor|].
    apply Forall_cons in Hprices as [Hitem Hprices].
    constructor; [|by apply IH].
    intros Hlen. rewrite (itemBonus_cents u item Hitem Hlen) in Hc. by injection Hc.
Qed.

(** ** The bonus of a description *)

Lemma exactBonus_cents s : exactBonus s = (centsOf s + 499) / 500.
Proof.
  unfold exactBonus, decimalOf, Qceiling, Qfloor, Qopp, Qmult, Qnum, Qden.
  change (Zpos (100 * 10)) with 1000.
  Z.to_euclidean_division_equations. lia.
Qed.

(** C6. Every item contributes its own bonus. When the trimmed length of
    its description is a multiple of 3 (0 included) the bonus is
    [int(math.Ceil(price * 0.2))] in [float64] arithmetic for the parsed
    price, the integer value of the rounded-up product whenever that fits
    in an [int]; for a price in the format of the validator of at most 16
    bytes this is a fifth of the decimal price rounded up. Otherwise the
    bonus is 0. *)
Theorem C6_description_bonus u receipt b :
  bonusesOf u receipt = Some b ->
  CalculatePoints u receipt = (wrap64 (sumBonuses b), None)
  /\ Forall2
       (fun item c =>
          ((exists k, len (strings.TrimSpace (ShortDescription item)) = 3 * k) ->
           exists price,
             strconv.ParseFloat (Price item) = (price, None)
             /\ c = int_of_float64 u (math.Ceil (fmul price point_two))
             /\ forall z, float64_int (math.Ceil (fmul price point_two)) = Some z -> c = z)
          /\ ((~ exists k, len (strings.TrimSpace (ShortDescription item)) = 3 * k) ->
              c = 0)
          /\ (strings.TrimSpace (ShortDescription item) = "" ->
              exists price,
                strconv.ParseFloat (Price item) = (price, None)
                /\ c = int_of_float64 u (math.Ceil (fmul price point_two)))
          /\ ((exists k, len (strings.TrimSpace (ShortDescription item)) = 3 * k) ->
              isMoney (Price item) -> len (Price item) <= 16 ->
              c = exactBonus (Price item)))
       (Items receipt) (itemBonuses b).
Proof.
  intros Hb. split; [by apply CalculatePoints_bonuses|].
  apply bonusesOf_Some in Hb as (cs & d & t & Hcs & _ & _ & ->); simpl.
  eapply Forall2_impl; [exact Hcs|]. clear.
  intros item c Hc. cbv beta in Hc.
  assert ((exists k, len (strings.TrimSpace (ShortDescription item)) = 3 * k) ->
          exists price,
            strconv.ParseFloat (Price item) = (price, None)
            /\ c = int_of_float64 u (math.Ceil (fmul price point_two))) as Hyes.
  { rewrite <-rem3_multiple. intros Hrem. unfold itemBonus in Hc. rewrite Hrem in Hc.
    destruct (strconv.ParseFloat (Price item)) as [price [e|]]; simpl in Hc; [done|].
    simplify_eq. by exists price. }
  split; [|split; [|split]].
  - intros Hk. destruct (Hyes Hk) as (price & Hp & ->).
    exists price. do 2 (split; [done|]).
    intros z Hz. unfold int_of_float64. by rewrite Hz.
  - rewrite <-rem3_multiple. intros Hrem. apply not_true_is_false in Hrem.
    unfold itemBonus in Hc. rewrite Hrem in Hc. by simplify_eq.
  - intros Hempty. apply Hyes. exists 0. by rewrite Hempty.
  - rewrite <-rem3_multiple. intros Hrem Hmoney Hlen.
    rewrite (itemBonus_cents u item Hmoney Hlen), Hrem in Hc.
    rewrite exactBonus_cents. by injection Hc.
Qed.

(** ** The further theorems at the example receipts *)

Lemma validated_receipt_scores_witness :
  ValidateReceipt receiptTarget = None
  /\ ((exists b, bonusesOf amd64_unrepresentable receiptTarget = Some b
                 /\ CalculatePoints amd64_unrepresentable receiptTarget
                    = (wrap64 (sumBonuses b), None))
      \/ (exists item,
            item ∈ Items receiptTarget
            /\ (exists k, len (strings.TrimSpace (ShortDescription item)) = 3 * k)
            /\ strconv.ParseFloat (Price item)
               = (S754_infinity false, Some (NumError "ParseFloat" (Price item) ErrRange))
            /\ CalculatePoints amd64_unrepresentable receiptTarget
               = (0, Some (wrapError "failed to parse price"
                             (NumError "ParseFloat" (Price item) ErrRange))))).
Proof.
  assert (ValidateReceipt receiptTarget = None) as Hvalid by (vm_compute; reflexivity).
  split; [exact Hvalid|].
  exact (validated_receipt_scores amd64_unrepresentable receiptTarget Hvalid).
Defined.

Lemma validated_bonuses_not_negative_witness :
  0 <= sumBonuses targetBonuses
  /\ CalculatePoints amd64_unrepresentable receiptTarget = (sumBonuses targetBonuses, None).
Proof.
  destruct (validated_bonuses_not_negative amd64_unrepresentable receiptTarget targetBonuses)
    as (_ & _ & _ & _ & _ & _ & _ & Hsum).
  - vm_compute; reflexivity.
  - vm_compute; reflexivity.
  - destruct Hsum as [Hnn Hexact].
    + repeat constructor; intros price Hp; vm_compute in Hp;
        injection Hp as <-; vm_compute; by eexists.
    + split; [exact Hnn|]. apply Hexact. by vm_compute.
Defined.

Lemma everyday_receipt_scores_witness :
  CalculatePoints amd64_unrepresentable receiptTarget = (28, None).
Proof.
  destruct (everyday_receipt_scores receiptTarget) as (b & Hb & _ & _ & Hcalc).
  - vm_compute; reflexivity.
  - repeat constructor; by vm_compute.
  - specialize (Hb amd64_unrepresentable).
    assert (bonusesOf amd64_unrepresentable receiptTarget = Some targetBonuses) as Ht
      by (vm_compute; reflexivity).
    rewrite Ht in Hb. injection Hb as <-.
    apply Hcalc; by vm_compute.
Defined.

(** The ampersand of [M&M Corner Market] counts. *)
Lemma retailer_bonus_counts_witness :
  retailerBonus marketBonuses = nonSpaces "M&M Corner Market"
  /\ retailerBonus marketBonuses = 15.
Proof.
  destruct (retailer_bonus_counts amd64_unrepresentable receiptMarket marketBonuses)
    as (_ & Hcount & _).
  - vm_compute; reflexivity.
  - split; [exact Hcount|reflexivity].
Defined.

Lemma odd_day_bonus_witness :
  time.ParseDate "2022-01-01" = (time.Date 2022 1 1 0 0, None)
  /\ oddDayBonus targetBonuses = 6.
Proof.
  destruct (odd_day_bonus amd64_unrepresentable receiptTarget targetBonuses)
    as (_ & year & month & day & Hparse & _ & _ & _ & Hodd & _).
  - vm_compute; reflexivity.
  - split; [vm_compute; reflexivity|]. apply Hodd.
    vm_compute in Hparse. by injection Hparse as <- <- <-.
Defined.

Lemma round_dollar_zero_cents_witness :
  centsOf "100.00" mod 100 = 0 /\ roundDollarBonus hundredBonuses = 50.
Proof.
  destruct (round_dollar_zero_cents amd64_unrepresentable receiptHundred hundredBonuses)
    as [Hround _].
  - vm_compute; reflexivity.
  - vm_compute; reflexivity.
  - split; [vm_compute; reflexivity|]. apply Hround. vm_compute; reflexivity.
Defined.

Lemma resubmission_after_expiry_witness :
  let first := GenerateReceiptID insertionSort (shop 1) (cache.New 60) 0 exampleStore in
  let second :=
    GenerateReceiptID insertionSort (shop 5) (cacheOf first) 61 (storeOf first) in
  errOf first = None /\ errOf second = None /\ idOf second = idOf first.
Proof.
  destruct (resubmission_after_expiry insertionSort (shop 1) (shop 5) (cache.New 60)
              0 61 exampleStore (insertionSort_perm _)) as (H1 & H2 & _).
  - vm_compute; reflexivity.
  - vm_compute; reflexivity.
  - vm_compute; reflexivity.
  - split; vm_compute; reflexivity.
  - split; [vm_compute; reflexivity|]. split; [exact H1|exact H2].
Defined.

(** [Gum 1] at 2.00 and [Gum ] at 12.00: two valid receipts, one
    identifier. *)
Lemma unseparated_fields_collide_witness :
  idOf (GenerateReceiptID insertionSort (shop 1) (cache.New 0) 0 twoGums)
  = idOf (GenerateReceiptID insertionSort (shop 2) (cache.New 0) 0 twoGums)
  /\ load twoGums (shop 1) <> load twoGums (shop 2)
  /\ ValidateReceipt (load twoGums (shop 1)) = None
  /\ ValidateReceipt (load twoGums (shop 2)) = None.
Proof.
  destruct (unseparated_fields_collide insertionSort (shop 1) (shop 2)
              (cache.New 0) (cache.New 0) 0 0 twoGums twoGums "Gum " "1" "2.00"
              (insertionSort_perm _) eq_refl eq_refl eq_refl eq_refl)
    as (Hid & Hne & Hvalid).
  - vm_compute; reflexivity.
  - vm_compute; reflexivity.
  - assert (ValidateReceipt (load twoGums (shop 1)) = None) as H1
      by (vm_compute; reflexivity).
    split; [exact Hid|]. split; [apply Hne; discriminate|].
    split; [exact H1|]. apply Hvalid; [discriminate| |exact H1].
    repeat constructor.
Defined.

Lemma scoring_after_identify_witness :
  let after :=
    storeOf (GenerateReceiptID insertionSort (shop 1) (cache.New 0) 0 exampleStore) in
  Items (load after (shop 1)) = [bread; milk]
  /\ fst (CalculatePoints amd64_unrepresentable (load after (shop 1)))
     = fst (CalculatePoints amd64_unrepresentable (load exampleStore (shop 1)))
  /\ snd (CalculatePoints amd64_unrepresentable (load after (shop 1))) = None.
Proof.
  destruct (scoring_after_identify amd64_unrepresentable insertionSort (shop 1)
              (cache.New 0) 0 exampleStore (insertionSort_perm _)) as (_ & Hsame & _).
  split; [vm_compute; reflexivity|].
  destruct Hsame as (Hpoints & Herr & _); [vm_compute; reflexivity|].
  split; [exact Hpoints|]. apply Herr. vm_compute; reflexivity.
Defined.

Lemma C6_description_bonus_witness :
  CalculatePoints amd64_unrepresentable receiptTarget = (28, None)
  /\ Forall2
       (fun item c =>
          (~ exists k, len (strings.TrimSpace (ShortDescription item)) = 3 * k) -> c = 0)
       (Items receiptTarget) [0; 3; 0; 0; 3]
  /\ 3 = exactBonus "12.25".
Proof.
  assert (bonusesOf amd64_unrepresentable receiptTarget = Some targetBonuses) as Hb
    by (vm_compute; reflexivity).
  destruct (C6_description_bonus amd64_unrepresentable receiptTarget _ Hb) as (Hp & Hitems).
  split; [exact Hp|]. split.
  - eapply Forall2_impl; [exact Hitems|]. intros item c (_ & Hno & _). exact Hno.
  - destruct (Forall2_lookup_lr _ _ _ 1%nat (mkItem "Emils Cheese Pizza" "12.25") 3 Hitems
                eq_refl eq_refl) as (_ & _ & _ & Hexact).
    apply Hexact.
    + exists 6. vm_compute; reflexivity.
    + apply moneyPattern_isMoney. vm_compute; reflexivity.
    + by vm_compute.
Defined.

(** The price [200000000000000.01] on a description of three bytes: the
    receipt passes the validator, the item earns 40000000000000 on every
    platform, and a fifth of the price rounded up is 40000000000001. *)
Lemma C6_counterexample :
  ValidateReceipt receiptLargeGum = None
  /\ Items receiptLargeGum = [mkItem "Gum" "200000000000000.01"]
  /\ (exists k, len (strings.TrimSpace "Gum") = 3 * k)
  /\ (forall u, bonusesOf u receiptLargeGum = Some largeGumBonuses)
  /\ itemBonuses largeGumBonuses = [40000000000000]
  /\ (forall u, CalculatePoints u receiptLargeGum = (40000000000081, None))
  /\ decimalOf "200000000000000.01" = (20000000000000001 # 100)%Q
  /\ exactBonus "200000000000000.01" = 40000000000001.
Proof.
  split; [by vm_compute|]. split; [done|]. split; [by exists 1|].
  assert (forall u, bonusesOf u receiptLargeGum = Some largeGumBonuses) as Hb.
  { intros u. unfold bonusesOf, itemBonus, int_of_float64. by vm_compute. }
  split; [exact Hb|]. split; [done|]. split.
  - intros u. by rewrite (CalculatePoints_bonuses u _ _ (Hb u)).
  - split; by vm_compute.
Qed.

(** [35.35] is no multiple of a quarter; the pizza at [12.25] earns 3. *)
Lemma amounts_counted_in_cents_witness :
  centsOf "35.35" mod 25 = 10
  /\ quarterBonus targetBonuses = 0
  /\ 3 = (if Z.rem (len (strings.TrimSpace "Emils Cheese Pizza")) 3 =? 0
          then (centsOf "12.25" + 499) / 500 else 0).
Proof.
  destruct (amounts_counted_in_cents amd64_unrepresentable receiptTarget targetBonuses)
    as [Hquarter Hitems].
  - vm_compute; reflexivity.
  - vm_compute; reflexivity.
  - split; [vm_compute; reflexivity|]. split.
    + apply Hquarter; by vm_compute.
    + apply (Forall2_lookup_lr _ _ _ 1%nat (mkItem "Emils Cheese Pizza" "12.25") 3 Hitems
               eq_refl eq_refl).
      by vm_compute.
Defined.

(** A receipt that the validator accepts and the scorer refuses. *)
Example validated_price_out_of_range :
  ValidateReceipt (mkReceipt "Target" "2022-01-02" "13:01" "1.00" [mkItem "Gum" hugePrice])
  = None
  /\ CalculatePoints amd64_unrepresentable
       (mkReceipt "Target" "2022-01-02" "13:01" "1.00" [mkItem "Gum" hugePrice])
     = (0, Some (wrapError "failed to parse price"
                   (NumError "ParseFloat" hugePrice ErrRange))).
Proof. split; by vm_compute. Qed.

(** Two prices out of range: the sort of [GenerateReceiptID] changes which
    of them the error of [CalculatePoints] quotes. *)
Example sorted_items_quote_another_price :
  let after := storeOf (GenerateReceiptID insertionSort (shop 1) (cache.New 0) 0 twoHuge) in
  ValidateReceipt (load twoHuge (shop 1)) = None
  /\ CalculatePoints amd64_unrepresentable (load twoHuge (shop 1))
     = (0, Some (wrapError "failed to parse price"
                   (NumError "ParseFloat" hugePrice ErrRange)))
  /\ CalculatePoints amd64_unrepresentable (load after (shop 1))
     = (0, Some (wrapError "failed to parse price"
                   (NumError "ParseFloat" hugePrice' ErrRange)))
  /\ hugePrice <> hugePrice'.
Proof. repeat split; by vm_compute. Qed.

(** Without the validator a negative price takes points away. *)
Example unvalidated_negative_price :
  CalculatePoints amd64_unrepresentable
    (mkReceipt "" "2022-01-02" "13:01" "1.01" [mkItem "Gum" "-25.00"])
  = (-5, None).
Proof. by vm_compute. Qed.

(** A vertical tab is no white space to [\S]; a tab is. *)
Example ValidateID_vertical_tab :
  ValidateID (String (ascii_of_nat 11) "") = None
  /\ ValidateID (String (ascii_of_nat 9) "") = Some (errorString "Invalid ID format")
  /\ ValidateID "" = Some (errorString "Invalid ID format").
Proof. by vm_compute. Qed.
